(** * ragjs: a shallow embedding of the RAG orchestration core

    Sources embedded here:
    - [DocumentProcessor.splitTextIntoChunks]           (services/DocumentProcessor.ts)
    - [EmbeddingService], [VectorService]               (services/EmbeddingService.ts,
                                                         services/VectorService.ts)
    - [GenerationService]                               (services/GenerationService.ts)
    - the chat route and its helpers                    (routes/chat.ts)

    JavaScript strings are sequences of UTF-16 code units; they are modelled
    as [list N].  JavaScript numbers that the code only uses as array indices
    and sizes are modelled as [Z].  Promises are modelled by a state-and-error
    monad over a world that records every request sent to an external
    service and every log line, in program order. *)

From Stdlib Require Import ZArith NArith QArith List Lia String Ascii.
From stdpp Require Import base option list gmap.
Import ListNotations.

Local Open Scope Z_scope.

(* ===================================================================== *)
(** * Part I: definitions                                                 *)
(* ===================================================================== *)

(** ** JavaScript strings and arrays *)

Module JS.

Abbreviation jsstring := (list N).

(** Bytes of a Rocq string literal. *)
Fixpoint bytes_of (s : string) : list N :=
  match s with
  | EmptyString => []
  | String a r => N_of_ascii a :: bytes_of r
  end.

(** One UTF-16 code unit for a code point of the basic plane, a surrogate
    pair above it. *)
Definition units_of_code_point (cp : N) : list N :=
  if (cp <? 65536)%N then [cp]
  else [(55296 + (cp - 65536) / 1024)%N; (56320 + (cp - 65536) mod 1024)%N].

(** UTF-8 decoding of the bytes of a source literal into UTF-16 code units
    (the encoding in which the TypeScript sources are stored, and the one in
    which the engine holds their literals). *)
Fixpoint utf8_units (bs : list N) : list N :=
  match bs with
  | [] => []
  | b0 :: r0 =>
    if (b0 <? 128)%N then b0 :: utf8_units r0
    else
      match r0 with
      | [] => [65533%N]
      | b1 :: r1 =>
        if (b0 <? 224)%N then
          ((b0 mod 32) * 64 + b1 mod 64)%N :: utf8_units r1
        else
          match r1 with
          | [] => [65533%N]
          | b2 :: r2 =>
            if (b0 <? 240)%N then
              ((b0 mod 16) * 4096 + (b1 mod 64) * 64 + b2 mod 64)%N :: utf8_units r2
            else
              match r2 with
              | [] => [65533%N]
              | b3 :: r3 =>
                units_of_code_point
                  ((b0 mod 8) * 262144 + (b1 mod 64) * 4096
                   + (b2 mod 64) * 64 + b3 mod 64)%N ++ utf8_units r3
              end
          end
      end
  end.

(** The JavaScript string denoted by a source literal. *)
Definition lit (s : string) : jsstring := utf8_units (bytes_of s).

Definition char (a : ascii) : N := N_of_ascii a.

(** The double quote, for literals that contain one. *)
Definition DQUOTE : N := 34%N.

(** [s.length], [a.length] *)
Definition len {A} (l : list A) : Z := Z.of_nat (length l).

(** Relative index of [slice]: a negative index counts from the end, and
    both ends are clamped to [0, len]. *)
Definition rel_index (len k : Z) : Z :=
  if k <? 0 then Z.max (len + k) 0 else Z.min k len.

(** [l.slice(start, end)] on strings and arrays. *)
Definition slice {A} (l : list A) (start end_ : Z) : list A :=
  let from := rel_index (len l) start in
  let to := rel_index (len l) end_ in
  take (Z.to_nat (to - from)) (drop (Z.to_nat from) l).

(** [l.slice(start)] *)
Definition slice_from {A} (l : list A) (start : Z) : list A :=
  slice l start (len l).

(** Reverse scan for the code unit [c] over the indices [n, n-1, ..., 0]. *)
Fixpoint scan_back (s : jsstring) (c : N) (n : nat) : Z :=
  if decide (s !! n = Some c) then Z.of_nat n
  else match n with
       | O => -1
       | S n' => scan_back s c n'
       end.

(** [s.lastIndexOf(c, fromIndex)] for a one-unit search string [c]: the
    start position is [fromIndex] clamped to [0, len - 1]; the result is the
    greatest index at or before it that holds [c], or [-1]. *)
Definition lastIndexOf (s : jsstring) (c : N) (fromIndex : Z) : Z :=
  if len s <? 1 then -1
  else scan_back s c (Z.to_nat (Z.min (Z.max fromIndex 0) (len s - 1))).

(** WhiteSpace and LineTerminator code units of ECMAScript, the ones
    [trim] strips. *)
Definition is_white_space (c : N) : bool :=
  ((9 <=? c) && (c <=? 13) || (c =? 32) || (c =? 160) || (c =? 5760)
   || (8192 <=? c) && (c <=? 8202) || (c =? 8232) || (c =? 8233)
   || (c =? 8239) || (c =? 8287) || (c =? 12288) || (c =? 65279))%N.

Fixpoint trimStart (s : jsstring) : jsstring :=
  match s with
  | [] => []
  | c :: r => if is_white_space c then trimStart r else s
  end.

Definition trimEnd (s : jsstring) : jsstring := rev (trimStart (rev s)).

(** [s.trim()] *)
Definition trim (s : jsstring) : jsstring := trimEnd (trimStart s).

(** [s.includes(t)] *)
Fixpoint starts_with (t s : jsstring) : bool :=
  match t, s with
  | [], _ => true
  | _ :: _, [] => false
  | a :: t', b :: s' => (a =? b)%N && starts_with t' s'
  end.

Fixpoint includes (s t : jsstring) : bool :=
  starts_with t s ||
  match s with
  | [] => false
  | _ :: s' => includes s' t
  end.

End JS.

Import JS.

(** ** The chunker: DocumentProcessor.splitTextIntoChunks *)

Module Chunker.

Definition SPACE : N := char " ".
Definition NEWLINE : N := char "010".
Definition PERIOD : N := char ".".

Definition is_boundary (c : N) : bool :=
  ((c =? SPACE) || (c =? NEWLINE) || (c =? PERIOD))%N.

(** [Math.min(start + chunkSize, text.length)] *)
Definition raw_end (text : jsstring) (chunkSize start : Z) : Z :=
  Z.min (start + chunkSize) (len text).

(** [Math.max(lastSpaceIndex, lastNewlineIndex, lastPeriodIndex)] *)
Definition bestCutPoint (text : jsstring) (end_ : Z) : Z :=
  let lastSpaceIndex := lastIndexOf text SPACE end_ in
  let lastNewlineIndex := lastIndexOf text NEWLINE end_ in
  let lastPeriodIndex := lastIndexOf text PERIOD end_ in
  Z.max (Z.max lastSpaceIndex lastNewlineIndex) lastPeriodIndex.

(** The test [bestCutPoint > start + chunkSize * 0.5].  For integers the
    comparison with the half is the comparison of the doubles. *)
Definition accepts (chunkSize start cut : Z) : bool :=
  2 * start + chunkSize <? 2 * cut.

(** The value of [end] when the chunk is sliced: the raw end, moved to just
    after the best cut point when the window is not the last one and the
    cut is accepted. *)
Definition window_end (text : jsstring) (chunkSize start : Z) : Z :=
  let end_ := raw_end text chunkSize start in
  if end_ <? len text then
    let cut := bestCutPoint text end_ in
    if accepts chunkSize start cut then cut + 1 else end_
  else end_.

(** [text.slice(start, end).trim()] *)
Definition chunk_at (text : jsstring) (chunkSize start : Z) : jsstring :=
  trim (slice text start (window_end text chunkSize start)).

(** [Math.max(start + chunkSize - overlap, end)] *)
Definition next_start (text : jsstring) (chunkSize overlap start : Z) : Z :=
  Z.max (start + chunkSize - overlap) (window_end text chunkSize start).

(** [if (chunk.length > 0) chunks.push(chunk)] *)
Definition push_chunk (chunks : list jsstring) (chunk : jsstring) : list jsstring :=
  if 0 <? len chunk then chunks ++ [chunk] else chunks.

(** The [while (start < text.length)] loop.  [None] when the iteration
    budget [fuel] is used up before the loop condition fails. *)
Fixpoint split_loop (fuel : nat) (text : jsstring) (chunkSize overlap start : Z)
    (chunks : list jsstring) : option (list jsstring) :=
  if start <? len text then
    match fuel with
    | O => None
    | S fuel' =>
      split_loop fuel' text chunkSize overlap
        (next_start text chunkSize overlap start)
        (push_chunk chunks (chunk_at text chunkSize start))
    end
  else Some chunks.

Definition splitTextIntoChunks (fuel : nat) (text : jsstring) (chunkSize overlap : Z)
    : option (list jsstring) :=
  if len text <=? chunkSize then Some [text]
  else split_loop fuel text chunkSize overlap 0 [].

(** Words of a chunk, for reading results: maximal runs without a space. *)
Fixpoint words_aux (s : jsstring) (cur : jsstring) : list jsstring :=
  match s with
  | [] => match cur with [] => [] | _ => [cur] end
  | c :: r =>
    if (c =? SPACE)%N
    then match cur with [] => words_aux r [] | _ => cur :: words_aux r [] end
    else words_aux r (cur ++ [c])
  end.

Definition words (s : jsstring) : list jsstring := words_aux s [].

End Chunker.


(** ** Data carried between the services *)

Module Types.

(** [ChatMessage.role] *)
Inductive Role := system | user | assistant.

(** [metadata] of an assistant message in the session history. *)
Record MessageMetadata := {
  meta_model : jsstring;
  meta_tokens_used : Z;
  meta_sources : Z
}.

(** A message object.  The history holds messages with a timestamp (and
    metadata on assistant messages); the objects built inline for the
    generation call have only [role] and [content].  Timestamps are kept as
    milliseconds instead of their ISO text. *)
Record ChatMessage := {
  role : Role;
  content : jsstring;
  timestamp : option Z;
  metadata : option MessageMetadata
}.

(** [GenerationOptions]; an absent field is [None]. *)
Record GenerationOptions := {
  max_tokens : option Z;
  temperature : option Q;
  top_p : option Q;
  top_k : option Z;
  stop_sequences : option (list jsstring);
  model : option jsstring
}.

(** [GenerationResult] *)
Record GenerationResult := {
  gen_content : jsstring;
  gen_model : jsstring;
  gen_tokens_used : Z;
  gen_provider : jsstring;
  gen_finish_reason : jsstring;
  gen_processing_time : Z
}.

(** What a provider adapter hands back before [processing_time] is set. *)
Record ProviderAnswer := {
  ans_content : jsstring;
  ans_tokens_used : Z;
  ans_finish_reason : jsstring
}.

(** [EmbeddingResult], [EmbeddingBatch] *)
Record EmbeddingResult := {
  embedding : list Q;
  emb_model : jsstring;
  emb_tokens_used : Z
}.

Record EmbeddingBatch := {
  embeddings : list EmbeddingResult;
  total_tokens : Z;
  batch_processing_time : Z
}.

(** [DocumentChunk] of VectorService.ts *)
Record ChunkMetadata := {
  cm_source : jsstring;
  cm_page : option Z;
  cm_chunk_index : Z;
  cm_chunk_size : Z;
  cm_document_id : jsstring;
  cm_file_type : jsstring;
  cm_created_at : Z
}.

Record DocumentChunk := {
  chunk_id : jsstring;
  chunk_content : jsstring;
  chunk_metadata : ChunkMetadata
}.

(** A point sent to the index: [{ id, vector, payload: { content, ...metadata } }]. *)
Record Point := {
  point_id : jsstring;
  point_vector : list Q;
  point_content : jsstring;
  point_metadata : ChunkMetadata
}.

(** Parameters of an index search. *)
Record SearchParams := {
  sp_vector : list Q;
  sp_limit : Z;
  sp_score_threshold : Q;
  sp_with_payload : bool;
  sp_filter : option jsstring
}.

(** A hit returned by the index; of the payload the fields the code reads. *)
Record HitPayload := {
  hp_content : option jsstring;
  hp_source : option jsstring;
  hp_page : option Z
}.

Record Hit := {
  hit_id : jsstring;
  hit_score : Q;
  hit_payload : option HitPayload
}.

(** [SearchOptions], [SearchResult] of VectorService.ts *)
Record SearchOptions := {
  so_limit : option Z;
  so_threshold : option Q;
  so_filter : option jsstring
}.

Record SearchResult := {
  sr_id : jsstring;
  sr_content : jsstring;
  sr_score : Q;
  sr_source : jsstring;
  sr_page : option Z;
  sr_chunk_id : jsstring
}.

(** A source as the chat route returns it. *)
Record Source := {
  src_content : jsstring;
  src_source : jsstring;
  src_page : Z;
  src_chunk_id : jsstring;
  src_score : Q
}.

(** [ConversationSession] *)
Record ConversationSession := {
  session_id : jsstring;
  created_at : Z;
  last_activity : Z;
  message_count : Z;
  history : list ChatMessage
}.

(** [ChatRequest], [ChatResponse] *)
Record ChatRequest := {
  req_message : option jsstring;
  req_session_id : option jsstring;
  req_max_tokens : option Z;
  req_temperature : option Q
}.

Record ChatResponse := {
  answer : jsstring;
  resp_session_id : jsstring;
  sources : list Source;
  tokens_used : Z;
  processing_time : Z;
  model_used : jsstring
}.

(** What the handler sends: [res.success(data)] or
    [res.error(message, code, statusCode)]. *)
Inductive HttpResponse :=
| Success (data : ChatResponse)
| Failure (message code : jsstring) (statusCode : Z).

(** [a || b] on numbers and strings: the left operand unless it is absent
    or falsy (zero, the empty string). *)
Definition orZ (o : option Z) (d : Z) : Z :=
  match o with
  | Some v => if v =? 0 then d else v
  | None => d
  end.

Definition orQ (o : option Q) (d : Q) : Q :=
  match o with
  | Some v => if Qeq_bool v 0 then d else v
  | None => d
  end.

Definition orS (o : option jsstring) (d : jsstring) : jsstring :=
  match o with
  | Some [] | None => d
  | Some v => v
  end.

End Types.

Import Types.

(** ** Errors, external services and the world *)

Module Effects.

(** A thrown [Error] with its [message]. *)
Record Error := mkError { error_message : jsstring }.

(** How an awaited call settles. *)
Inductive result (A : Type) : Type :=
| Ok (a : A)
| Err (e : Error).
Arguments Ok {A} a.
Arguments Err {A} e.

Inductive Provider := Google | OpenAI | Anthropic | Cohere.

Inductive Level := LError | LWarn | LInfo.

(** Everything the process does that is visible outside it, in order:
    requests to the embedding API, to the vector index and to the LLM
    providers, readings of the clock and of the id generator, log lines. *)
Inductive event :=
| EmbedContent (text : jsstring)
| IndexUpsert (points : list Point)
| IndexSearch (params : SearchParams)
| IndexDeleteByDocument (documentId : jsstring)
| IndexDeletePoints (ids : list jsstring)
| ProviderRequest (p : Provider) (model : jsstring)
    (messages : list ChatMessage) (options : GenerationOptions)
| ClockRead (now : Z)
| UuidDrawn (id : jsstring)
| Log (lvl : Level) (line : jsstring).

(** The external collaborators.  Each answer may depend on everything that
    happened before the request. *)
Record Env := {
  clock : list event -> Z;
  uuid : list event -> jsstring;
  embed_api : list event -> jsstring -> result (list Q);
  index_upsert : list event -> list Point -> result unit;
  index_search : list event -> SearchParams -> result (list Hit);
  index_delete_by_document : list event -> jsstring -> result Z;
  index_delete_points : list event -> list jsstring -> result Z;
  provider_api : list event -> Provider -> jsstring -> list ChatMessage
                 -> GenerationOptions -> result ProviderAnswer
}.

(** The mutable state of the process: the trace so far and the
    module-level [sessions] map of the chat route. *)
Record World := {
  trace : list event;
  sessions : gmap jsstring ConversationSession
}.

(** An async computation. *)
Definition M (A : Type) : Type := World -> result A * World.

#[global] Instance M_ret : MRet M := fun A a w => (Ok a, w).

#[global] Instance M_bind : MBind M := fun A B f m w =>
  match m w with
  | (Ok a, w') => f a w'
  | (Err e, w') => (Err e, w')
  end.

(** [throw new Error(msg)] *)
Definition throw {A} (msg : jsstring) : M A := fun w => (Err (mkError msg), w).

(** [try { body } catch (error) { handler }] *)
Definition try_catch {A} (body : M A) (handler : Error -> M A) : M A := fun w =>
  match body w with
  | (Ok a, w') => (Ok a, w')
  | (Err e, w') => handler e w'
  end.

Definition emit (e : event) : M unit := fun w =>
  (Ok tt, {| trace := trace w ++ [e]; sessions := sessions w |}).

(** Ask a collaborator: record the request, settle as the collaborator does. *)
Definition request {A} (e : event) (answer : list event -> result A) : M A := fun w =>
  (answer (trace w), {| trace := trace w ++ [e]; sessions := sessions w |}).

Definition get_sessions : M (gmap jsstring ConversationSession) := fun w =>
  (Ok (sessions w), w).

Definition put_sessions (s : gmap jsstring ConversationSession) : M unit := fun w =>
  (Ok tt, {| trace := trace w; sessions := s |}).

Section WithEnv.
Variable env : Env.

(** [Date.now()], [new Date()] *)
Definition now : M Z := fun w =>
  let t := clock env (trace w) in
  (Ok t, {| trace := trace w ++ [ClockRead t]; sessions := sessions w |}).

(** [uuidv4()] *)
Definition uuidv4 : M jsstring := fun w =>
  let u := uuid env (trace w) in
  (Ok u, {| trace := trace w ++ [UuidDrawn u]; sessions := sessions w |}).

End WithEnv.

(** The logger: [logger.info], [logger.warn], and [logger.logError], which
    logs at error level the line [context: error.message]. *)
Definition log_info (line : jsstring) : M unit := emit (Log LInfo line).
Definition log_warn (line : jsstring) : M unit := emit (Log LWarn line).
Definition logError (e : Error) (context : jsstring) : M unit :=
  emit (Log LError (context ++ lit ": " ++ error_message e)).

(** Run the computations of a list one after the other, all of them, and
    keep how each settled. *)
Fixpoint run_all {A B} (f : A -> M B) (l : list A) : World -> list (result B) * World :=
  fun w =>
  match l with
  | [] => ([], w)
  | x :: r =>
    let '(y, w1) := f x w in
    let '(ys, w2) := run_all f r w1 in
    (y :: ys, w2)
  end.

Fixpoint collect {B} (rs : list (result B)) : result (list B) :=
  match rs with
  | [] => Ok []
  | Ok b :: r => match collect r with Ok bs => Ok (b :: bs) | Err e => Err e end
  | Err e :: _ => Err e
  end.

(** [await Promise.all(l.map(f))]: every call is started, so every request
    is issued, in the order of the list; the result is the list of values
    when all fulfil and a rejection otherwise.  Two things are simpler here
    than in the engine.  The calls are run one after the other, so the
    events of a call (its log lines among them) all come before those of
    the next call, where the engine issues the requests of all calls before
    it handles an answer.  And when several calls reject, the rejection of
    least index is reported, where the engine reports the one that settles
    first (so a text refused by the validation wins over an API error of
    an earlier text).  When all calls fulfil, the values, the requests and
    their order are those of the engine. *)
Definition promise_all {A B} (f : A -> M B) (l : list A) : M (list B) := fun w =>
  let '(rs, w') := run_all f l w in (collect rs, w').

(** [for (const x of l) { body }] with an accumulator. *)
Fixpoint for_of {A S} (l : list A) (body : S -> A -> M S) (acc : S) : M S :=
  match l with
  | [] => mret acc
  | x :: r => acc' ← body acc x; for_of r body acc'
  end.

(** The batches of
    [for (let i = 0; i < l.length; i += batchSize) batches.push(l.slice(i, i + batchSize))],
    from index [i] on, in at most [fuel] iterations. *)
Fixpoint batches_from {A} (fuel : nat) (batchSize : Z) (l : list A) (i : Z) : list (list A) :=
  if i <? len l then
    match fuel with
    | O => []
    | S fuel' => slice l i (i + batchSize) :: batches_from fuel' batchSize l (i + batchSize)
    end
  else [].

(** The loop runs at most [l.length] times for a positive batch size. *)
Definition batches {A} (batchSize : Z) (l : list A) : list (list A) :=
  batches_from (length l) batchSize l 0.

End Effects.

Import Effects.

(** ** EmbeddingService *)

Module EmbeddingService.

Record t := {
  isInitialized : bool;
  genAI : bool          (* the client handle is not null *)
}.

(** [initialize]: the service is usable exactly when an API key is configured. *)
Definition initialize (api_key : option jsstring) : t :=
  match api_key with
  | Some (_ :: _) => {| isInitialized := true; genAI := true |}
  | _ => {| isInitialized := false; genAI := false |}
  end.

Definition isAvailable (svc : t) : bool := isInitialized svc && genAI svc.

Section WithEnv.
Variable env : Env.
Variable svc : t.

Definition createEmbedding (text : jsstring) : M EmbeddingResult :=
  if negb (isInitialized svc) || negb (genAI svc) then
    throw (lit "Embedding service is not initialized")
  else if len (trim text) =? 0 then
    throw (lit "Text is required for embedding")
  else if 10000 <? len text then
    throw (lit "Text too long for embedding (max: 10000 characters)")
  else
    startTime ← now env;
    try_catch
      (values ← request (EmbedContent text) (fun tr => embed_api env tr text);
       if len values =? 0 then
         throw (lit "Failed to generate embedding - empty result")
       else
         endTime ← now env;
         log_info (lit "Embedding created successfully");;
         mret {| embedding := values;
                 emb_model := lit "embedding-001";
                 emb_tokens_used := (len text + 3) / 4 |})
      (fun error =>
         endTime ← now env;
         logError error (lit "Failed to create embedding");;
         throw (lit "Embedding generation failed: " ++ error_message error)).

Definition sum_tokens (rs : list EmbeddingResult) : Z :=
  foldl (fun sum r => sum + emb_tokens_used r) 0 rs.

Definition createEmbeddingBatch (texts : list jsstring) : M EmbeddingBatch :=
  if len texts =? 0 then
    throw (lit "Texts array is required for batch embedding")
  else if 100 <? len texts then
    throw (lit "Too many texts for batch embedding (max: 100)")
  else
    startTime ← now env;
    try_catch
      (acc ← for_of (batches 5 texts)
          (fun (acc : list EmbeddingResult * Z) batch =>
             batchResults ← promise_all createEmbedding batch;
             mret (acc.1 ++ batchResults, acc.2 + sum_tokens batchResults))
          ([], 0);
       endTime ← now env;
       log_info (lit "Batch embedding completed successfully");;
       mret {| embeddings := acc.1;
               total_tokens := acc.2;
               batch_processing_time := endTime - startTime |})
      (fun error =>
         endTime ← now env;
         logError error (lit "Failed to create batch embeddings");;
         throw (lit "Batch embedding failed: " ++ error_message error)).

End WithEnv.

End EmbeddingService.

(** ** VectorService *)

Module VectorService.

Record t := {
  isInitialized : bool;
  client : bool         (* the index client is not null *)
}.

Definition isAvailable (svc : t) : bool := isInitialized svc && client svc.

Definition to_point (embs : list EmbeddingResult) (index : nat) (chunk : DocumentChunk) : Point :=
  {| point_id := chunk_id chunk;
     point_vector := match embs !! index with
                     | Some r => embedding r
                     | None => []
                     end;
     point_content := chunk_content chunk;
     point_metadata := chunk_metadata chunk |}.

Definition to_result (hit : Hit) : SearchResult :=
  {| sr_id := hit_id hit;
     sr_content := orS (hit_payload hit ≫= hp_content) [];
     sr_score := hit_score hit;
     sr_source := orS (hit_payload hit ≫= hp_source) [];
     sr_page := hit_payload hit ≫= hp_page;
     sr_chunk_id := hit_id hit |}.

Section WithEnv.
Variable env : Env.
Variable emb : EmbeddingService.t.
Variable svc : t.

(** One round of the upsert loop: embed the batch, build the points, send. *)
Definition add_batch (addedCount : Z) (batch : list DocumentChunk) : M Z :=
  let texts := map chunk_content batch in
  embeddingResult ← EmbeddingService.createEmbeddingBatch env emb texts;
  let points := imap (to_point (embeddings embeddingResult)) batch in
  request (IndexUpsert points) (fun tr => index_upsert env tr points);;
  mret (addedCount + len batch).

Definition addDocuments (chunks : list DocumentChunk) : M Z :=
  if negb (isInitialized svc) || negb (client svc) then
    throw (lit "Vector service is not initialized")
  else if len chunks =? 0 then
    throw (lit "No document chunks provided")
  else
    startTime ← now env;
    try_catch
      (addedCount ← for_of (batches 100 chunks) add_batch 0;
       endTime ← now env;
       log_info (lit "Documents added to vector database");;
       mret addedCount)
      (fun error =>
         endTime ← now env;
         logError error (lit "Failed to add documents to vector database");;
         throw (lit "Failed to add documents: " ++ error_message error)).

Definition search (query : jsstring) (options : SearchOptions) : M (list SearchResult) :=
  if negb (isInitialized svc) || negb (client svc) then
    throw (lit "Vector service is not initialized")
  else if len (trim query) =? 0 then
    throw (lit "Search query is required")
  else
    startTime ← now env;
    let limit := orZ (so_limit options) 5 in
    let threshold := orQ (so_threshold options) (7 # 10) in
    try_catch
      (queryEmbedding ← EmbeddingService.createEmbedding env emb query;
       let searchParams :=
         {| sp_vector := embedding queryEmbedding;
            sp_limit := limit;
            sp_score_threshold := threshold;
            sp_with_payload := true;
            sp_filter := so_filter options |} in
       searchResult ← request (IndexSearch searchParams)
                        (fun tr => index_search env tr searchParams);
       let results := map to_result searchResult in
       endTime ← now env;
       log_info (lit "Vector search completed");;
       mret results)
      (fun error =>
         endTime ← now env;
         logError error (lit "Vector search failed");;
         throw (lit "Vector search failed: " ++ error_message error)).

Definition deleteDocument (documentId : jsstring) : M bool :=
  if negb (isInitialized svc) || negb (client svc) then
    throw (lit "Vector service is not initialized")
  else
    try_catch
      (deleteResult ← request (IndexDeleteByDocument documentId)
                        (fun tr => index_delete_by_document env tr documentId);
       log_info (lit "Document deleted from vector database");;
       mret true)
      (fun error =>
         logError error (lit "Failed to delete document from vector database");;
         mret false).

Definition deleteChunks (chunkIds : list jsstring) : M Z :=
  if negb (isInitialized svc) || negb (client svc) then
    throw (lit "Vector service is not initialized")
  else if len chunkIds =? 0 then
    mret 0
  else
    try_catch
      (deleteResult ← request (IndexDeletePoints chunkIds)
                        (fun tr => index_delete_points env tr chunkIds);
       log_info (lit "Chunks deleted from vector database");;
       mret (len chunkIds))
      (fun error =>
         logError error (lit "Failed to delete chunks from vector database");;
         mret 0).

End WithEnv.

End VectorService.

(** ** GenerationService *)

Module GenerationService.

Record t := {
  googleAI : bool;
  openai : bool;
  anthropic : bool;
  cohere : bool;
  availableProviders : list jsstring
}.

(** The API keys of the configuration: present or not. *)
Record Keys := {
  google_key : bool;
  openai_key : bool;
  anthropic_key : bool;
  cohere_key : bool
}.

(** [initialize]: one client per configured key, and the provider names
    pushed in the fixed order google, openai, anthropic, cohere. *)
Definition initialize (k : Keys) : t :=
  {| googleAI := google_key k;
     openai := openai_key k;
     anthropic := anthropic_key k;
     cohere := cohere_key k;
     availableProviders :=
       (if google_key k then [lit "google"] else [])
       ++ (if openai_key k then [lit "openai"] else [])
       ++ (if anthropic_key k then [lit "anthropic"] else [])
       ++ (if cohere_key k then [lit "cohere"] else []) |}.

Definition getAvailableProviders (svc : t) : list jsstring := availableProviders svc.

Definition getDefaultModelForProvider (provider : jsstring) : jsstring :=
  if decide (provider = lit "google") then lit "gemini-2.0-flash-exp"
  else if decide (provider = lit "openai") then lit "gpt-4o"
  else if decide (provider = lit "anthropic") then lit "claude-3-5-haiku-20241022"
  else if decide (provider = lit "cohere") then lit "command-r-plus-08-2024"
  else lit "gemini-2.0-flash-exp".

(** [this.availableProviders[0] || 'google'] *)
Definition first_provider (svc : t) : jsstring :=
  orS (head (availableProviders svc)) (lit "google").

Definition parseModelString (svc : t) (modelString : jsstring) : jsstring * jsstring :=
  if includes modelString (lit "gpt") then (lit "openai", modelString)
  else if includes modelString (lit "claude") then (lit "anthropic", modelString)
  else if includes modelString (lit "command") then (lit "cohere", modelString)
  else if includes modelString (lit "gemini") then (lit "google", modelString)
  else (first_provider svc, getDefaultModelForProvider (first_provider svc)).

(** The provider and the model [generateResponse] selects for the model
    string of the options: the first available provider and its default
    model for ['auto'], what [parseModelString] says otherwise. *)
Definition select (svc : t) (model : jsstring) : jsstring * jsstring :=
  if decide (model = lit "auto") then
    (first_provider svc, getDefaultModelForProvider (first_provider svc))
  else parseModelString svc model.

(** The [switch (selectedProvider)] of [generateResponse]. *)
Definition provider_of (name : jsstring) : option Provider :=
  if decide (name = lit "google") then Some Google
  else if decide (name = lit "openai") then Some OpenAI
  else if decide (name = lit "anthropic") then Some Anthropic
  else if decide (name = lit "cohere") then Some Cohere
  else None.

Definition provider_name (p : Provider) : jsstring :=
  match p with
  | Google => lit "google"
  | OpenAI => lit "openai"
  | Anthropic => lit "anthropic"
  | Cohere => lit "cohere"
  end.

Definition client_of (svc : t) (p : Provider) : bool :=
  match p with
  | Google => googleAI svc
  | OpenAI => openai svc
  | Anthropic => anthropic svc
  | Cohere => cohere svc
  end.

Definition not_initialized (p : Provider) : jsstring :=
  match p with
  | Google => lit "Google AI not initialized"
  | OpenAI => lit "OpenAI not initialized"
  | Anthropic => lit "Anthropic not initialized"
  | Cohere => lit "Cohere not initialized"
  end.

Section WithEnv.
Variable env : Env.
Variable svc : t.

(** The adapters [generateWithGoogle], [generateWithOpenAI],
    [generateWithAnthropic] and [generateWithCohere]: the check of the
    client handle, the request to the provider, and the result with the
    adapter's provider name.  How each adapter writes the request in the
    provider's format and reads the answer out of the provider's response
    (including the errors it throws on a response without content) is part
    of [provider_api]. *)
Definition generateWith (p : Provider) (messages : list ChatMessage)
    (model : jsstring) (options : GenerationOptions) : M GenerationResult :=
  if negb (client_of svc p) then throw (not_initialized p)
  else
    a ← request (ProviderRequest p model messages options)
          (fun tr => provider_api env tr p model messages options);
    mret {| gen_content := ans_content a;
            gen_model := model;
            gen_tokens_used := ans_tokens_used a;
            gen_provider := provider_name p;
            gen_finish_reason := ans_finish_reason a;
            gen_processing_time := 0 |}.

Definition generateResponse (messages : list ChatMessage) (options : GenerationOptions)
    : M GenerationResult :=
  if len (availableProviders svc) =? 0 then
    throw (lit "No AI providers available")
  else
    let defaultOptions :=
      {| max_tokens := Some (orZ (max_tokens options) 1000);
         temperature := Some (orQ (temperature options) (7 # 10));
         top_p := Some (orQ (top_p options) (9 # 10));
         top_k := None;
         stop_sequences := None;
         model := Some (orS (model options) (lit "auto")) |} in
    let selected := select svc (orS (model options) (lit "auto")) in
    let selectedProvider := selected.1 in
    let selectedModel := selected.2 in
    startTime ← now env;
    try_catch
      (result ← match provider_of selectedProvider with
                | Some p => generateWith p messages selectedModel defaultOptions
                | None => throw (lit "Unsupported provider: " ++ selectedProvider)
                end;
       endTime ← now env;
       log_info (lit "Generation completed successfully");;
       mret {| gen_content := gen_content result;
               gen_model := gen_model result;
               gen_tokens_used := gen_tokens_used result;
               gen_provider := gen_provider result;
               gen_finish_reason := gen_finish_reason result;
               gen_processing_time := endTime - startTime |})
      (fun error =>
         endTime ← now env;
         logError error (lit "Generation failed");;
         throw (lit "Generation failed: " ++ error_message error)).

Definition testMessages : list ChatMessage :=
  [ {| role := user;
       content := lit "Hello, this is a health check. Please respond with "
                  ++ [DQUOTE] ++ lit "OK" ++ [DQUOTE] ++ lit ".";
       timestamp := None;
       metadata := None |} ].

(** One round of the [for (const provider of this.availableProviders)] loop. *)
Definition check_provider (healthStatus : gmap jsstring bool) (provider : jsstring)
    : M (gmap jsstring bool) :=
  try_catch
    (result ← generateResponse testMessages
                {| max_tokens := Some 10;
                   temperature := Some 0%Q;
                   top_p := None;
                   top_k := None;
                   stop_sequences := None;
                   model := Some (provider ++ lit ":auto") |};
     mret (<[provider := bool_decide (0 < len (gen_content result))]> healthStatus))
    (fun error =>
       log_warn (lit "Health check failed for " ++ provider);;
       mret (<[provider := false]> healthStatus)).

Definition healthCheck : M (gmap jsstring bool) :=
  for_of (availableProviders svc) check_provider ∅.

End WithEnv.

End GenerationService.

(** ** The chat route: routes/chat.ts *)

Module Chat.

(** The services the route imports. *)
Record Services := {
  embeddingService : EmbeddingService.t;
  vectorService : VectorService.t;
  generationService : GenerationService.t
}.

(** The object built by [prepareContext]. *)
Record Context := {
  conversation_history : list ChatMessage;
  relevant_documents : jsstring;
  search_results : list Source
}.

(** The object returned by the route's [generateResponse]. *)
Record AiResponse := {
  ai_content : jsstring;
  ai_model : jsstring;
  ai_tokens_used : Z;
  ai_provider : jsstring
}.

(** [l.join(sep)] *)
Fixpoint join (sep : jsstring) (l : list jsstring) : jsstring :=
  match l with
  | [] => []
  | [x] => x
  | x :: r => x ++ sep ++ join sep r
  end.

Definition to_source (r : SearchResult) : Source :=
  {| src_content := sr_content r;
     src_source := orS (Some (sr_source r)) (lit "unknown");
     src_page := orZ (sr_page r) 1;
     src_chunk_id := orS (Some (sr_chunk_id r)) (sr_id r);
     src_score := sr_score r |}.

Definition prepareContext (history : list ChatMessage) (searchResults : list Source) : Context :=
  {| conversation_history := slice_from history (-6);
     relevant_documents := join (lit "

") (map src_content searchResults);
     search_results := searchResults |}.

Definition systemPrompt (context : Context) : jsstring :=
  lit "당신은 도움이 되는 AI 어시스턴트입니다. 제공된 문서를 기반으로 사용자의 질문에 정확하고 유용한 답변을 제공하세요.

다음은 관련 문서 내용입니다:
" ++ orS (Some (relevant_documents context)) (lit "관련 문서를 찾을 수 없습니다.")
  ++ lit "

답변 시 다음 사항을 준수하세요:
1. 제공된 문서 내용을 기반으로 답변하세요
2. 문서에 없는 내용은 추측하지 말고 솔직히 모른다고 하세요
3. 가능한 한 구체적이고 도움이 되는 답변을 제공하세요
4. 한국어로 자연스럽게 답변하세요".

(** [{ role: 'user', content: message, timestamp }] *)
Definition user_message (message : jsstring) (stamp : Z) : ChatMessage :=
  {| role := user; content := message; timestamp := Some stamp; metadata := None |}.

(** [{ role: 'assistant', content, timestamp, metadata: { model, tokens_used, sources } }] *)
Definition assistant_message (aiResponse : AiResponse) (searchResults : list Source)
    (stamp : Z) : ChatMessage :=
  {| role := assistant;
     content := ai_content aiResponse;
     timestamp := Some stamp;
     metadata := Some {| meta_model := ai_model aiResponse;
                         meta_tokens_used := ai_tokens_used aiResponse;
                         meta_sources := len searchResults |} |}.

(** [{ role, content }], as built inline for the generation call. *)
Definition plain_message (r : Role) (text : jsstring) : ChatMessage :=
  {| role := r; content := text; timestamp := None; metadata := None |}.

(** The [messages] array that the route's [generateResponse] builds and
    hands to [generationService.generateResponse]. *)
Definition build_messages (query : jsstring) (context : Context) : list ChatMessage :=
  let recentHistory := slice_from (conversation_history context) (-6) in
  [ plain_message system (systemPrompt context) ]
  ++ recentHistory
  ++ [ plain_message user query ].

(** The options of the generation call:
    [{ max_tokens: options.max_tokens || 1000,
       temperature: options.temperature || 0.7, model: 'auto' }]. *)
Definition generation_options (opt_max_tokens : Z) (opt_temperature : Q)
    : GenerationOptions :=
  {| max_tokens := Some (orZ (Some opt_max_tokens) 1000);
     temperature := Some (orQ (Some opt_temperature) (7 # 10));
     top_p := None;
     top_k := None;
     stop_sequences := None;
     model := Some (lit "auto") |}.

Definition fallback_content : jsstring :=
  lit "죄송합니다. 현재 AI 서비스에 문제가 있어 답변을 생성할 수 없습니다. 잠시 후 다시 시도해주세요.".

Definition fallback : AiResponse :=
  {| ai_content := fallback_content;
     ai_model := lit "fallback";
     ai_tokens_used := 0;
     ai_provider := lit "system" |}.

Definition new_session (sessionId : jsstring) (created last : Z) : ConversationSession :=
  {| session_id := sessionId;
     created_at := created;
     last_activity := last;
     message_count := 0;
     history := [] |}.

(** [session.history.push(m); session.last_activity = t] *)
Definition push_message (session : ConversationSession) (m : ChatMessage) (t : Z)
    : ConversationSession :=
  {| session_id := session_id session;
     created_at := created_at session;
     last_activity := t;
     message_count := message_count session;
     history := history session ++ [m] |}.

(** [session.message_count++] *)
Definition count_message (session : ConversationSession) : ConversationSession :=
  {| session_id := session_id session;
     created_at := created_at session;
     last_activity := last_activity session;
     message_count := message_count session + 1;
     history := history session |}.

(** [if (session.history.length > 10) session.history = session.history.slice(-10)] *)
Definition limit_history (session : ConversationSession) : ConversationSession :=
  if 10 <? len (history session) then
    {| session_id := session_id session;
       created_at := created_at session;
       last_activity := last_activity session;
       message_count := message_count session;
       history := slice_from (history session) (-10) |}
  else session.

(** The session object is shared with the [sessions] map: a change made
    through the local reference is a change of the entry. *)
Definition store_session (sessionId : jsstring) (session : ConversationSession) : M unit :=
  ss ← get_sessions; put_sessions (<[sessionId := session]> ss).

Section WithEnv.
Variable env : Env.
Variable app : Services.

Definition performVectorSearch (query : jsstring) : M (list Source) :=
  try_catch
    (if negb (VectorService.isAvailable (vectorService app)) then
       log_warn (lit "Vector service not available, returning empty results");;
       mret []
     else
       searchResults ← VectorService.search env (embeddingService app) (vectorService app)
                         query {| so_limit := Some 5;
                                  so_threshold := Some (7 # 10)%Q;
                                  so_filter := None |};
       log_info (lit "Vector search completed");;
       mret (map to_source searchResults))
    (fun error =>
       logError error (lit "Vector search failed");;
       mret []).

Definition generateResponse (query : jsstring) (context : Context)
    (opt_max_tokens : Z) (opt_temperature : Q) : M AiResponse :=
  try_catch
    (if len (GenerationService.getAvailableProviders (generationService app)) =? 0 then
       throw (lit "No AI providers available")
     else
       let messages := build_messages query context in
       generationResult ← GenerationService.generateResponse env (generationService app)
                            messages
                            (generation_options opt_max_tokens opt_temperature);
       log_info (lit "AI response generated successfully");;
       mret {| ai_content := gen_content generationResult;
               ai_model := gen_model generationResult;
               ai_tokens_used := gen_tokens_used generationResult;
               ai_provider := gen_provider generationResult |})
    (fun error =>
       logError error (lit "AI response generation failed");;
       mret fallback).

(** The RAG steps of the handler, from the vector search to the response. *)
Definition run_pipeline (message sessionId : jsstring) (session : ConversationSession)
    (opt_max_tokens : Z) (opt_temperature : Q) (startTime : Z) : M HttpResponse :=
  searchResults ← performVectorSearch message;
  let context := prepareContext (history session) searchResults in
  aiResponse ← generateResponse message context opt_max_tokens opt_temperature;
  stamp ← now env;
  let assistantMessage := assistant_message aiResponse searchResults stamp in
  activity ← now env;
  let session := limit_history (push_message session assistantMessage activity) in
  store_session sessionId session;;
  endTime ← now env;
  let processingTime := endTime - startTime in
  log_info (lit "Chat response generated");;
  mret (Success {| answer := ai_content aiResponse;
                   resp_session_id := sessionId;
                   sources := searchResults;
                   tokens_used := ai_tokens_used aiResponse;
                   processing_time := processingTime;
                   model_used := ai_model aiResponse |}).

(** [const sessionId = session_id || uuidv4()] *)
Definition resolve_session_id (req : ChatRequest) : M jsstring :=
  match req_session_id req with
  | Some (c :: r) => mret (c :: r)
  | _ => uuidv4 env
  end.

(** [sessions.get(sessionId)], creating and storing the session when absent. *)
Definition get_or_create (sessionId : jsstring) : M ConversationSession :=
  ss ← get_sessions;
  match ss !! sessionId with
  | Some session => mret session
  | None =>
    created ← now env;
    last ← now env;
    let session := new_session sessionId created last in
    store_session sessionId session;;
    log_info (lit "New chat session created");;
    mret session
  end.

(** The session steps of the handler: resolve or create the session, push
    the user message, bump [last_activity] and [message_count]. *)
Definition begin_turn (req : ChatRequest) (message : jsstring)
    : M (jsstring * ConversationSession) :=
  sessionId ← resolve_session_id req;
  session ← get_or_create sessionId;
  stamp ← now env;
  let userMessage := user_message message stamp in
  activity ← now env;
  let session := count_message (push_message session userMessage activity) in
  store_session sessionId session;;
  log_info (lit "User message received");;
  mret (sessionId, session).

(** [router.post('/')] *)
Definition post_chat (req : ChatRequest) : M HttpResponse :=
  try_catch
    (let opt_max_tokens := default 1000 (req_max_tokens req) in
     let opt_temperature := default (7 # 10)%Q (req_temperature req) in
     let message := default [] (req_message req) in
     if len (trim message) =? 0 then
       mret (Failure (lit "Message is required") (lit "EMPTY_MESSAGE") 400)
     else if 4000 <? len message then
       mret (Failure (lit "Message too long (max: 4000 characters)")
                     (lit "MESSAGE_TOO_LONG") 400)
     else
       turn ← begin_turn req message;
       startTime ← now env;
       try_catch
         (run_pipeline message turn.1 turn.2 opt_max_tokens opt_temperature startTime)
         (fun aiError =>
            logError aiError (lit "AI processing failed");;
            mret (Failure
                    (lit "I apologize, but I encountered an issue processing your request. Please try again.")
                    (lit "AI_PROCESSING_ERROR") 503)))
    (fun error =>
       logError error (lit "Chat endpoint error");;
       mret (Failure (lit "Failed to process chat message") (lit "CHAT_ERROR") 500)).

(** Whether a request passes the input validation of the handler. *)
Definition valid_request (req : ChatRequest) : bool :=
  let message := default [] (req_message req) in
  negb (len (trim message) =? 0) && negb (4000 <? len message).

End WithEnv.

End Chat.

(** ** Vocabulary of the properties *)

(** The options with which the chat route searches. *)
Definition default_search : SearchOptions :=
  {| so_limit := Some 5; so_threshold := Some (7 # 10)%Q; so_filter := None |}.

(** A computation leaves the [sessions] map as it found it. *)
Definition frames {A} (m : M A) : Prop :=
  forall w, sessions (snd (m w)) = sessions w.

(** The last [n] elements of a list. *)
Definition last_n {A} (n : nat) (l : list A) : list A := drop (length l - n) l.

(** Who said what. *)
Definition spoken (m : ChatMessage) : Role * jsstring := (role m, content m).

(** What a run of the handler appends to a history: per request its
    message, then the answer that was sent. *)
Fixpoint turns (reqs : list ChatRequest) (rs : list (result HttpResponse))
    : list (Role * jsstring) :=
  match reqs, rs with
  | req :: reqs', Ok (Success resp) :: rs' =>
    (user, default [] (req_message req)) :: (assistant, answer resp) :: turns reqs' rs'
  | _, _ => []
  end.

(** The session [sid] holds the last ten of the messages [full] (and does
    not exist when none was appended yet). *)
Definition history_is (sid : jsstring) (w : World) (full : list ChatMessage) : Prop :=
  (sessions w !! sid = None /\ full = [])
  \/ (exists s, sessions w !! sid = Some s /\ history s = last_n 10 full).

(** A valid request for the session [sid]. *)
Definition addressed_to (sid : jsstring) (req : ChatRequest) : Prop :=
  Chat.valid_request req = true /\ req_session_id req = Some sid.

(** The generation fails for the route's call made in world [w]: no
    provider is available, or the orchestrator rejects. *)
Definition generation_fails (env : Env) (app : Chat.Services) (query : jsstring)
    (context : Chat.Context) (mt : Z) (temp : Q) (w : World) : Prop :=
  len (GenerationService.availableProviders (Chat.generationService app)) = 0
  \/ exists e w1,
       GenerationService.generateResponse env (Chat.generationService app)
         (Chat.build_messages query context) (Chat.generation_options mt temp) w
       = (Err e, w1).

(** The providers that were sent a request, and the message lists they
    were sent, in order. *)
Definition provider_request (e : event) : option (Provider * list ChatMessage) :=
  match e with
  | ProviderRequest p _ ms _ => Some (p, ms)
  | _ => None
  end.

Definition provider_requests (tr : list event) : list (Provider * list ChatMessage) :=
  omap provider_request tr.

Definition requested_providers (tr : list event) : list Provider :=
  map fst (provider_requests tr).

Definition provider_messages (tr : list event) : list (list ChatMessage) :=
  map snd (provider_requests tr).

(** The provider a call of [GenerationService.generateResponse] with the
    model string [model] sends its request to, if it sends one: none when no
    provider is available, when the selected name is not a provider, or
    when the selected provider has no client. *)
Definition probed (svc : GenerationService.t) (model : jsstring) : list Provider :=
  if len (GenerationService.availableProviders svc) =? 0 then []
  else match GenerationService.provider_of (GenerationService.select svc model).1 with
       | Some p => if GenerationService.client_of svc p then [p] else []
       | None => []
       end.

(** The entry of a provider in the record [healthCheck] resolves to. *)
Definition health_of (r : result (gmap jsstring bool)) (provider : jsstring) : option bool :=
  match r with
  | Ok status => status !! provider
  | Err _ => None
  end.

(** The world after an event, after a line was logged, and after the
    clock was read. *)
Definition after (w : World) (e : event) : World :=
  {| trace := trace w ++ [e]; sessions := sessions w |}.

Definition logged (w : World) (lvl : Level) (line : jsstring) : World :=
  after w (Log lvl line).

Definition ticked (env : Env) (w : World) : World :=
  after w (ClockRead (clock env (trace w))).

(** *** Set-ups for the examples *)

(** A collaborator set for examples: the clock stands still, every
    embedding request, index request and provider request is refused with
    the error [down]. *)
Definition down : Error := mkError (lit "ECONNREFUSED").

Definition env_down : Env :=
  {| clock := fun _ => 0;
     uuid := fun _ => lit "00000000-0000-4000-8000-000000000000";
     embed_api := fun _ _ => Err down;
     index_upsert := fun _ _ => Err down;
     index_search := fun _ _ => Err down;
     index_delete_by_document := fun _ _ => Err down;
     index_delete_points := fun _ _ => Err down;
     provider_api := fun _ _ _ _ _ => Err down |}.

(** The same with a working embedding API (a vector of one coordinate). *)
Definition env_index_down : Env :=
  {| clock := fun _ => 0;
     uuid := fun _ => lit "00000000-0000-4000-8000-000000000000";
     embed_api := fun _ _ => Ok [1%Q];
     index_upsert := fun _ _ => Err down;
     index_search := fun _ _ => Err down;
     index_delete_by_document := fun _ _ => Err down;
     index_delete_points := fun _ _ => Err down;
     provider_api := fun _ _ _ _ _ => Err down |}.

Definition ready_embedding : EmbeddingService.t :=
  {| EmbeddingService.isInitialized := true; EmbeddingService.genAI := true |}.

Definition ready_vector : VectorService.t :=
  {| VectorService.isInitialized := true; VectorService.client := true |}.

Definition world0 : World := {| trace := []; sessions := ∅ |}.

Definition sample_chunk : DocumentChunk :=
  {| chunk_id := lit "doc_x_chunk_000";
     chunk_content := lit "Project budget is 5 million dollars";
     chunk_metadata :=
       {| cm_source := lit "budget.txt"; cm_page := None; cm_chunk_index := 0;
          cm_chunk_size := 35; cm_document_id := lit "doc_x";
          cm_file_type := lit "txt"; cm_created_at := 0 |} |}.

(** Google answers every request with [OK]; the other providers, the
    embedding API and the index are down. *)
Definition ok_answer : ProviderAnswer :=
  {| ans_content := lit "OK"; ans_tokens_used := 12; ans_finish_reason := lit "stop" |}.

Definition env_google_up : Env :=
  {| clock := fun _ => 0;
     uuid := fun _ => lit "00000000-0000-4000-8000-000000000000";
     embed_api := fun _ _ => Err down;
     index_upsert := fun _ _ => Err down;
     index_search := fun _ _ => Err down;
     index_delete_by_document := fun _ _ => Err down;
     index_delete_points := fun _ _ => Err down;
     provider_api := fun _ p _ _ _ =>
       match p with
       | Google => Ok ok_answer
       | _ => Err down
       end |}.

Definition keys (g o a c : bool) : GenerationService.Keys :=
  {| GenerationService.google_key := g;
     GenerationService.openai_key := o;
     GenerationService.anthropic_key := a;
     GenerationService.cohere_key := c |}.

(** The services with the given generation keys. *)
Definition app_with (k : GenerationService.Keys) : Chat.Services :=
  {| Chat.embeddingService := ready_embedding;
     Chat.vectorService := ready_vector;
     Chat.generationService := GenerationService.initialize k |}.

(** A chat request with a message and, maybe, a session id. *)
Definition ask (text : jsstring) (sid : option jsstring) : ChatRequest :=
  {| req_message := Some text;
     req_session_id := sid;
     req_max_tokens := None;
     req_temperature := None |}.

From Stdlib Require Import DecimalN.

(** ** More vocabulary: sums and traces *)

(** The length of all chunks together. *)
Definition total_len (chunks : list jsstring) : Z :=
  foldr (fun c acc => len c + acc) 0 chunks.

(** A string is a contiguous part of another. *)
Definition part_of (c text : jsstring) : Prop :=
  exists before behind, text = before ++ c ++ behind.

(** The requests found in a trace, by collaborator, in order. *)
Definition embed_request (e : event) : option jsstring :=
  match e with
  | EmbedContent text => Some text
  | _ => None
  end.

Definition embed_requests (tr : list event) : list jsstring := omap embed_request tr.

Definition upsert_request (e : event) : option (list Point) :=
  match e with
  | IndexUpsert points => Some points
  | _ => None
  end.

Definition upserts (tr : list event) : list (list Point) := omap upsert_request tr.

Definition search_request (e : event) : option SearchParams :=
  match e with
  | IndexSearch params => Some params
  | _ => None
  end.

Definition searches (tr : list event) : list SearchParams := omap search_request tr.

Definition provider_call (e : event) : option (Provider * jsstring * GenerationOptions) :=
  match e with
  | ProviderRequest p model _ options => Some (p, model, options)
  | _ => None
  end.

Definition provider_calls (tr : list event) : list (Provider * jsstring * GenerationOptions) :=
  omap provider_call tr.

(** A computation sends none of the requests that [f] picks out. *)
Definition silent {X A} (f : event -> option X) (m : M A) : Prop :=
  forall w, omap f (trace (snd (m w))) = omap f (trace w).

(** A reading of the trace that sees requests only: no clock reading, no
    drawn id, no log line. *)
Class RequestsOnly {X} (f : event -> option X) : Prop := {
  ignores_clock : forall t, f (ClockRead t) = None;
  ignores_uuid : forall u, f (UuidDrawn u) = None;
  ignores_log : forall lvl line, f (Log lvl line) = None
}.

#[global] Instance embed_request_only : RequestsOnly embed_request.
Proof. by split. Qed.

#[global] Instance upsert_request_only : RequestsOnly upsert_request.
Proof. by split. Qed.

#[global] Instance search_request_only : RequestsOnly search_request.
Proof. by split. Qed.

#[global] Instance provider_call_only : RequestsOnly provider_call.
Proof. by split. Qed.

#[global] Instance provider_request_only : RequestsOnly provider_request.
Proof. by split. Qed.

(** A text that [createEmbedding] accepts: not blank, at most 10000 units. *)
Definition valid_text (text : jsstring) : bool :=
  negb (len (trim text) =? 0) && negb (10000 <? len text).

(** [Math.ceil(text.length / 4)] *)
Definition token_estimate (text : jsstring) : Z := (len text + 3) / 4.

(** ** DocumentProcessor: the ids of chunks *)

Module DocumentProcessor.

(** The units of a decimal numeral. *)
Fixpoint uint_units (d : Decimal.uint) : jsstring :=
  match d with
  | Decimal.Nil => []
  | Decimal.D0 d => 48%N :: uint_units d
  | Decimal.D1 d => 49%N :: uint_units d
  | Decimal.D2 d => 50%N :: uint_units d
  | Decimal.D3 d => 51%N :: uint_units d
  | Decimal.D4 d => 52%N :: uint_units d
  | Decimal.D5 d => 53%N :: uint_units d
  | Decimal.D6 d => 54%N :: uint_units d
  | Decimal.D7 d => 55%N :: uint_units d
  | Decimal.D8 d => 56%N :: uint_units d
  | Decimal.D9 d => 57%N :: uint_units d
  end.

(** [n.toString()] for an array index: its decimal digits. *)
Definition number_toString (n : N) : jsstring := uint_units (N.to_uint n).

(** [s.padStart(targetLength, pad)] for a pad of one unit. *)
Definition padStart (s : jsstring) (targetLength : Z) (pad : N) : jsstring :=
  replicate (Z.to_nat (targetLength - len s)) pad ++ s.

Definition generateChunkId (documentId : jsstring) (chunkIndex : N) : jsstring :=
  documentId ++ lit "_chunk_" ++ padStart (number_toString chunkIndex) 3 (char "0").

(** The three digits of an index below 1000. *)
Definition three_digits (i : N) : jsstring :=
  [48 + i / 100; 48 + (i / 10) mod 10; 48 + i mod 10]%N.

Section WithEnv.
Variable env : Env.
Variable vectorService : VectorService.t.

(** [deleteDocument] of the processor: the delete of the vector store
    behind a check that the store is available. *)
Definition deleteDocument (documentId : jsstring) : M bool :=
  try_catch
    (if VectorService.isAvailable vectorService then
       success ← VectorService.deleteDocument env vectorService documentId;
       log_info (lit "Document deleted from processing system");;
       mret success
     else
       log_warn (lit "Vector service not available, document deletion skipped");;
       mret false)
    (fun error =>
       logError error (lit "Failed to delete document");;
       mret false).

End WithEnv.

End DocumentProcessor.

(** Whether a collaborator's answer is a fulfilment. *)
Definition fulfils {A} (r : result A) : bool :=
  match r with
  | Ok _ => true
  | Err _ => false
  end.

(** The delete requests found in a trace: by document and by point ids. *)
Definition document_delete (e : event) : option jsstring :=
  match e with
  | IndexDeleteByDocument documentId => Some documentId
  | _ => None
  end.

Definition point_delete (e : event) : option (list jsstring) :=
  match e with
  | IndexDeletePoints ids => Some ids
  | _ => None
  end.

#[global] Instance document_delete_only : RequestsOnly document_delete.
Proof. by split. Qed.

#[global] Instance point_delete_only : RequestsOnly point_delete.
Proof. by split. Qed.

Definition sample_hit : Hit :=
  {| hit_id := lit "doc_x_chunk_000";
     hit_score := (83 # 100)%Q;
     hit_payload := Some {| hp_content := Some (lit "Project budget is 5 million dollars");
                            hp_source := Some (lit "budget.txt");
                            hp_page := None |} |}.

(** A collaborator set for examples in which everything works: the
    embedding API answers with a vector of one coordinate, the index
    accepts every write and finds one hit, Google answers [OK]. *)
Definition env_up : Env :=
  {| clock := fun _ => 0;
     uuid := fun _ => lit "00000000-0000-4000-8000-000000000000";
     embed_api := fun _ _ => Ok [1%Q];
     index_upsert := fun _ _ => Ok tt;
     index_search := fun _ _ => Ok [sample_hit];
     index_delete_by_document := fun _ _ => Ok 1;
     index_delete_points := fun _ _ => Ok 1;
     provider_api := fun _ p _ _ _ =>
       match p with
       | Google => Ok ok_answer
       | _ => Err down
       end |}.

(** What [createEmbedding] resolves to for a text. *)
Definition embeds (text : jsstring) (r : EmbeddingResult) : Prop :=
  emb_model r = lit "embedding-001"
  /\ emb_tokens_used r = token_estimate text
  /\ 0 < len (embedding r).

(** The point that [addDocuments] builds for a chunk: the id, the content
    and the metadata of the chunk, with a vector that is not empty. *)
Definition stores (chunk : DocumentChunk) (p : Point) : Prop :=
  point_id p = chunk_id chunk
  /\ point_content p = chunk_content chunk
  /\ point_metadata p = chunk_metadata chunk
  /\ 0 < len (point_vector p).

(** The [defaultOptions] that [GenerationService.generateResponse] builds
    from the options of its caller and hands to the adapter. *)
Definition defaultOptions (options : GenerationOptions) : GenerationOptions :=
  {| max_tokens := Some (orZ (max_tokens options) 1000);
     temperature := Some (orQ (temperature options) (7 # 10));
     top_p := Some (orQ (top_p options) (9 # 10));
     top_k := None;
     stop_sequences := None;
     model := Some (orS (model options) (lit "auto")) |}.

(** Options as an adapter may receive them: a limit, a temperature and a
    [top_p] that are all present and not zero, and nothing else. *)
Definition never_zero (o : GenerationOptions) : Prop :=
  (exists n, max_tokens o = Some n /\ n <> 0)
  /\ (exists t, temperature o = Some t /\ ~ (t == 0)%Q)
  /\ (exists p, top_p o = Some p /\ ~ (p == 0)%Q)
  /\ top_k o = None
  /\ stop_sequences o = None.

(** The first provider with a key, in the order in which [initialize]
    looks at the keys. *)
Definition first_configured (k : GenerationService.Keys) : option Provider :=
  if GenerationService.google_key k then Some Google
  else if GenerationService.openai_key k then Some OpenAI
  else if GenerationService.anthropic_key k then Some Anthropic
  else if GenerationService.cohere_key k then Some Cohere
  else None.

(** [getAvailableModels] of the generation service: the models offered
    per available provider. *)
Definition getAvailableModels (svc : GenerationService.t) : gmap jsstring (list jsstring) :=
  let includes_provider name :=
    bool_decide (name ∈ GenerationService.availableProviders svc) in
  let models : gmap jsstring (list jsstring) := ∅ in
  let models :=
    if includes_provider (lit "google") then
      <[lit "google" := [lit "gemini-2.0-flash-exp"; lit "gemini-1.5-pro-002";
                         lit "gemini-1.5-flash-002"]]> models
    else models in
  let models :=
    if includes_provider (lit "openai") then
      <[lit "openai" := [lit "gpt-4o"; lit "gpt-4o-mini"; lit "gpt-4-turbo"]]> models
    else models in
  let models :=
    if includes_provider (lit "anthropic") then
      <[lit "anthropic" := [lit "claude-3-5-sonnet-20241022";
                            lit "claude-3-5-haiku-20241022"]]> models
    else models in
  let models :=
    if includes_provider (lit "cohere") then
      <[lit "cohere" := [lit "command-r-plus-08-2024"; lit "command-r-08-2024"]]> models
    else models in
  models.

(** ** The session routes of the chat router *)

(** What a handler sends: [res.success(data)] or
    [res.error(message, code, statusCode)]. *)
Inductive Reply (A : Type) : Type :=
| Replied (data : A)
| Refused (message code : jsstring) (statusCode : Z).
Arguments Replied {A} data.
Arguments Refused {A} message code statusCode.

(** The body of the answer of [GET /history/:sessionId]. *)
Record HistoryResponse := {
  hist_session_id : jsstring;
  hist_messages : list ChatMessage;
  hist_message_count : Z;
  hist_created_at : Z;
  hist_last_activity : Z
}.

(** The body of the answer of [POST /session]. *)
Record SessionCreated := {
  new_session_id : jsstring;
  new_session_message : jsstring
}.

Module ChatSessions.

(** [router.get('/history/:sessionId')] *)
Definition get_history (sessionId : jsstring) : M (Reply HistoryResponse) :=
  try_catch
    (ss ← get_sessions;
     match ss !! sessionId with
     | None => mret (Refused (lit "Session not found") (lit "SESSION_NOT_FOUND") 404)
     | Some session =>
       mret (Replied {| hist_session_id := sessionId;
                        hist_messages := history session;
                        hist_message_count := message_count session;
                        hist_created_at := created_at session;
                        hist_last_activity := last_activity session |})
     end)
    (fun error =>
       logError error (lit "Failed to get chat history");;
       mret (Refused (lit "Failed to retrieve chat history") (lit "HISTORY_ERROR") 500)).

(** [router.delete('/session/:sessionId')] *)
Definition delete_session (sessionId : jsstring) : M (Reply jsstring) :=
  try_catch
    (ss ← get_sessions;
     if bool_decide (is_Some (ss !! sessionId)) then
       put_sessions (delete sessionId ss);;
       log_info (lit "Chat session deleted");;
       mret (Replied (lit "Session deleted successfully"))
     else
       mret (Refused (lit "Session not found") (lit "SESSION_NOT_FOUND") 404))
    (fun error =>
       logError error (lit "Failed to delete session");;
       mret (Refused (lit "Failed to delete session") (lit "DELETE_SESSION_ERROR") 500)).

Section WithEnv.
Variable env : Env.

(** [router.post('/session')] *)
Definition post_session : M (Reply SessionCreated) :=
  try_catch
    (sessionId ← uuidv4 env;
     created ← now env;
     last ← now env;
     Chat.store_session sessionId (Chat.new_session sessionId created last);;
     log_info (lit "New chat session created manually");;
     mret (Replied {| new_session_id := sessionId;
                      new_session_message := lit "New session created successfully" |}))
    (fun error =>
       logError error (lit "Failed to create new session");;
       mret (Refused (lit "Failed to create new session") (lit "SESSION_ERROR") 500)).

(** One round of the loop of [cleanupExpiredSessions]. *)
Definition cleanup_round (now_ maxAge : Z) (_ : unit)
    (entry : jsstring * ConversationSession) : M unit :=
  let lastActivity := last_activity entry.2 in
  if maxAge <? now_ - lastActivity then
    ss ← get_sessions;
    put_sessions (delete entry.1 ss);;
    log_info (lit "Expired session cleaned up")
  else mret tt.

(** [cleanupExpiredSessions], run every five minutes.  The entries are
    visited in the order of [map_to_list], not in the order in which the
    sessions were created: the order of the log lines is not the source's. *)
Definition cleanupExpiredSessions : M unit :=
  now_ ← now env;
  let maxAge := 3600000 in
  ss ← get_sessions;
  for_of (map_to_list ss) (cleanup_round now_ maxAge) tt.

End WithEnv.

End ChatSessions.

(** A session is expired at time [t]: idle for more than an hour. *)
Definition expired (t : Z) (session : ConversationSession) : Prop :=
  3600000 < t - last_activity session.

#[global] Instance expired_dec t session : Decision (expired t session).
Proof. unfold expired. apply _. Defined.

(** What a round of the cleanup at time [t] does to the store. *)
Definition sweep (t : Z) (m : gmap jsstring ConversationSession)
    (entry : jsstring * ConversationSession) : gmap jsstring ConversationSession :=
  if 3600000 <? t - last_activity entry.2 then delete entry.1 m else m.

(** ** The health route: the check of the AI services *)

Module Health.

(** [Object.values(healthStatus).some(status => status === true)] *)
Definition anyProviderHealthy (healthStatus : gmap jsstring bool) : bool :=
  bool_decide (Exists (fun entry => entry.2 = true) (map_to_list healthStatus)).

Section WithEnv.
Variable env : Env.
Variable app : Chat.Services.

(** [EmbeddingService.healthCheck]: a test embedding. *)
Definition embeddingHealthCheck : M bool :=
  try_catch
    (if negb (EmbeddingService.isAvailable (Chat.embeddingService app)) then mret false
     else
       EmbeddingService.createEmbedding env (Chat.embeddingService app)
         (lit "health check test");;
       mret true)
    (fun error =>
       log_warn (lit "Embedding service health check failed");;
       mret false).

Definition checkAIServices : M bool :=
  try_catch
    (let embeddingAvailable := EmbeddingService.isAvailable (Chat.embeddingService app) in
     let availableProviders :=
       GenerationService.getAvailableProviders (Chat.generationService app) in
     let generationAvailable := 0 <? len availableProviders in
     healthCheckPassed ←
       (if embeddingAvailable && generationAvailable then
          try_catch
            (embeddingHealthCheck;;
             healthStatus ← GenerationService.healthCheck env (Chat.generationService app);
             mret (anyProviderHealthy healthStatus))
            (fun healthError =>
               log_warn (lit "AI services health check test failed");;
               mret false)
        else mret false);
     log_info (lit "AI services health check completed");;
     mret (embeddingAvailable && generationAvailable && healthCheckPassed))
    (fun error =>
       log_warn (lit "AI services health check failed");;
       mret false).

End WithEnv.

End Health.

(** ** The upload route: deleting documents *)

Module Upload.

Inductive JobStatus := Pending | Processing | Completed | Failed.

(** [FileProcessingJob] *)
Record FileProcessingJob := {
  job_id : jsstring;
  job_filename : jsstring;
  job_status : JobStatus;
  job_progress : Z;
  job_created_at : Z;
  job_completed_at : option Z;
  job_error : option jsstring;
  job_chunks_created : option Z;
  job_document_id : option jsstring
}.

(** The [results] object of the bulk delete. *)
Record BulkResults := {
  successful : list jsstring;
  failed : list (jsstring * jsstring)       (* id, reason *)
}.

(** The module-level [processingJobs] map is passed in and out. *)
Abbreviation Jobs := (gmap jsstring FileProcessingJob).

(** [router.delete('/documents/:id')] *)
Definition delete_document (id : jsstring) (processingJobs : Jobs)
    : M (Reply jsstring * Jobs) :=
  try_catch
    (match processingJobs !! id with
     | None =>
       mret (Refused (lit "Document not found") (lit "DOCUMENT_NOT_FOUND") 404,
             processingJobs)
     | Some job =>
       let processingJobs := delete id processingJobs in
       log_info (lit "Document deleted");;
       mret (Replied (lit "Document deleted successfully"), processingJobs)
     end)
    (fun error =>
       logError error (lit "Failed to delete document");;
       mret (Refused (lit "Failed to delete document") (lit "DELETE_ERROR") 500,
             processingJobs)).

(** One round of the [for (const id of ids)] loop of the bulk delete. *)
Definition bulk_round (acc : BulkResults * Jobs) (id : jsstring) : BulkResults * Jobs :=
  let '(results, processingJobs) := acc in
  match processingJobs !! id with
  | None =>
    ({| successful := successful results;
        failed := failed results ++ [(id, lit "Document not found")] |},
     processingJobs)
  | Some job =>
    ({| successful := successful results ++ [id];
        failed := failed results |},
     delete id processingJobs)
  end.

(** [router.post('/documents/bulk-delete')]; [ids] is [None] when the body
    holds no array under [ids]. *)
Definition bulk_delete (ids : option (list jsstring)) (processingJobs : Jobs)
    : M (Reply (jsstring * BulkResults) * Jobs) :=
  try_catch
    (match ids with
     | None | Some [] =>
       mret (Refused (lit "Invalid document IDs") (lit "INVALID_IDS") 400, processingJobs)
     | Some ids =>
       if 100 <? len ids then
         mret (Refused (lit "Too many documents to delete at once (max: 100)")
                 (lit "TOO_MANY_IDS") 400,
               processingJobs)
       else
         let '(results, processingJobs) :=
           foldl bulk_round ({| successful := []; failed := [] |}, processingJobs) ids in
         log_info (lit "Bulk delete completed");;
         mret (Replied
                 (lit "Successfully deleted "
                  ++ DocumentProcessor.number_toString
                       (N.of_nat (length (successful results)))
                  ++ lit " documents",
                  results),
               processingJobs)
     end)
    (fun error =>
       logError error (lit "Bulk delete failed");;
       mret (Refused (lit "Bulk delete operation failed") (lit "BULK_DELETE_ERROR") 500,
             processingJobs)).

End Upload.

(** ** The provider adapters: how the messages are written for a provider *)

Module Adapters.

(** [formatMessagesForGoogle]: one prompt, each message behind the prefix
    of its role, joined by blank lines. *)
Definition rolePrefix (r : Role) : jsstring :=
  match r with
  | system => lit "System: "
  | user => lit "Human: "
  | assistant => lit "Assistant: "
  end.

Definition formatMessagesForGoogle (messages : list ChatMessage) : jsstring :=
  Chat.join (lit "

") (map (fun msg => rolePrefix (role msg) ++ content msg) messages).

Definition is_system (msg : ChatMessage) : bool :=
  match role msg with
  | system => true
  | _ => false
  end.

(** [generateWithAnthropic]: the [system] parameter,
    [messages.find(msg => msg.role === 'system')?.content || ''], and the
    [messages] parameter, the other messages with their role and content. *)
Definition anthropic_system (messages : list ChatMessage) : jsstring :=
  orS (content <$> head (filter (fun msg => is_system msg = true) messages)) [].

Definition anthropic_messages (messages : list ChatMessage) : list (Role * jsstring) :=
  map (fun msg => (role msg, content msg))
    (filter (fun msg => is_system msg = false) messages).

(** [generateWithCohere]: the [messages] parameter, every message that is
    not of the user under the role [ASSISTANT]. *)
Inductive CohereRole := USER | ASSISTANT.

Definition cohere_messages (messages : list ChatMessage) : list (CohereRole * jsstring) :=
  map (fun msg => (match role msg with user => USER | _ => ASSISTANT end, content msg))
    messages.

End Adapters.

(** The parameters of the one search that the chat route asks for. *)
Definition chat_search_params (p : SearchParams) : Prop :=
  sp_limit p = 5
  /\ (sp_score_threshold p == 7 # 10)%Q
  /\ sp_with_payload p = true
  /\ sp_filter p = None.

(** A computation only adds to the trace. *)
Definition grows {A} (m : M A) : Prop :=
  forall w, exists evs, trace (snd (m w)) = trace w ++ evs.

(** Whether the entry at position [i] of a bulk request finds its job: a
    job is stored under the id, and the id does not occur earlier in the
    request. *)
Definition finds_job (jobs : Upload.Jobs) (ids : list jsstring) (i : nat) (id : jsstring)
    : bool :=
  bool_decide (is_Some (jobs !! id) /\ id ∉ take i ids).

(** The entries of a bulk request that find their job, and the others
    with their reason, each in the order of the request. *)
Definition found_entries (jobs : Upload.Jobs) (ids : list jsstring) : list jsstring :=
  omap (fun o => o)
    (imap (fun i id => if finds_job jobs ids i id then Some id else None) ids).

Definition missed_entries (jobs : Upload.Jobs) (ids : list jsstring)
    : list (jsstring * jsstring) :=
  omap (fun o => o)
    (imap (fun i id => if finds_job jobs ids i id then None
                       else Some (id, lit "Document not found")) ids).

(** The requests of a search found in a trace, in order: the text sent to
    the embedding API, the parameters sent to the index. *)
Definition search_talk (e : event) : option (jsstring + SearchParams) :=
  match e with
  | EmbedContent text => Some (inl text)
  | IndexSearch params => Some (inr params)
  | _ => None
  end.

#[global] Instance search_talk_only : RequestsOnly search_talk.
Proof. by split. Qed.

(* ===================================================================== *)
(** * Part II: properties                                                 *)
(* ===================================================================== *)

(** ** Strings and arrays *)

Section JSFacts.

Lemma len_nonneg {A} (l : list A) : 0 <= len l.
Proof. unfold len. lia. Qed.

Lemma len_nil_iff {A} (l : list A) : len l = 0 <-> l = [].
Proof. unfold len. destruct l; simpl; split; intros; try done; lia. Qed.

Lemma len_app {A} (l k : list A) : len (l ++ k) = len l + len k.
Proof. unfold len. rewrite length_app. lia. Qed.

Lemma scan_back_range s c n : -1 <= scan_back s c n <= Z.of_nat n.
Proof. induction n; simpl; case_decide; lia. Qed.

Lemma scan_back_hit s c n :
  0 <= scan_back s c n -> s !! Z.to_nat (scan_back s c n) = Some c.
Proof.
  induction n; simpl; case_decide; intros; try lia; rewrite ?Nat2Z.id; auto.
Qed.

Lemma scan_back_last s c n (j : nat) :
  scan_back s c n < Z.of_nat j <= Z.of_nat n -> s !! j <> Some c.
Proof.
  induction n; simpl; case_decide; intros Hj; try lia.
  - assert (j = 0)%nat as -> by lia. done.
  - destruct (decide (j = S n)) as [-> | Hne]; [done |].
    apply IHn. lia.
Qed.

(** [lastIndexOf] returns the greatest index at or before [fromIndex] that
    holds the unit, and [-1] when there is none. *)
Lemma lastIndexOf_spec s c fromIndex :
  0 <= fromIndex < len s ->
  let r := lastIndexOf s c fromIndex in
  -1 <= r <= fromIndex
  /\ (0 <= r -> s !! Z.to_nat r = Some c)
  /\ (forall j, r < j <= fromIndex -> s !! Z.to_nat j <> Some c).
Proof.
  intros Hf r. subst r. unfold lastIndexOf.
  destruct (len s <? 1) eqn:E; [apply Z.ltb_lt in E; lia |].
  replace (Z.min (Z.max fromIndex 0) (len s - 1)) with fromIndex by lia.
  pose proof (scan_back_range s c (Z.to_nat fromIndex)) as Hr.
  rewrite Z2Nat.id in Hr by lia.
  split; [lia |]. split.
  - apply scan_back_hit.
  - intros j Hj. apply (scan_back_last s c (Z.to_nat fromIndex)).
    rewrite !Z2Nat.id by lia. lia.
Qed.

Lemma slice_len {A} (l : list A) a b :
  0 <= a <= b -> b <= len l -> len (slice l a b) = b - a.
Proof.
  intros Ha Hb. unfold slice, rel_index.
  destruct (a <? 0) eqn:Ea; [apply Z.ltb_lt in Ea; lia |].
  destruct (b <? 0) eqn:Eb; [apply Z.ltb_lt in Eb; lia |].
  unfold len in *. rewrite length_take, length_drop. lia.
Qed.

Lemma slice_Forall {A} (P : A -> Prop) (l : list A) a b :
  Forall P l -> Forall P (slice l a b).
Proof. intros H. unfold slice. by apply Forall_take, Forall_drop. Qed.

(** [slice(-n)] keeps the last [n] elements. *)
Lemma slice_from_last {A} (l : list A) (n : nat) :
  (0 < n)%nat -> slice_from l (- Z.of_nat n) = drop (length l - n) l.
Proof.
  intros Hn. unfold slice_from, slice, rel_index.
  replace (- Z.of_nat n <? 0) with true by (symmetry; apply Z.ltb_lt; lia).
  destruct (len l <? 0) eqn:E.
  { pose proof (len_nonneg l). apply Z.ltb_lt in E. lia. }
  rewrite Z.min_id. unfold len.
  replace (Z.to_nat (Z.max (Z.of_nat (length l) + - Z.of_nat n) 0))
    with (length l - n)%nat by lia.
  rewrite take_ge; [done |]. rewrite length_drop. lia.
Qed.

Lemma trimStart_Forall s : Forall (fun c => is_white_space c = true) s -> trimStart s = [].
Proof. induction 1 as [| c r Hc _ IH]; simpl; [done |]. by rewrite Hc. Qed.

Lemma trim_blank s : Forall (fun c => is_white_space c = true) s -> trim s = [].
Proof. intros H. unfold trim. by rewrite trimStart_Forall. Qed.

Lemma trimStart_app_keep s c :
  is_white_space c = false -> trimStart (s ++ [c]) <> [].
Proof.
  intros Hc. induction s as [| a s IH]; simpl.
  - by rewrite Hc.
  - destruct (is_white_space a); [done |]. discriminate.
Qed.

Lemma trim_keeps_head c r : is_white_space c = false -> trim (c :: r) <> [].
Proof.
  intros Hc. unfold trim, trimEnd. simpl trimStart at 2. rewrite Hc. simpl rev at 2.
  intros H. apply (f_equal (@rev N)) in H. rewrite rev_involutive in H. simpl in H.
  by apply (trimStart_app_keep (rev r) c).
Qed.

Lemma trimStart_nonblank s :
  Exists (fun c => is_white_space c = false) s ->
  exists c r, trimStart s = c :: r /\ is_white_space c = false.
Proof.
  induction s as [| a s IH]; intros H; [by apply Exists_nil in H |].
  simpl. destruct (is_white_space a) eqn:Ea; [| eauto].
  apply Exists_cons in H as [H | H]; [congruence | by apply IH].
Qed.

(** A string that holds a unit that is not whitespace is not trimmed away. *)
Lemma trim_nonblank s :
  Exists (fun c => is_white_space c = false) s -> trim s <> [].
Proof.
  intros H. destruct (trimStart_nonblank s H) as (c & r & E & Hc).
  unfold trim. rewrite E. fold (trim (c :: r)).
  replace (trimEnd (c :: r)) with (trim (c :: r)).
  - by apply trim_keeps_head.
  - unfold trim. simpl. by rewrite Hc.
Qed.

Lemma slice_Exists {A} (P : A -> Prop) (l : list A) (i : nat) x b :
  l !! i = Some x -> P x -> Z.of_nat i < b -> Exists P (slice l 0 b).
Proof.
  intros Hl Hx Hb. unfold slice, rel_index.
  destruct (b <? 0) eqn:Eb; [apply Z.ltb_lt in Eb; lia |].
  change (0 <? 0) with false. cbv iota.
  pose proof (len_nonneg l).
  replace (Z.min 0 (len l)) with 0 by lia.
  change (Z.to_nat 0) with 0%nat. rewrite drop_0.
  apply Exists_exists. exists x. split; [| done].
  apply list_elem_of_lookup. exists i.
  rewrite lookup_take_lt; [done |].
  apply lookup_lt_Some in Hl. unfold len. lia.
Qed.

End JSFacts.

(** ** The chunker *)

Section ChunkerFacts.
Import Chunker.

Lemma is_boundary_false c :
  c <> SPACE -> c <> NEWLINE -> c <> PERIOD -> is_boundary c = false.
Proof.
  intros H1 H2 H3. unfold is_boundary.
  apply N.eqb_neq in H1, H2, H3. by rewrite H1, H2, H3.
Qed.

(** The best cut point is the nearest boundary unit at or before [e]. *)
Lemma bestCutPoint_spec text e :
  0 <= e < len text ->
  let b := bestCutPoint text e in
  -1 <= b <= e
  /\ (0 <= b -> exists c, text !! Z.to_nat b = Some c /\ is_boundary c = true)
  /\ (forall j c, b < j <= e -> text !! Z.to_nat j = Some c -> is_boundary c = false).
Proof.
  intros He b. subst b. unfold bestCutPoint.
  destruct (lastIndexOf_spec text SPACE e He) as (R1 & H1 & L1).
  destruct (lastIndexOf_spec text NEWLINE e He) as (R2 & H2 & L2).
  destruct (lastIndexOf_spec text PERIOD e He) as (R3 & H3 & L3).
  set (r1 := lastIndexOf text SPACE e) in *.
  set (r2 := lastIndexOf text NEWLINE e) in *.
  set (r3 := lastIndexOf text PERIOD e) in *.
  split; [lia |]. split.
  - intros Hb.
    destruct (Z.max_spec (Z.max r1 r2) r3) as [[_ E] | [_ E]]; rewrite E in *.
    { exists PERIOD. split; [by apply H3 | reflexivity]. }
    destruct (Z.max_spec r1 r2) as [[_ E'] | [_ E']]; rewrite E' in *.
    { exists NEWLINE. split; [by apply H2 | reflexivity]. }
    exists SPACE. split; [by apply H1 | reflexivity].
  - intros j c Hj Hc. apply is_boundary_false; intros ->.
    + apply (L1 j); [lia | done].
    + apply (L2 j); [lia | done].
    + apply (L3 j); [lia | done].
Qed.

Lemma window_end_bounds text chunkSize start :
  0 < chunkSize -> 0 <= start < len text ->
  start < window_end text chunkSize start <= len text.
Proof.
  intros Hc Hs. unfold window_end, raw_end, accepts.
  destruct (Z.min (start + chunkSize) (len text) <? len text) eqn:E; [| lia].
  apply Z.ltb_lt in E.
  destruct (bestCutPoint_spec text (Z.min (start + chunkSize) (len text)))
    as (R & _ & _); [lia |].
  destruct (_ <? _) eqn:A; [apply Z.ltb_lt in A |]; lia.
Qed.

Lemma next_start_progress text chunkSize overlap start :
  0 < chunkSize -> 0 <= start < len text ->
  start < next_start text chunkSize overlap start.
Proof.
  intros Hc Hs. unfold next_start.
  pose proof (window_end_bounds text chunkSize start Hc Hs). lia.
Qed.

(** The loop ends within [len text - start] rounds, and whatever holds of
    [(start, chunks)] through every round holds when it ends. *)
Lemma split_loop_inv (P : Z -> list jsstring -> Prop) text chunkSize overlap :
  0 < chunkSize ->
  (forall start chunks, 0 <= start < len text -> P start chunks ->
     P (next_start text chunkSize overlap start)
       (push_chunk chunks (chunk_at text chunkSize start))) ->
  forall fuel start chunks,
    0 <= start -> len text - start <= Z.of_nat fuel -> P start chunks ->
    exists res stop,
      split_loop fuel text chunkSize overlap start chunks = Some res
      /\ len text <= stop /\ start <= stop /\ P stop res.
Proof.
  intros Hc Hstep fuel. induction fuel as [| fuel IH]; intros start chunks Hs Hf HP.
  - exists chunks, start. simpl.
    destruct (start <? len text) eqn:E; [apply Z.ltb_lt in E; lia |].
    apply Z.ltb_ge in E. auto with lia.
  - simpl. destruct (start <? len text) eqn:E.
    + apply Z.ltb_lt in E.
      pose proof (next_start_progress text chunkSize overlap start Hc (conj Hs E)) as Hp.
      destruct (IH (next_start text chunkSize overlap start)
                   (push_chunk chunks (chunk_at text chunkSize start)))
        as (res & stop & R & S1 & S2 & S3); [lia | lia | by apply Hstep |].
      exists res, stop. auto with lia.
    + apply Z.ltb_ge in E. exists chunks, start. auto with lia.
Qed.

(** More fuel than the length of the text changes nothing. *)
Lemma split_loop_fuel text chunkSize overlap :
  0 < chunkSize ->
  forall fuel fuel' start chunks res,
    (fuel <= fuel')%nat ->
    split_loop fuel text chunkSize overlap start chunks = Some res ->
    split_loop fuel' text chunkSize overlap start chunks = Some res.
Proof.
  intros Hc fuel. induction fuel as [| fuel IH]; intros fuel' start chunks res Hle; simpl.
  - destruct (start <? len text) eqn:E; [done |]. intros <-.
    destruct fuel'; simpl; by rewrite E.
  - destruct (start <? len text) eqn:E.
    + destruct fuel' as [| fuel']; [lia |]. simpl. rewrite E. apply IH. lia.
    + intros <-. destruct fuel'; simpl; by rewrite E.
Qed.

Lemma push_chunk_nonempty chunks chunk :
  Forall (fun c => 0 < len c) chunks -> Forall (fun c => 0 < len c) (push_chunk chunks chunk).
Proof.
  intros H. unfold push_chunk. destruct (0 <? len chunk) eqn:E; [| done].
  apply Z.ltb_lt in E. apply Forall_app. split; [done |]. by constructor.
Qed.

Lemma push_chunk_grows chunks chunk :
  chunks <> [] \/ 0 < len chunk -> push_chunk chunks chunk <> [].
Proof.
  unfold push_chunk. intros [H | H].
  - destruct (0 <? len chunk); [| done]. by destruct chunks.
  - replace (0 <? len chunk) with true by (symmetry; by apply Z.ltb_lt).
    by destruct chunks.
Qed.

Lemma chunk_at_blank text chunkSize start :
  Forall (fun c => is_white_space c = true) text -> chunk_at text chunkSize start = [].
Proof. intros H. unfold chunk_at. by apply trim_blank, slice_Forall. Qed.

(** The first window of a text longer than [chunkSize] reaches beyond
    the middle of the window. *)
Lemma first_window_end text chunkSize :
  0 < chunkSize -> chunkSize < len text ->
  chunkSize < 2 * window_end text chunkSize 0.
Proof.
  intros Hc Hl. unfold window_end, raw_end, accepts.
  replace (Z.min (0 + chunkSize) (len text)) with chunkSize by lia.
  replace (chunkSize <? len text) with true by (symmetry; by apply Z.ltb_lt).
  destruct (_ <? _) eqn:A; [apply Z.ltb_lt in A |]; lia.
Qed.

Lemma chunk_at_first text chunkSize (i : nat) c :
  0 < chunkSize -> chunkSize < len text ->
  2 * Z.of_nat i <= chunkSize -> text !! i = Some c -> is_white_space c = false ->
  0 < len (chunk_at text chunkSize 0).
Proof.
  intros Hc Hl Hi Ht Hw. unfold chunk_at.
  pose proof (first_window_end text chunkSize Hc Hl) as Hb.
  assert (trim (slice text 0 (window_end text chunkSize 0)) <> []) as Hn.
  { apply trim_nonblank. apply (slice_Exists _ text i c); [done | done | lia]. }
  pose proof (len_nonneg (trim (slice text 0 (window_end text chunkSize 0)))).
  destruct (decide (len (trim (slice text 0 (window_end text chunkSize 0))) = 0))
    as [E | E]; [| lia].
  by apply len_nil_iff in E.
Qed.

End ChunkerFacts.

Section ChunkerClaims.
Import Chunker.

(** C7.  For a non-empty text and [0 <= overlap < chunkSize], a round of the
    chunking loop at [start] continues at
    [max (start + chunkSize - overlap) end], which is strictly greater than
    [start]; so the loop ends: [text.length] rounds always suffice, and
    more rounds give the same chunks. *)
Theorem split_loop_progress (text : jsstring) (chunkSize overlap : Z) :
  0 < len text -> 0 <= overlap < chunkSize ->
  (forall start, 0 <= start < len text ->
     next_start text chunkSize overlap start
       = Z.max (start + chunkSize - overlap) (window_end text chunkSize start)
     /\ start < next_start text chunkSize overlap start
     /\ forall fuel chunks,
          split_loop (S fuel) text chunkSize overlap start chunks
          = split_loop fuel text chunkSize overlap
              (next_start text chunkSize overlap start)
              (push_chunk chunks (chunk_at text chunkSize start)))
  /\ exists chunks,
       splitTextIntoChunks (length text) text chunkSize overlap = Some chunks
       /\ forall fuel, (length text <= fuel)%nat ->
            splitTextIntoChunks fuel text chunkSize overlap = Some chunks.
Proof.
  intros Ht Ho. assert (0 < chunkSize) as Hc by lia. split.
  - intros start Hs. split; [reflexivity |]. split.
    + by apply next_start_progress.
    + intros fuel chunks. simpl.
      replace (start <? len text) with true by (symmetry; apply Z.ltb_lt; lia).
      reflexivity.
  - unfold splitTextIntoChunks. destruct (len text <=? chunkSize); [by eauto |].
    destruct (split_loop_inv (fun _ _ => True) text chunkSize overlap Hc
                (fun _ _ _ _ => I) (length text) 0 [])
      as (res & _ & R & _); [lia | unfold len; lia | done |].
    exists res. split; [done |]. intros fuel Hf.
    by apply (split_loop_fuel text chunkSize overlap Hc (length text)).
Qed.

Lemma split_loop_progress_witness :
  let text := lit "aaaa bbbb cccc dddd" in
  0 < len text /\ 0 <= 3 < 10
  /\ exists chunks,
       splitTextIntoChunks (length text) text 10 3 = Some chunks
       /\ forall fuel, (length text <= fuel)%nat ->
            splitTextIntoChunks fuel text 10 3 = Some chunks.
Proof.
  split; [reflexivity |]. split; [lia |].
  apply (split_loop_progress (lit "aaaa bbbb cccc dddd") 10 3); [reflexivity | lia].
Defined.

(** C2, as stated, fails: a text of three spaces is not empty, and with
    [chunkSize = 2], [overlap = 0] the loop trims its only window to the
    empty string and returns no chunk at all, whatever the iteration
    budget. *)
Lemma split_blank_text_no_chunk :
  let text := lit "   " in
  0 < len text /\ 0 <= 0 < 2
  /\ splitTextIntoChunks (length text) text 2 0 = Some []
  /\ ~ (exists fuel chunks,
          splitTextIntoChunks fuel text 2 0 = Some chunks
          /\ exists c, c ∈ chunks /\ 0 < len c).
Proof.
  split; [reflexivity |]. split; [lia |]. split; [reflexivity |].
  intros (fuel & chunks & H & c & Hin & _).
  destruct fuel as [| fuel]; [discriminate |].
  assert (chunks = []) as ->.
  { destruct fuel; vm_compute in H; congruence. }
  by apply elem_of_nil in Hin.
Qed.

(** C2, amended.  For a non-empty text and [0 <= overlap < chunkSize] the
    function terminates and every chunk it returns is non-empty.  It
    returns the text itself when the text is no longer than [chunkSize],
    at least one chunk when a unit that is not whitespace occurs in the
    first half of the first window (at an index [i] with
    [2 * i <= chunkSize]), and no chunk when the text is longer than
    [chunkSize] and all whitespace. *)
Theorem split_total (text : jsstring) (chunkSize overlap : Z) :
  0 < len text -> 0 <= overlap < chunkSize ->
  exists chunks,
    splitTextIntoChunks (length text) text chunkSize overlap = Some chunks
    /\ Forall (fun c => 0 < len c) chunks
    /\ (len text <= chunkSize -> chunks = [text])
    /\ ((exists (i : nat) c,
           2 * Z.of_nat i <= chunkSize /\ text !! i = Some c /\ is_white_space c = false) ->
        chunks <> [])
    /\ (chunkSize < len text ->
        Forall (fun c => is_white_space c = true) text -> chunks = []).
Proof.
  intros Ht Ho. assert (0 < chunkSize) as Hc by lia.
  unfold splitTextIntoChunks. destruct (len text <=? chunkSize) eqn:E.
  - apply Z.leb_le in E. exists [text]. split; [done |]. split.
    { by repeat constructor. }
    split; [done |]. split; [done |]. lia.
  - apply Z.leb_gt in E.
    set (P := fun (start : Z) (chunks : list jsstring) =>
      Forall (fun c => 0 < len c) chunks
      /\ ((exists (i : nat) c,
             2 * Z.of_nat i <= chunkSize /\ text !! i = Some c /\ is_white_space c = false) ->
          0 < start -> chunks <> [])
      /\ (Forall (fun c => is_white_space c = true) text -> chunks = [])).
    destruct (split_loop_inv P text chunkSize overlap Hc) with
      (fuel := length text) (start := 0) (chunks := @nil jsstring)
      as (res & stop & R & S1 & S2 & F & G & B).
    + intros start chunks Hs (F & G & B). split; [by apply push_chunk_nonempty |]. split.
      * intros Hh _. apply push_chunk_grows.
        destruct (decide (start = 0)) as [-> | Hne].
        { right. destruct Hh as (i & c & Hi & Hl & Hw).
          by apply (chunk_at_first text chunkSize i c). }
        left. apply G; [done | lia].
      * intros Hb. rewrite (B Hb), (chunk_at_blank _ _ _ Hb). reflexivity.
    + lia.
    + unfold len. lia.
    + split; [constructor |]. split; [intros; lia | done].
    + exists res. split; [done |]. split; [done |]. split; [lia |]. split.
      * intros Hh. apply G; [done | lia].
      * intros _. apply B.
Qed.

Lemma split_total_witness :
  let text := lit "aaaa bbbb cccc dddd" in
  0 < len text /\ 0 <= 3 < 10
  /\ exists chunks,
       splitTextIntoChunks (length text) text 10 3 = Some chunks
       /\ Forall (fun c => 0 < len c) chunks
       /\ (len text <= 10 -> chunks = [text])
       /\ ((exists (i : nat) c,
              2 * Z.of_nat i <= 10 /\ text !! i = Some c /\ is_white_space c = false) ->
           chunks <> [])
       /\ (10 < len text ->
           Forall (fun c => is_white_space c = true) text -> chunks = []).
Proof.
  split; [reflexivity |]. split; [lia |].
  apply (split_total (lit "aaaa bbbb cccc dddd") 10 3); [reflexivity | lia].
Defined.

(** A text that does hold words can lose them all: the accepted cut ends
    the first window at 7, the next window starts at 9, and the two units
    in between are never sliced. *)
Example split_skips_between_windows :
  let text := lit "       xx" ++ [9; 9; 9]%N in
  splitTextIntoChunks (length text) text 10 1 = Some [].
Proof. reflexivity. Qed.

End ChunkerClaims.

(** ** Trimming keeps a part of the string *)

Lemma trimStart_suffix s : exists a, s = a ++ trimStart s.
Proof.
  induction s as [| c r [a IH]]; simpl; [by exists [] |].
  destruct (is_white_space c).
  - exists (c :: a). simpl. by rewrite <- IH.
  - by exists [].
Qed.

Lemma trimEnd_prefix s : exists b, s = trimEnd s ++ b.
Proof.
  unfold trimEnd. destruct (trimStart_suffix (rev s)) as [a Ha].
  exists (rev a). rewrite <- rev_app_distr, <- Ha. by rewrite rev_involutive.
Qed.

Lemma trim_part_of s : part_of (trim s) s.
Proof.
  unfold trim. destruct (trimStart_suffix s) as [a Ha].
  destruct (trimEnd_prefix (trimStart s)) as [b Hb].
  exists a, b. by rewrite <- Hb.
Qed.

Lemma trim_len s : len (trim s) <= len s.
Proof.
  destruct (trim_part_of s) as (a & b & E). rewrite E at 2.
  rewrite !len_app. pose proof (len_nonneg a). pose proof (len_nonneg b). lia.
Qed.

Section BoundaryClaim.
Import Chunker.

(** C3, amended.  In a window [start, e) whose raw end [e] is not the end
    of the text, the cut point [b] is the nearest space, newline or period
    found scanning back from the index [e] itself: it lies at or before
    [e], holds one of the three units, no unit after it up to [e] is one
    of them, and it is [e] exactly when the unit at [e] is one of them.
    The cut is accepted exactly when [b] lies beyond the middle of the
    window.  The window then ends just after [b]: at most one unit past
    the raw end, and past it exactly when [b] is [e]; the slice holds
    more than half of [chunkSize] units, and the chunk is that slice
    trimmed, so it can be shorter.  Otherwise the raw end [e] stays.  On
    the text [aaaa bbbb cccc dddd] with [chunkSize = 10] and [overlap = 3]
    the chunks are [aaaa bbbb] and [cccc dddd], whose words are exactly
    the words of the text: no word is cut. *)
Theorem window_end_boundary (text : jsstring) (chunkSize start : Z) :
  0 < chunkSize -> 0 <= start ->
  raw_end text chunkSize start < len text ->
  let e := raw_end text chunkSize start in
  let b := bestCutPoint text e in
  let cut := window_end text chunkSize start in
  (-1 <= b <= e)
  /\ (0 <= b -> exists c, text !! Z.to_nat b = Some c /\ is_boundary c = true)
  /\ (forall j c, b < j <= e -> text !! Z.to_nat j = Some c -> is_boundary c = false)
  /\ (b = e <-> exists c, text !! Z.to_nat e = Some c /\ is_boundary c = true)
  /\ (accepts chunkSize start b = true <-> 2 * start + chunkSize < 2 * b)
  /\ (accepts chunkSize start b = true ->
      cut = b + 1
      /\ start < cut <= e + 1
      /\ (cut = e + 1 <-> b = e)
      /\ len (slice text start cut) = cut - start
      /\ chunkSize < 2 * len (slice text start cut))
  /\ (accepts chunkSize start b = false -> cut = e)
  /\ (chunk_at text chunkSize start = trim (slice text start cut)
      /\ len (chunk_at text chunkSize start) <= len (slice text start cut))
  /\ (let sample := lit "aaaa bbbb cccc dddd" in
      splitTextIntoChunks (length sample) sample 10 3
        = Some [lit "aaaa bbbb"; lit "cccc dddd"]
      /\ concat (map words [lit "aaaa bbbb"; lit "cccc dddd"]) = words sample).
Proof.
  intros Hc Hs He e b cut.
  assert (e = start + chunkSize) as Ee by (subst e; unfold raw_end in *; lia).
  destruct (bestCutPoint_spec text e) as (R & H & L); [lia |].
  fold b in R, H, L.
  assert (cut = if accepts chunkSize start b then b + 1 else e) as Ecut.
  { subst cut. unfold window_end. fold e.
    replace (e <? len text) with true by (symmetry; by apply Z.ltb_lt).
    reflexivity. }
  split; [done |]. split; [done |]. split; [done |].
  split.
  { split.
    - intros Hbe. rewrite <- Hbe. apply H. lia.
    - intros (c & Hc' & Hb). destruct (Z.eq_dec b e) as [Heq | Hne]; [done |].
      rewrite (L e c) in Hb; [done | lia | done]. }
  split; [unfold accepts; apply Z.ltb_lt |].
  split; [| split; [| split]].
  - intros A. rewrite A in Ecut.
    unfold accepts in A. apply Z.ltb_lt in A.
    assert (len (slice text start cut) = cut - start) as Hl
      by (apply slice_len; fold e in He; lia).
    split; [done |]. split; [lia |]. split; [lia |]. split; [done | lia].
  - intros A. by rewrite A in Ecut.
  - split; [reflexivity | apply trim_len].
  - split; reflexivity.
Qed.

Lemma window_end_boundary_witness :
  let text := lit "aaaa bbbb cccc dddd" in
  0 < 10 /\ 0 <= 0 /\ raw_end text 10 0 < len text
  /\ accepts 10 0 (bestCutPoint text (raw_end text 10 0)) = true
  /\ window_end text 10 0 = bestCutPoint text (raw_end text 10 0) + 1
  /\ 10 < 2 * len (slice text 0 (window_end text 10 0)).
Proof.
  split; [lia |]. split; [lia |]. split; [reflexivity |]. split; [reflexivity |].
  destruct (window_end_boundary (lit "aaaa bbbb cccc dddd") 10 0)
    as (_ & _ & _ & _ & _ & H & _); [lia | lia | reflexivity |].
  destruct (H eq_refl) as (H1 & _ & _ & _ & H5). split; [exact H1 | exact H5].
Defined.

(** C3, as stated, fails twice.  The cut is not always moved backward:
    when the unit at the raw end is itself a boundary, the window ends one
    unit past the raw end and the chunk is longer than [chunkSize].  And an
    accepted cut does not keep half of [chunkSize] in the chunk: the slice
    is trimmed afterwards, here from ten units to two. *)
Lemma cut_moves_forward :
  (let text := lit "abcdefghi. klmnopqrs tuv" in
   raw_end text 9 0 = 9
   /\ raw_end text 9 0 < len text
   /\ bestCutPoint text (raw_end text 9 0) = 9
   /\ window_end text 9 0 = 10
   /\ raw_end text 9 0 < window_end text 9 0
   /\ chunk_at text 9 0 = lit "abcdefghi."
   /\ 9 < len (chunk_at text 9 0))
  /\ (let text := lit "ab        cdefghij" in
      raw_end text 10 0 < len text
      /\ bestCutPoint text (raw_end text 10 0) = 9
      /\ accepts 10 0 (bestCutPoint text (raw_end text 10 0)) = true
      /\ window_end text 10 0 = 10
      /\ chunk_at text 10 0 = lit "ab"
      /\ 2 * len (chunk_at text 10 0) < 10).
Proof. repeat split; vm_compute; reflexivity. Qed.

End BoundaryClaim.

(** ** The vector store and the embedding service *)

Opaque lit.

Section SearchClaim.
Variable env : Env.

(** The search of the gateway logs and rejects whenever the embedding of
    the query is rejected. *)
Lemma search_embedding_error emb svc query options w e w1 :
  VectorService.isAvailable svc = true ->
  len (trim query) <> 0 ->
  EmbeddingService.createEmbedding env emb query (ticked env w) = (Err e, w1) ->
  VectorService.search env emb svc query options w
  = (Err (mkError (lit "Vector search failed: " ++ error_message e)),
     logged (ticked env w1) LError
       (lit "Vector search failed" ++ lit ": " ++ error_message e)).
Proof.
  intros Ha Hq He. unfold VectorService.isAvailable in Ha.
  apply andb_true_iff in Ha as [Hi Hc].
  unfold VectorService.search. rewrite Hi, Hc. simpl.
  apply Z.eqb_neq in Hq. rewrite Hq.
  unfold mbind, M_bind, try_catch at 1.
  change (now env w) with (Ok (clock env (trace w)), ticked env w).
  cbv beta iota. unfold mbind, M_bind. rewrite He. reflexivity.
Qed.

(** The same when the index refuses the search. *)
Lemma search_index_error emb svc query options w qe w1 e :
  VectorService.isAvailable svc = true ->
  len (trim query) <> 0 ->
  EmbeddingService.createEmbedding env emb query (ticked env w) = (Ok qe, w1) ->
  let searchParams :=
    {| sp_vector := embedding qe;
       sp_limit := orZ (so_limit options) 5;
       sp_score_threshold := orQ (so_threshold options) (7 # 10);
       sp_with_payload := true;
       sp_filter := so_filter options |} in
  index_search env (trace w1) searchParams = Err e ->
  VectorService.search env emb svc query options w
  = (Err (mkError (lit "Vector search failed: " ++ error_message e)),
     logged (ticked env (after w1 (IndexSearch searchParams))) LError
       (lit "Vector search failed" ++ lit ": " ++ error_message e)).
Proof.
  intros Ha Hq He searchParams Hs. unfold VectorService.isAvailable in Ha.
  apply andb_true_iff in Ha as [Hi Hc].
  unfold VectorService.search. rewrite Hi, Hc. simpl.
  apply Z.eqb_neq in Hq. rewrite Hq.
  unfold mbind, M_bind, try_catch at 1.
  change (now env w) with (Ok (clock env (trace w)), ticked env w).
  cbv beta iota. unfold mbind, M_bind. rewrite He.
  unfold request at 1. fold searchParams. rewrite Hs. reflexivity.
Qed.

(** The route's search helper never rejects. *)
Lemma performVectorSearch_ok app query w :
  exists found w', Chat.performVectorSearch env app query w = (Ok found, w').
Proof.
  unfold Chat.performVectorSearch, try_catch.
  destruct (VectorService.isAvailable (Chat.vectorService app)); simpl.
  - unfold mbind, M_bind.
    destruct (VectorService.search env _ _ query _ w) as [[rs | e] w1]; simpl; eauto.
  - eauto.
Qed.

End SearchClaim.

(** C4, as stated, fails: with the embedding API down, a search on the
    gateway settles as a rejection, not as an empty list. *)
Lemma search_rejects_on_failure :
  fst (VectorService.search env_down ready_embedding ready_vector
         (lit "What is the budget?") default_search world0)
  = Err (mkError (lit "Vector search failed: Embedding generation failed: ECONNREFUSED"))
  /\ fst (VectorService.search env_index_down ready_embedding ready_vector
            (lit "What is the budget?") default_search world0)
     = Err (mkError (lit "Vector search failed: ECONNREFUSED")).
Proof. split; vm_compute; reflexivity. Qed.

(** C4, amended.  When the embedding call or the index call of a search
    fails, [VectorService.search] logs the error and rejects with
    [Vector search failed: ...]; the chat route's [performVectorSearch]
    never rejects: it catches a rejected search, logs it at error level and
    returns the empty list, and it maps the hits of a fulfilled search. *)
Theorem search_failure_handling (env : Env) :
  (forall emb svc query options w e w1,
     VectorService.isAvailable svc = true ->
     len (trim query) <> 0 ->
     EmbeddingService.createEmbedding env emb query (ticked env w) = (Err e, w1) ->
     VectorService.search env emb svc query options w
     = (Err (mkError (lit "Vector search failed: " ++ error_message e)),
        logged (ticked env w1) LError
          (lit "Vector search failed" ++ lit ": " ++ error_message e)))
  /\ (forall emb svc query options w qe w1 e,
        VectorService.isAvailable svc = true ->
        len (trim query) <> 0 ->
        EmbeddingService.createEmbedding env emb query (ticked env w) = (Ok qe, w1) ->
        let searchParams :=
          {| sp_vector := embedding qe;
             sp_limit := orZ (so_limit options) 5;
             sp_score_threshold := orQ (so_threshold options) (7 # 10);
             sp_with_payload := true;
             sp_filter := so_filter options |} in
        index_search env (trace w1) searchParams = Err e ->
        VectorService.search env emb svc query options w
        = (Err (mkError (lit "Vector search failed: " ++ error_message e)),
           logged (ticked env (after w1 (IndexSearch searchParams))) LError
             (lit "Vector search failed" ++ lit ": " ++ error_message e)))
  /\ (forall app query w,
        exists found w', Chat.performVectorSearch env app query w = (Ok found, w'))
  /\ (forall app query w e w1,
        VectorService.isAvailable (Chat.vectorService app) = true ->
        VectorService.search env (Chat.embeddingService app) (Chat.vectorService app)
          query default_search w = (Err e, w1) ->
        Chat.performVectorSearch env app query w
        = (Ok [], logged w1 LError
                    (lit "Vector search failed" ++ lit ": " ++ error_message e)))
  /\ (forall app query w found w1,
        VectorService.isAvailable (Chat.vectorService app) = true ->
        VectorService.search env (Chat.embeddingService app) (Chat.vectorService app)
          query default_search w = (Ok found, w1) ->
        Chat.performVectorSearch env app query w
        = (Ok (map Chat.to_source found),
           logged w1 LInfo (lit "Vector search completed"))).
Proof.
  split; [apply search_embedding_error |].
  split; [apply search_index_error |].
  split; [apply performVectorSearch_ok |].
  split.
  - intros app query w e w1 Ha Hs.
    unfold Chat.performVectorSearch, try_catch. rewrite Ha. simpl.
    unfold mbind, M_bind. fold default_search. rewrite Hs. reflexivity.
  - intros app query w found w1 Ha Hs.
    unfold Chat.performVectorSearch, try_catch. rewrite Ha. simpl.
    unfold mbind, M_bind. fold default_search. rewrite Hs. reflexivity.
Qed.

(** The route on the two failing set-ups above. *)
Example performVectorSearch_degrades :
  let app := app_with (keys false false false false) in
  fst (Chat.performVectorSearch env_down app (lit "What is the budget?") world0) = Ok []
  /\ fst (Chat.performVectorSearch env_index_down app (lit "What is the budget?") world0)
     = Ok [].
Proof. split; vm_compute; reflexivity. Qed.

Section MutationClaim.
Variable env : Env.

(** A rejected round ends a [for ... of] loop with that rejection. *)
Lemma for_of_error {A S} (body : S -> A -> M S) l1 x l2 acc w acc1 w1 e w2 :
  for_of l1 body acc w = (Ok acc1, w1) ->
  body acc1 x w1 = (Err e, w2) ->
  for_of (l1 ++ x :: l2) body acc w = (Err e, w2).
Proof.
  revert acc w. induction l1 as [| y l1 IH]; intros acc w H1 H2; simpl in *.
  - injection H1 as <- <-. unfold mbind, M_bind. by rewrite H2.
  - unfold mbind, M_bind in *. destruct (body acc y w) as [[a | e'] w'].
    + by apply IH.
    + discriminate H1.
Qed.

Lemma add_batch_upsert_error emb addedCount batch w er w1 e :
  EmbeddingService.createEmbeddingBatch env emb (map chunk_content batch) w = (Ok er, w1) ->
  index_upsert env (trace w1) (imap (VectorService.to_point (embeddings er)) batch) = Err e ->
  exists w', VectorService.add_batch env emb addedCount batch w = (Err e, w').
Proof.
  intros Hb Hu. unfold VectorService.add_batch, mbind, M_bind. rewrite Hb.
  unfold request. rewrite Hu. eauto.
Qed.

Lemma addDocuments_loop_error emb svc chunks w e w1 :
  VectorService.isAvailable svc = true ->
  chunks <> [] ->
  for_of (batches 100 chunks) (VectorService.add_batch env emb) 0 (ticked env w)
    = (Err e, w1) ->
  VectorService.addDocuments env emb svc chunks w
  = (Err (mkError (lit "Failed to add documents: " ++ error_message e)),
     logged (ticked env w1) LError
       (lit "Failed to add documents to vector database" ++ lit ": " ++ error_message e)).
Proof.
  intros Ha Hne Hl. unfold VectorService.isAvailable in Ha.
  apply andb_true_iff in Ha as [Hi Hc].
  unfold VectorService.addDocuments. rewrite Hi, Hc. simpl.
  replace (len chunks =? 0) with false
    by (symmetry; apply Z.eqb_neq; by rewrite len_nil_iff).
  unfold mbind, M_bind, try_catch at 1.
  change (now env w) with (Ok (clock env (trace w)), ticked env w).
  cbv beta iota. unfold mbind, M_bind. rewrite Hl. reflexivity.
Qed.

Lemma batches_first {A} (l : list A) (x : A) (r : list A) :
  l = x :: r -> exists b bs, batches 100 l = b :: bs /\ b = slice l 0 100.
Proof.
  intros ->. unfold batches. simpl. eauto.
Qed.

Lemma addDocuments_index_down emb svc chunks w e0 :
  (forall tr points, index_upsert env tr points = Err e0) ->
  exists e w', VectorService.addDocuments env emb svc chunks w = (Err e, w').
Proof.
  intros Hdown. unfold VectorService.addDocuments.
  destruct (negb _ || negb _); [unfold throw; eauto |].
  destruct (len chunks =? 0) eqn:E0; [unfold throw; eauto |].
  destruct chunks as [| x r]; [discriminate E0 |].
  destruct (batches_first (x :: r) x r eq_refl) as (b & bs & -> & _).
  unfold mbind, M_bind, try_catch at 1.
  destruct (now env w) as [[t | e1] w0] eqn:En; [| discriminate En].
  simpl for_of. unfold mbind at 1, M_bind at 1.
  unfold VectorService.add_batch at 1, mbind at 1, M_bind at 1.
  destruct (EmbeddingService.createEmbeddingBatch env emb (map chunk_content b) w0)
    as [[er | e2] w1]; simpl.
  - unfold mbind, M_bind, request. rewrite Hdown. simpl. eauto.
  - eauto.
Qed.

Lemma deleteDocument_index_error svc documentId w e :
  VectorService.isAvailable svc = true ->
  index_delete_by_document env (trace w) documentId = Err e ->
  VectorService.deleteDocument env svc documentId w
  = (Ok false,
     logged (after w (IndexDeleteByDocument documentId)) LError
       (lit "Failed to delete document from vector database" ++ lit ": "
        ++ error_message e)).
Proof.
  intros Ha He. unfold VectorService.isAvailable in Ha.
  apply andb_true_iff in Ha as [Hi Hc].
  unfold VectorService.deleteDocument. rewrite Hi, Hc. simpl.
  unfold try_catch, request, mbind, M_bind. rewrite He. reflexivity.
Qed.

Lemma deleteChunks_index_error svc chunkIds w e :
  VectorService.isAvailable svc = true ->
  chunkIds <> [] ->
  index_delete_points env (trace w) chunkIds = Err e ->
  VectorService.deleteChunks env svc chunkIds w
  = (Ok 0,
     logged (after w (IndexDeletePoints chunkIds)) LError
       (lit "Failed to delete chunks from vector database" ++ lit ": "
        ++ error_message e)).
Proof.
  intros Ha Hne He. unfold VectorService.isAvailable in Ha.
  apply andb_true_iff in Ha as [Hi Hc].
  unfold VectorService.deleteChunks. rewrite Hi, Hc. simpl.
  replace (len chunkIds =? 0) with false
    by (symmetry; apply Z.eqb_neq; by rewrite len_nil_iff).
  unfold try_catch, request, mbind, M_bind. rewrite He. reflexivity.
Qed.

End MutationClaim.

(** C5, as stated, fails for both delete calls: with the index down,
    [deleteDocument] fulfils with [false] and [deleteChunks] fulfils with
    [0], the value it also returns for an empty list of ids; only
    [addDocuments] rejects. *)
Lemma delete_swallows_index_error :
  index_delete_by_document env_down [] (lit "doc_x") = Err down
  /\ fst (VectorService.deleteDocument env_down ready_vector (lit "doc_x") world0) = Ok false
  /\ index_delete_points env_down [] [lit "doc_x_chunk_000"] = Err down
  /\ fst (VectorService.deleteChunks env_down ready_vector [lit "doc_x_chunk_000"] world0) = Ok 0
  /\ fst (VectorService.deleteChunks env_down ready_vector [] world0) = Ok 0.
Proof. repeat split; vm_compute; reflexivity. Qed.

(** C5, amended.  In [addDocuments] an error of the index (or of the
    embedding) in any round of the upsert loop ends the call with the
    rejection [Failed to add documents: ...], and with the index down the
    call never fulfils.  [deleteDocument] and [deleteChunks] catch an index
    error, log it and fulfil with [false] and [0].  On an available service
    they never reject, whatever the index answers: [deleteDocument] fulfils
    with [true] exactly when the index accepts, [deleteChunks] with the
    number of ids when the index accepts and with [0] otherwise (and for
    no ids).  They reject exactly when the service is not available, with
    [Vector service is not initialized] and before anything happens. *)
Theorem mutation_failure_handling (env : Env) :
  (forall emb addedCount batch w er w1 e,
     EmbeddingService.createEmbeddingBatch env emb (map chunk_content batch) w = (Ok er, w1) ->
     index_upsert env (trace w1) (imap (VectorService.to_point (embeddings er)) batch) = Err e ->
     exists w', VectorService.add_batch env emb addedCount batch w = (Err e, w'))
  /\ (forall emb svc chunks w done batch rest n w1 e w2,
        VectorService.isAvailable svc = true ->
        batches 100 chunks = done ++ batch :: rest ->
        for_of done (VectorService.add_batch env emb) 0 (ticked env w) = (Ok n, w1) ->
        VectorService.add_batch env emb n batch w1 = (Err e, w2) ->
        VectorService.addDocuments env emb svc chunks w
        = (Err (mkError (lit "Failed to add documents: " ++ error_message e)),
           logged (ticked env w2) LError
             (lit "Failed to add documents to vector database" ++ lit ": "
              ++ error_message e)))
  /\ (forall emb svc chunks w e0,
        (forall tr points, index_upsert env tr points = Err e0) ->
        exists e w', VectorService.addDocuments env emb svc chunks w = (Err e, w'))
  /\ (forall svc documentId w e,
        VectorService.isAvailable svc = true ->
        index_delete_by_document env (trace w) documentId = Err e ->
        VectorService.deleteDocument env svc documentId w
        = (Ok false,
           logged (after w (IndexDeleteByDocument documentId)) LError
             (lit "Failed to delete document from vector database" ++ lit ": "
              ++ error_message e)))
  /\ (forall svc chunkIds w e,
        VectorService.isAvailable svc = true ->
        chunkIds <> [] ->
        index_delete_points env (trace w) chunkIds = Err e ->
        VectorService.deleteChunks env svc chunkIds w
        = (Ok 0,
           logged (after w (IndexDeletePoints chunkIds)) LError
             (lit "Failed to delete chunks from vector database" ++ lit ": "
              ++ error_message e)))
  /\ (forall svc w,
        VectorService.isAvailable svc = true ->
        VectorService.deleteChunks env svc [] w = (Ok 0, w))
  /\ (forall svc documentId w,
        VectorService.isAvailable svc = true ->
        exists w',
          VectorService.deleteDocument env svc documentId w
          = (Ok (fulfils (index_delete_by_document env (trace w) documentId)), w'))
  /\ (forall svc chunkIds w,
        VectorService.isAvailable svc = true ->
        exists w',
          VectorService.deleteChunks env svc chunkIds w
          = (Ok (if fulfils (index_delete_points env (trace w) chunkIds)
                 then len chunkIds else 0), w'))
  /\ (forall svc documentId chunkIds w,
        VectorService.isAvailable svc = false ->
        VectorService.deleteDocument env svc documentId w
        = (Err (mkError (lit "Vector service is not initialized")), w)
        /\ VectorService.deleteChunks env svc chunkIds w
           = (Err (mkError (lit "Vector service is not initialized")), w))
  /\ (forall svc documentId chunkIds w,
        ((exists e w', VectorService.deleteDocument env svc documentId w = (Err e, w'))
         <-> VectorService.isAvailable svc = false)
        /\ ((exists e w', VectorService.deleteChunks env svc chunkIds w = (Err e, w'))
            <-> VectorService.isAvailable svc = false)).
Proof.
  assert (forall svc documentId w,
            VectorService.isAvailable svc = true ->
            exists w',
              VectorService.deleteDocument env svc documentId w
              = (Ok (fulfils (index_delete_by_document env (trace w) documentId)), w'))
    as Hdoc.
  { intros svc documentId w Ha. unfold VectorService.isAvailable in Ha.
    apply andb_true_iff in Ha as [Hi Hc].
    unfold VectorService.deleteDocument. rewrite Hi, Hc. cbn [negb orb].
    unfold try_catch, mbind, M_bind, request, log_info, logError, emit.
    destruct (index_delete_by_document env (trace w) documentId); simpl; eauto. }
  assert (forall svc chunkIds w,
            VectorService.isAvailable svc = true ->
            exists w',
              VectorService.deleteChunks env svc chunkIds w
              = (Ok (if fulfils (index_delete_points env (trace w) chunkIds)
                     then len chunkIds else 0), w'))
    as Hids.
  { intros svc chunkIds w Ha. unfold VectorService.isAvailable in Ha.
    apply andb_true_iff in Ha as [Hi Hc].
    unfold VectorService.deleteChunks. rewrite Hi, Hc. cbn [negb orb].
    destruct chunkIds as [| c ids].
    - exists w. by destruct (index_delete_points env (trace w) []).
    - replace (len (c :: ids) =? 0) with false
        by (symmetry; apply Z.eqb_neq; unfold len; simpl; lia).
      unfold try_catch, mbind, M_bind, request, log_info, logError, emit.
      destruct (index_delete_points env (trace w) (c :: ids)); simpl; eauto. }
  assert (forall svc documentId chunkIds w,
            VectorService.isAvailable svc = false ->
            VectorService.deleteDocument env svc documentId w
            = (Err (mkError (lit "Vector service is not initialized")), w)
            /\ VectorService.deleteChunks env svc chunkIds w
               = (Err (mkError (lit "Vector service is not initialized")), w))
    as Hdown.
  { intros svc documentId chunkIds w Ha.
    unfold VectorService.deleteDocument, VectorService.deleteChunks.
    unfold VectorService.isAvailable in Ha.
    by destruct (VectorService.isInitialized svc), (VectorService.client svc). }
  split; [apply add_batch_upsert_error |]. split.
  { intros emb svc chunks w done batch rest n w1 e w2 Ha Hb Hd He.
    apply (addDocuments_loop_error env emb svc chunks w e w2); [done | |].
    - intros ->. by destruct done.
    - rewrite Hb. by apply for_of_error with (acc1 := n) (w1 := w1). }
  split; [apply addDocuments_index_down |].
  split; [apply deleteDocument_index_error |].
  split; [apply deleteChunks_index_error |].
  split.
  { intros svc w Ha. unfold VectorService.isAvailable in Ha.
    apply andb_true_iff in Ha as [Hi Hc].
    unfold VectorService.deleteChunks. rewrite Hi, Hc. reflexivity. }
  split; [exact Hdoc |]. split; [exact Hids |]. split; [exact Hdown |].
  intros svc documentId chunkIds w.
  destruct (VectorService.isAvailable svc) eqn:Ha.
  - destruct (Hdoc svc documentId w Ha) as [w1 E1].
    destruct (Hids svc chunkIds w Ha) as [w2 E2].
    split; (split; [intros (e & w' & E); congruence | done]).
  - destruct (Hdown svc documentId chunkIds w Ha) as [E1 E2].
    split; (split; [done | intros _; eauto]).
Qed.

(** With a working embedding API and the index down, [addDocuments] rejects. *)
Example addDocuments_rejects :
  fst (VectorService.addDocuments env_index_down ready_embedding ready_vector
         [sample_chunk] world0)
  = Err (mkError (lit "Failed to add documents: ECONNREFUSED")).
Proof. vm_compute. reflexivity. Qed.

(** ** Batching *)

Section BatchClaim.

Lemma slice_len_clamp {A} (l : list A) a b :
  0 <= a <= b -> len (slice l a b) = Z.min b (len l) - Z.min a (len l).
Proof.
  intros Ha. unfold slice, rel_index.
  destruct (a <? 0) eqn:Ea; [apply Z.ltb_lt in Ea; lia |].
  destruct (b <? 0) eqn:Eb; [apply Z.ltb_lt in Eb; lia |].
  unfold len in *. rewrite length_take, length_drop. lia.
Qed.

Lemma batches_from_sizes {A} (size : Z) (l : list A) :
  0 < size ->
  forall fuel i, 0 <= i ->
    Forall (fun b => 1 <= len b <= size) (batches_from fuel size l i).
Proof.
  intros Hs fuel. induction fuel as [| fuel IH]; intros i Hi; simpl.
  - destruct (i <? len l); constructor.
  - destruct (i <? len l) eqn:E; [| constructor].
    apply Z.ltb_lt in E. constructor; [| apply IH; lia].
    rewrite slice_len_clamp by lia. lia.
Qed.

Lemma batches_from_concat {A} (size : Z) (l : list A) :
  0 < size ->
  forall fuel i, 0 <= i -> len l - i <= Z.of_nat fuel ->
    concat (batches_from fuel size l i) = drop (Z.to_nat i) l.
Proof.
  intros Hs fuel. induction fuel as [| fuel IH]; intros i Hi Hf; simpl.
  - destruct (i <? len l) eqn:E; [apply Z.ltb_lt in E; lia |].
    apply Z.ltb_ge in E. rewrite drop_ge; [done |]. unfold len in E. lia.
  - destruct (i <? len l) eqn:E.
    + apply Z.ltb_lt in E. simpl. rewrite IH by lia.
      unfold slice, rel_index.
      replace (i <? 0) with false by (symmetry; apply Z.ltb_ge; lia).
      replace (i + size <? 0) with false by (symmetry; apply Z.ltb_ge; lia).
      replace (Z.min i (len l)) with i by lia.
      destruct (decide (i + size <= len l)) as [Hin | Hout].
      * replace (Z.to_nat (Z.min (i + size) (len l) - i)) with (Z.to_nat size) by lia.
        replace (Z.to_nat (i + size)) with (Z.to_nat i + Z.to_nat size)%nat by lia.
        rewrite <- drop_drop. apply take_drop.
      * unfold len in *.
        rewrite take_ge by (rewrite length_drop; lia).
        rewrite (drop_ge l (Z.to_nat (i + size))) by lia.
        apply app_nil_r.
    + apply Z.ltb_ge in E. simpl. rewrite drop_ge; [done |]. unfold len in E. lia.
Qed.

(** The batches of the two loops are non-empty, hold at most [batchSize]
    elements, and together are the whole input, in order. *)
Lemma batches_spec {A} (size : Z) (l : list A) :
  0 < size ->
  Forall (fun b => 1 <= len b <= size) (batches size l)
  /\ concat (batches size l) = l.
Proof.
  intros Hs. unfold batches. split.
  - apply batches_from_sizes; lia.
  - rewrite batches_from_concat; [done | lia | lia | unfold len; lia].
Qed.

(** A batch of 101 texts is rejected without a request. *)
Example createEmbeddingBatch_over_cap :
  EmbeddingService.createEmbeddingBatch env_index_down ready_embedding
    (replicate 101 (lit "a")) world0
  = (Err (mkError (lit "Too many texts for batch embedding (max: 100)")), world0).
Proof. vm_compute. reflexivity. Qed.

(** 250 chunks are embedded in batches of 100, 100 and 50. *)
Example batches_250 :
  map length (batches 100 (replicate 250 sample_chunk)) = [100; 100; 50]%nat.
Proof. vm_compute. reflexivity. Qed.

End BatchClaim.

(** ** The session store is touched by the route only *)

Section Frames.

Lemma frames_ret {A} (a : A) : frames (mret a).
Proof. done. Qed.

Lemma frames_throw {A} msg : frames (@throw A msg).
Proof. done. Qed.

Lemma frames_emit e : frames (emit e).
Proof. done. Qed.

Lemma frames_request {A} e (answer : list event -> result A) : frames (request e answer).
Proof. done. Qed.

Lemma frames_now env : frames (now env).
Proof. done. Qed.

Lemma frames_bind {A B} (m : M A) (f : A -> M B) :
  frames m -> (forall a, frames (f a)) -> frames (m ≫= f).
Proof.
  intros Hm Hf w. unfold mbind, M_bind. specialize (Hm w).
  destruct (m w) as [[a | e] w1]; simpl in *; [| done].
  by rewrite Hf.
Qed.

Lemma frames_try_catch {A} (m : M A) (h : Error -> M A) :
  frames m -> (forall e, frames (h e)) -> frames (try_catch m h).
Proof.
  intros Hm Hh w. unfold try_catch. specialize (Hm w).
  destruct (m w) as [[a | e] w1]; simpl in *; [done |].
  by rewrite Hh.
Qed.

Lemma frames_for_of {A S} (l : list A) (body : S -> A -> M S) acc :
  (forall acc x, frames (body acc x)) -> frames (for_of l body acc).
Proof.
  intros Hb. revert acc. induction l as [| x l IH]; intros acc; simpl.
  - apply frames_ret.
  - apply frames_bind; [apply Hb | apply IH].
Qed.

Lemma run_all_sessions {A B} (f : A -> M B) (l : list A) w :
  (forall x, frames (f x)) -> sessions (snd (run_all f l w)) = sessions w.
Proof.
  intros Hf. revert w. induction l as [| x l IH]; intros w; simpl; [done |].
  specialize (Hf x w). destruct (f x w) as [y w1]. simpl in Hf.
  specialize (IH w1). destruct (run_all f l w1) as [ys w2]. simpl in *. congruence.
Qed.

Lemma frames_promise_all {A B} (f : A -> M B) (l : list A) :
  (forall x, frames (f x)) -> frames (promise_all f l).
Proof.
  intros Hf w. unfold promise_all. pose proof (run_all_sessions f l w Hf) as H.
  by destruct (run_all f l w).
Qed.

End Frames.

Ltac frames_step :=
  lazymatch goal with
  | |- frames (mret _) => apply frames_ret
  | |- frames (throw _) => apply frames_throw
  | |- frames (now _) => apply frames_now
  | |- frames (request _ _) => apply frames_request
  | |- frames (emit _) => apply frames_emit
  | |- frames (log_info _) => apply frames_emit
  | |- frames (log_warn _) => apply frames_emit
  | |- frames (logError _ _) => apply frames_emit
  | |- frames (_ ≫= _) => apply frames_bind; [| intros ?]
  | |- frames (try_catch _ _) => apply frames_try_catch; [| intros ?]
  | |- frames (for_of _ _ _) => apply frames_for_of; intros ? ?
  | |- frames (promise_all _ _) => apply frames_promise_all; intros ?
  | |- frames (if ?b then _ else _) => destruct b
  | |- frames (match ?x with _ => _ end) => destruct x
  end.

Section ServiceFrames.
Variable env : Env.

Lemma frames_createEmbedding svc text :
  frames (EmbeddingService.createEmbedding env svc text).
Proof. unfold EmbeddingService.createEmbedding. repeat frames_step. Qed.

Lemma frames_search emb svc query options :
  frames (VectorService.search env emb svc query options).
Proof.
  unfold VectorService.search. repeat first [apply frames_createEmbedding | frames_step].
Qed.

Lemma frames_generate svc messages options :
  frames (GenerationService.generateResponse env svc messages options).
Proof.
  unfold GenerationService.generateResponse, GenerationService.generateWith.
  repeat frames_step.
Qed.

Lemma frames_performVectorSearch app query :
  frames (Chat.performVectorSearch env app query).
Proof.
  unfold Chat.performVectorSearch. repeat first [apply frames_search | frames_step].
Qed.

Lemma frames_chat_generateResponse app query context mt temp :
  frames (Chat.generateResponse env app query context mt temp).
Proof.
  unfold Chat.generateResponse. repeat first [apply frames_generate | frames_step].
Qed.

End ServiceFrames.

(** ** The chat route *)

Section ChatFacts.
Variable env : Env.
Variable app : Chat.Services.

(** The route's [generateResponse] never rejects. *)
Lemma chat_generateResponse_ok query context mt temp w :
  exists ai w', Chat.generateResponse env app query context mt temp w = (Ok ai, w').
Proof.
  unfold Chat.generateResponse, try_catch.
  destruct (len _ =? 0); [simpl; eauto |].
  unfold mbind, M_bind.
  destruct (GenerationService.generateResponse env _ _ _ w) as [[r | e] w1]; simpl; eauto.
Qed.

(** It answers with the fallback when the generation fails. *)
Lemma chat_generateResponse_fallback query context mt temp w :
  generation_fails env app query context mt temp w ->
  exists w', Chat.generateResponse env app query context mt temp w = (Ok Chat.fallback, w').
Proof.
  intros Hf. unfold Chat.generateResponse, try_catch, GenerationService.getAvailableProviders.
  destruct (len _ =? 0) eqn:E; [simpl; eauto |].
  destruct Hf as [H0 | (e & w1 & He)]; [apply Z.eqb_neq in E; done |].
  unfold mbind, M_bind. rewrite He. simpl. eauto.
Qed.

(** The pipeline: search, generation, and the response built from them;
    the session holds the assistant message, within the cap. *)
Lemma run_pipeline_spec message sid session mt temp start w :
  exists found w1 ai w2 stamp activity pt w',
    Chat.performVectorSearch env app message w = (Ok found, w1)
    /\ Chat.generateResponse env app message
         (Chat.prepareContext (history session) found) mt temp w1 = (Ok ai, w2)
    /\ Chat.run_pipeline env app message sid session mt temp start w
       = (Ok (Success {| answer := Chat.ai_content ai;
                         resp_session_id := sid;
                         sources := found;
                         tokens_used := Chat.ai_tokens_used ai;
                         processing_time := pt;
                         model_used := Chat.ai_model ai |}), w')
    /\ sessions w'
       = <[sid := Chat.limit_history
                    (Chat.push_message session
                       (Chat.assistant_message ai found stamp) activity)]>
           (sessions w).
Proof.
  destruct (performVectorSearch_ok env app message w) as (found & w1 & E1).
  destruct (chat_generateResponse_ok message
              (Chat.prepareContext (history session) found) mt temp w1) as (ai & w2 & E2).
  pose proof (frames_performVectorSearch env app message w) as F1.
  pose proof (frames_chat_generateResponse env app message
                (Chat.prepareContext (history session) found) mt temp w1) as F2.
  rewrite E1 in F1. rewrite E2 in F2. simpl in F1, F2.
  exists found, w1, ai, w2.
  unfold Chat.run_pipeline.
  unfold mbind at 1, M_bind at 1. rewrite E1.
  unfold mbind at 1, M_bind at 1. rewrite E2.
  unfold now, Chat.store_session, get_sessions, put_sessions, log_info, emit, mbind, M_bind.
  simpl. do 4 eexists. split; [done |]. split; [done |]. split; [reflexivity |].
  simpl. rewrite F2, F1. reflexivity.
Qed.

(** The session steps: the session of the request, found or created, now
    ends with the user message. *)
Lemma begin_turn_spec req message w :
  exists sid old stamp activity w0,
    let session := Chat.count_message
                     (Chat.push_message old (Chat.user_message message stamp) activity) in
    Chat.begin_turn env req message w = (Ok (sid, session), w0)
    /\ (forall c r, req_session_id req = Some (c :: r) -> sid = c :: r)
    /\ (sessions w !! sid = Some old \/ sessions w !! sid = None /\ history old = [])
    /\ sessions w0 = <[sid := session]> (sessions w).
Proof.
  assert (exists sid w0, Chat.resolve_session_id env req w = (Ok sid, w0)
            /\ sessions w0 = sessions w
            /\ forall c r, req_session_id req = Some (c :: r) -> sid = c :: r)
    as (sid & w0 & Er & Sr & Hr).
  { unfold Chat.resolve_session_id. destruct (req_session_id req) as [[| c r] |];
      do 2 eexists; (split; [reflexivity |]); split; try done.
    intros ? ? [= <- <-]. done. }
  assert (exists old w1, Chat.get_or_create env sid w0 = (Ok old, w1)
            /\ (sessions w0 !! sid = Some old /\ sessions w1 = sessions w0
                \/ sessions w0 !! sid = None /\ history old = []
                   /\ sessions w1 = <[sid := old]> (sessions w0)))
    as (old & w1 & Eg & Hg).
  { unfold Chat.get_or_create, get_sessions, mbind, M_bind.
    destruct (sessions w0 !! sid) as [s |] eqn:El.
    - do 2 eexists. split; [reflexivity |]. left. done.
    - do 2 eexists. split; [reflexivity |]. right. done. }
  exists sid, old. unfold Chat.begin_turn.
  unfold mbind at 1, M_bind at 1. rewrite Er.
  unfold mbind at 1, M_bind at 1. rewrite Eg.
  unfold now, Chat.store_session, get_sessions, put_sessions, log_info, emit, mbind, M_bind.
  simpl. do 3 eexists. split; [reflexivity |]. split; [exact Hr |]. split.
  - rewrite <- Sr. destruct Hg as [[? ?] | (? & ? & ?)]; auto.
  - simpl. rewrite <- Sr. destruct Hg as [[Hl ->] | (Hl & _ & ->)]; [done |].
    by rewrite insert_insert_eq.
Qed.

(** A valid request runs the session steps, reads the clock, and runs the
    pipeline; neither [catch] of the handler is entered. *)
Lemma post_chat_run req w sid session w0 :
  Chat.valid_request req = true ->
  Chat.begin_turn env req (default [] (req_message req)) w = (Ok (sid, session), w0) ->
  Chat.post_chat env app req w
  = Chat.run_pipeline env app (default [] (req_message req)) sid session
      (default 1000 (req_max_tokens req)) (default (7 # 10)%Q (req_temperature req))
      (clock env (trace w0)) (ticked env w0).
Proof.
  intros Hv Eb. unfold Chat.valid_request in Hv.
  apply andb_true_iff in Hv as [H1 H2].
  apply negb_true_iff in H1, H2.
  unfold Chat.post_chat. rewrite H1, H2.
  unfold try_catch at 1. unfold mbind at 1, M_bind at 1. rewrite Eb.
  unfold mbind at 1, M_bind at 1. unfold now at 1. cbv beta iota zeta.
  unfold try_catch. simpl fst. simpl snd.
  match goal with |- context [Chat.run_pipeline ?e ?a ?m ?s ?ss ?mt ?t ?st ?ww] =>
    destruct (run_pipeline_spec m s ss mt t st ww)
      as (found & w2 & ai & w3 & st2 & act2 & pt & w' & _ & _ & Er & _)
  end.
  unfold now, ticked, after. simpl snd. rewrite Er. reflexivity.
Qed.

(** An invalid request is answered with status 400 and changes nothing. *)
Lemma post_chat_invalid req w :
  Chat.valid_request req = false ->
  exists message code,
    Chat.post_chat env app req w = (Ok (Failure message code 400), w).
Proof.
  intros Hv. unfold Chat.valid_request in Hv. unfold Chat.post_chat, try_catch.
  destruct (len (trim _) =? 0); [simpl; eauto |].
  simpl in Hv. apply negb_false_iff in Hv. rewrite Hv. simpl. eauto.
Qed.

End ChatFacts.

Section ChatClaims.
Variable env : Env.
Variable app : Chat.Services.

(** The whole of a valid invocation, call by call. *)
Lemma post_chat_chain req w :
  Chat.valid_request req = true ->
  exists sid old stamp activity w0 found wg ai wg' stamp2 activity2 pt w',
    let message := default [] (req_message req) in
    let mt := default 1000 (req_max_tokens req) in
    let temp := default (7 # 10)%Q (req_temperature req) in
    let session := Chat.count_message
                     (Chat.push_message old (Chat.user_message message stamp) activity) in
    Chat.begin_turn env req message w = (Ok (sid, session), w0)
    /\ (forall c r, req_session_id req = Some (c :: r) -> sid = c :: r)
    /\ (sessions w !! sid = Some old \/ sessions w !! sid = None /\ history old = [])
    /\ Chat.performVectorSearch env app message (ticked env w0) = (Ok found, wg)
    /\ Chat.generateResponse env app message
         (Chat.prepareContext (history session) found) mt temp wg = (Ok ai, wg')
    /\ Chat.post_chat env app req w
       = (Ok (Success {| answer := Chat.ai_content ai;
                         resp_session_id := sid;
                         sources := found;
                         tokens_used := Chat.ai_tokens_used ai;
                         processing_time := pt;
                         model_used := Chat.ai_model ai |}), w')
    /\ sessions w'
       = <[sid := Chat.limit_history
                    (Chat.push_message session
                       (Chat.assistant_message ai found stamp2) activity2)]>
           (sessions w).
Proof.
  intros Hv.
  destruct (begin_turn_spec env req (default [] (req_message req)) w)
    as (sid & old & stamp & activity & w0 & Eb & Hsid & Hold & Hs0).
  cbv zeta in Eb, Hs0.
  pose proof (post_chat_run env app req w _ _ _ Hv Eb) as Ep.
  match type of Ep with _ = Chat.run_pipeline _ _ ?m ?s ?ss ?mt ?t ?st ?ww =>
    destruct (run_pipeline_spec env app m s ss mt t st ww)
      as (found & wg & ai & wg' & stamp2 & activity2 & pt & w' & Es & Eg & Er & Hs')
  end.
  rewrite Er in Ep.
  exists sid, old, stamp, activity, w0, found, wg, ai, wg', stamp2, activity2, pt, w'.
  cbv zeta. repeat (split; [done |]).
  rewrite Hs'. simpl. rewrite Hs0. apply insert_insert_eq.
Qed.

(** C1.  The route's [generateResponse] catches a failed generation (no
    provider available, or a rejection of the orchestrator) and returns the
    fixed apology with model [fallback], provider [system] and no tokens.
    A chat request that passes the validation is always answered with
    [res.success]: the answer, the model and the token count are those of
    that call, so they are the apology, [fallback] and 0 when the
    generation fails, in particular when no provider is available. *)
Theorem chat_generation_fallback :
  (forall query context mt temp w,
     generation_fails env app query context mt temp w ->
     exists w', Chat.generateResponse env app query context mt temp w = (Ok Chat.fallback, w'))
  /\ (Chat.ai_content Chat.fallback = Chat.fallback_content
      /\ Chat.ai_model Chat.fallback = lit "fallback"
      /\ Chat.ai_provider Chat.fallback = lit "system"
      /\ Chat.ai_tokens_used Chat.fallback = 0)
  /\ (forall req w,
        Chat.valid_request req = true ->
        exists sid session w0 found wg ai wg' resp w',
          let message := default [] (req_message req) in
          let mt := default 1000 (req_max_tokens req) in
          let temp := default (7 # 10)%Q (req_temperature req) in
          let context := Chat.prepareContext (history session) found in
          Chat.begin_turn env req message w = (Ok (sid, session), w0)
          /\ Chat.performVectorSearch env app message (ticked env w0) = (Ok found, wg)
          /\ Chat.generateResponse env app message context mt temp wg = (Ok ai, wg')
          /\ Chat.post_chat env app req w = (Ok (Success resp), w')
          /\ answer resp = Chat.ai_content ai
          /\ model_used resp = Chat.ai_model ai
          /\ tokens_used resp = Chat.ai_tokens_used ai
          /\ (generation_fails env app message context mt temp wg ->
              ai = Chat.fallback
              /\ answer resp = Chat.fallback_content
              /\ model_used resp = lit "fallback"
              /\ tokens_used resp = 0))
  /\ (forall req w,
        Chat.valid_request req = true ->
        GenerationService.availableProviders (Chat.generationService app) = [] ->
        exists resp w',
          Chat.post_chat env app req w = (Ok (Success resp), w')
          /\ answer resp = Chat.fallback_content
          /\ model_used resp = lit "fallback"
          /\ tokens_used resp = 0).
Proof.
  assert (forall req w,
        Chat.valid_request req = true ->
        exists sid session w0 found wg ai wg' resp w',
          let message := default [] (req_message req) in
          let mt := default 1000 (req_max_tokens req) in
          let temp := default (7 # 10)%Q (req_temperature req) in
          let context := Chat.prepareContext (history session) found in
          Chat.begin_turn env req message w = (Ok (sid, session), w0)
          /\ Chat.performVectorSearch env app message (ticked env w0) = (Ok found, wg)
          /\ Chat.generateResponse env app message context mt temp wg = (Ok ai, wg')
          /\ Chat.post_chat env app req w = (Ok (Success resp), w')
          /\ answer resp = Chat.ai_content ai
          /\ model_used resp = Chat.ai_model ai
          /\ tokens_used resp = Chat.ai_tokens_used ai
          /\ (generation_fails env app message context mt temp wg ->
              ai = Chat.fallback
              /\ answer resp = Chat.fallback_content
              /\ model_used resp = lit "fallback"
              /\ tokens_used resp = 0)) as Hroute.
  { intros req w Hv.
    destruct (post_chat_chain req w Hv)
      as (sid & old & stamp & activity & w0 & found & wg & ai & wg' & stamp2 & activity2
          & pt & w' & Eb & _ & _ & Es & Eg & Ep & _).
    cbv zeta in *.
    eexists sid, _, w0, found, wg, ai, wg', _, w'.
    split; [exact Eb |]. split; [exact Es |]. split; [exact Eg |]. split; [exact Ep |].
    split; [done |]. split; [done |]. split; [done |].
    intros Hf. destruct (chat_generateResponse_fallback env app _ _ _ _ _ Hf) as (w3 & E3).
    rewrite Eg in E3. injection E3 as -> _. done. }
  split; [apply chat_generateResponse_fallback |].
  split; [done |].
  split; [exact Hroute |].
  intros req w Hv Hnone.
  destruct (Hroute req w Hv)
    as (sid & session & w0 & found & wg & ai & wg' & resp & w' & _ & _ & _ & Ep & _ & _ & _ & Hf).
  exists resp, w'. split; [done |].
  apply Hf. left. by rewrite Hnone.
Qed.

End ChatClaims.

(** With no provider configured and every collaborator down, the request
    is answered with the apology. *)
Example chat_without_providers :
  match fst (Chat.post_chat env_down (app_with (keys false false false false))
               (ask (lit "What is the budget?") None) world0) with
  | Ok (Success resp) =>
    answer resp = Chat.fallback_content
    /\ model_used resp = lit "fallback"
    /\ tokens_used resp = 0
    /\ sources resp = []
  | _ => False
  end.
Proof. vm_compute. repeat split. Qed.

(** The same with a provider configured whose API is down. *)
Example chat_with_provider_down :
  match fst (Chat.post_chat env_down (app_with (keys true false false false))
               (ask (lit "What is the budget?") None) world0) with
  | Ok (Success resp) =>
    answer resp = Chat.fallback_content
    /\ model_used resp = lit "fallback"
    /\ tokens_used resp = 0
  | _ => False
  end.
Proof. vm_compute. repeat split. Qed.

(** ** The history of a session *)

Section HistoryClaim.
Variable env : Env.
Variable app : Chat.Services.

Lemma last_n_length {A} n (l : list A) : (length (last_n n l) <= n)%nat.
Proof. unfold last_n. rewrite length_drop. lia. Qed.

(** Cutting to the last [n] before appending loses nothing that the last
    [n] after appending keep. *)
Lemma last_n_app {A} (n : nat) (l k : list A) :
  last_n n (last_n n l ++ k) = last_n n (l ++ k).
Proof.
  unfold last_n. rewrite !length_app, length_drop.
  destruct (decide (length l <= n)%nat) as [Hle | Hgt].
  - replace (length l - n)%nat with 0%nat by lia. rewrite drop_0.
    f_equal. lia.
  - replace (length l - (length l - n) + length k - n)%nat with (length k) by lia.
    replace (length l + length k - n)%nat with ((length l - n) + length k)%nat by lia.
    rewrite <- drop_drop. f_equal. rewrite drop_app_le by lia. done.
Qed.

Lemma limit_history_last session :
  history (Chat.limit_history session) = last_n 10 (history session).
Proof.
  unfold Chat.limit_history, last_n. destruct (10 <? len (history session)) eqn:E; simpl.
  - apply (slice_from_last (history session) 10). lia.
  - apply Z.ltb_ge in E. unfold len in E.
    replace (length (history session) - 10)%nat with 0%nat by lia. done.
Qed.

(** One valid invocation appends the user message and the assistant
    message to the history of its session and keeps the last ten. *)
Lemma post_chat_history req w :
  Chat.valid_request req = true ->
  exists resp w' old um am s',
    let sid := resp_session_id resp in
    Chat.post_chat env app req w = (Ok (Success resp), w')
    /\ (forall c r, req_session_id req = Some (c :: r) -> sid = c :: r)
    /\ (sessions w !! sid = Some old \/ sessions w !! sid = None /\ history old = [])
    /\ spoken um = (user, default [] (req_message req))
    /\ spoken am = (assistant, answer resp)
    /\ sessions w' = <[sid := s']> (sessions w)
    /\ history s' = last_n 10 (history old ++ [um; am])
    /\ len (history s') <= 10.
Proof.
  intros Hv.
  destruct (post_chat_chain env app req w Hv)
    as (sid & old & stamp & activity & w0 & found & wg & ai & wg' & stamp2 & activity2
        & pt & w' & _ & Hsid & Hold & _ & _ & Ep & Hs').
  cbv zeta in *.
  eexists _, w', old, (Chat.user_message (default [] (req_message req)) stamp),
    (Chat.assistant_message ai found stamp2), _.
  split; [exact Ep |]. simpl resp_session_id.
  split; [done |]. split; [done |]. split; [done |]. split; [done |].
  split; [exact Hs' |].
  rewrite limit_history_last. simpl history. rewrite <- app_assoc.
  cbn [Datatypes.app].
  split; [done |].
  pose proof (last_n_length 10 (history old ++
    [Chat.user_message (default [] (req_message req)) stamp;
     Chat.assistant_message ai found stamp2])).
  unfold len. lia.
Qed.

(** A run of valid requests for one session appends their turns, in
    order, and the session holds the last ten messages of all. *)
Lemma serve_history sid :
  sid <> [] ->
  forall reqs w full rs w',
    Forall (addressed_to sid) reqs ->
    history_is sid w full ->
    run_all (Chat.post_chat env app) reqs w = (rs, w') ->
    exists new,
      map spoken new = turns reqs rs
      /\ length new = (2 * length reqs)%nat
      /\ history_is sid w' (full ++ new).
Proof.
  intros Hsid reqs. induction reqs as [| req reqs IH]; intros w full rs w' Hall Hw Hrun.
  - simpl in Hrun. injection Hrun as <- <-. exists []. rewrite app_nil_r. done.
  - apply Forall_cons in Hall as [[Hv Hto] Hall]. simpl in Hrun.
    destruct (post_chat_history req w Hv)
      as (resp & w1 & old & um & am & s' & Ep & Hsid' & Hold & Hum & Ham & Hs' & Hh & _).
    cbv zeta in *.
    assert (resp_session_id resp = sid) as Heq.
    { destruct sid as [| c r]; [done |]. by apply Hsid'. }
    rewrite Heq in *.
    rewrite Ep in Hrun.
    destruct (run_all (Chat.post_chat env app) reqs w1) as [ys w2] eqn:Erest.
    injection Hrun as <- <-.
    destruct (IH w1 (full ++ [um; am]) ys w2 Hall) as (new & Hn1 & Hn2 & Hn3); [| done |].
    { right. exists s'. split; [rewrite Hs'; apply lookup_insert_eq |].
      rewrite Hh. destruct Hw as [[Hnone ->] | (s & Hsome & Hs)].
      - destruct Hold as [Hold | [_ ->]]; [congruence | done].
      - destruct Hold as [Hold | [Hold _]]; [| congruence].
        assert (old = s) as -> by congruence.
        rewrite Hs. apply last_n_app. }
    exists (um :: am :: new). split; [| split].
    + simpl. by rewrite Hum, Ham, Hn1.
    + simpl. lia.
    + by rewrite <- app_assoc in Hn3.
Qed.

(** C6.  A chat invocation that passes the validation leaves in its
    session the last ten of the old history followed by the user message
    and the assistant message, so at most ten messages; an invocation that
    does not pass it changes no session; hence no invocation ever leaves a
    session with more than ten.  After any run of invocations on a new
    session the history is exactly the last ten of all messages appended,
    in the order in which they were appended. *)
Theorem session_history_cap :
  (forall req w,
     Chat.valid_request req = true ->
     exists resp w' old um am s',
       let sid := resp_session_id resp in
       Chat.post_chat env app req w = (Ok (Success resp), w')
       /\ (sessions w !! sid = Some old \/ sessions w !! sid = None /\ history old = [])
       /\ spoken um = (user, default [] (req_message req))
       /\ spoken am = (assistant, answer resp)
       /\ sessions w' = <[sid := s']> (sessions w)
       /\ history s' = last_n 10 (history old ++ [um; am])
       /\ len (history s') <= 10)
  /\ (forall req w r w',
        (forall k s, sessions w !! k = Some s -> len (history s) <= 10) ->
        Chat.post_chat env app req w = (r, w') ->
        forall k s, sessions w' !! k = Some s -> len (history s) <= 10)
  /\ (forall sid reqs w,
        sid <> [] -> reqs <> [] ->
        Forall (addressed_to sid) reqs ->
        sessions w !! sid = None ->
        exists rs w' msgs s,
          run_all (Chat.post_chat env app) reqs w = (rs, w')
          /\ map spoken msgs = turns reqs rs
          /\ length msgs = (2 * length reqs)%nat
          /\ sessions w' !! sid = Some s
          /\ history s = last_n 10 msgs).
Proof.
  split; [| split].
  - intros req w Hv.
    destruct (post_chat_history req w Hv)
      as (resp & w' & old & um & am & s' & Ep & _ & H).
    exists resp, w', old, um, am, s'. cbv zeta. split; done.
  - intros req w r w' Hinv Ep k s Hk.
    destruct (Chat.valid_request req) eqn:Hv.
    + destruct (post_chat_history req w Hv)
        as (resp & w1 & old & um & am & s' & E & _ & _ & _ & _ & Hs' & _ & Hl).
      cbv zeta in *. rewrite E in Ep. injection Ep as _ <-. rewrite Hs' in Hk.
      destruct (decide (resp_session_id resp = k)) as [Heq | Hne].
      * rewrite Heq, lookup_insert_eq in Hk. by injection Hk as <-.
      * rewrite lookup_insert_ne in Hk by done. by apply (Hinv k).
    + destruct (post_chat_invalid env app req w Hv) as (m & c & E).
      rewrite E in Ep. injection Ep as _ <-. by apply (Hinv k).
  - intros sid reqs w Hsid Hreqs Hall Hnone.
    destruct (run_all (Chat.post_chat env app) reqs w) as [rs w'] eqn:Erun.
    destruct (serve_history sid Hsid reqs w [] rs w' Hall) as (new & H1 & H2 & H3);
      [by left | done |].
    simpl in H3. destruct H3 as [[_ ->] | (s & Hs & Hh)].
    + destruct reqs; [done | simpl in H2; lia].
    + exists rs, w', new, s. done.
Qed.

End HistoryClaim.

(** Seven questions to one session append fourteen messages; the session
    keeps the last ten: from the third question to the answer to the
    seventh. *)
Example seven_questions :
  let sid := lit "s-1" in
  let reqs := map (fun q => ask (lit q) (Some sid))
                ["q1"; "q2"; "q3"; "q4"; "q5"; "q6"; "q7"]%string in
  let run := run_all (Chat.post_chat env_google_up (app_with (keys true false false false)))
               reqs world0 in
  (map spoken <$> (history <$> sessions (snd run) !! sid))
  = Some [ (user, lit "q3"); (assistant, lit "OK");
           (user, lit "q4"); (assistant, lit "OK");
           (user, lit "q5"); (assistant, lit "OK");
           (user, lit "q6"); (assistant, lit "OK");
           (user, lit "q7"); (assistant, lit "OK") ].
Proof. vm_compute. reflexivity. Qed.

(** ** The requests sent to the providers *)

Section ProviderRequests.
Variable env : Env.

Lemma provider_requests_after w e :
  provider_requests (trace (after w e))
  = provider_requests (trace w) ++ option_list (provider_request e).
Proof.
  unfold provider_requests, after. simpl. rewrite omap_app. simpl.
  by destruct (provider_request e).
Qed.

Lemma generateResponse_requests svc messages options w :
  provider_requests
    (trace (snd (GenerationService.generateResponse env svc messages options w)))
  = provider_requests (trace w)
    ++ map (fun p => (p, messages)) (probed svc (orS (model options) (lit "auto"))).
Proof.
  unfold GenerationService.generateResponse, probed.
  destruct (len _ =? 0); [simpl; by rewrite app_nil_r |].
  cbv zeta.
  destruct (GenerationService.provider_of _) as [p |] eqn:Ep.
  - unfold GenerationService.generateWith.
    destruct (GenerationService.client_of svc p) eqn:Ec; simpl.
    + unfold try_catch, mbind, M_bind, request, now, logError, log_info, emit, throw. simpl.
      destruct (provider_api env _ p _ messages _) as [a | e]; simpl;
        unfold provider_requests; rewrite !omap_app; simpl; by rewrite ?app_nil_r.
    + unfold try_catch, mbind, M_bind, now, logError, emit, throw. simpl.
      unfold provider_requests; rewrite !omap_app; simpl; by rewrite ?app_nil_r.
  - unfold try_catch, mbind, M_bind, now, logError, emit, throw. simpl.
    unfold provider_requests; rewrite !omap_app; simpl; by rewrite ?app_nil_r.
Qed.

Lemma check_provider_requests svc status provider w :
  provider_requests
    (trace (snd (GenerationService.check_provider env svc status provider w)))
  = provider_requests (trace w)
    ++ map (fun p => (p, GenerationService.testMessages))
         (probed svc (provider ++ lit ":auto")).
Proof.
  unfold GenerationService.check_provider, try_catch, mbind, M_bind.
  match goal with |- context [GenerationService.generateResponse env svc ?m ?o w] =>
    pose proof (generateResponse_requests svc m o w) as H;
    destruct (GenerationService.generateResponse env svc m o w) as [[r | e] w1]
  end; simpl in *.
  - rewrite H. destruct provider; done.
  - unfold provider_requests in *. rewrite omap_app. simpl. rewrite app_nil_r, H.
    destruct provider; done.
Qed.

Lemma healthCheck_loop_requests svc p0 (l : list jsstring) status w :
  (forall provider, In provider l -> probed svc (provider ++ lit ":auto") = [p0]) ->
  provider_requests
    (trace (snd (for_of l (GenerationService.check_provider env svc) status w)))
  = provider_requests (trace w)
    ++ replicate (length l) (p0, GenerationService.testMessages).
Proof.
  revert status w. induction l as [| provider l IH]; intros status w Hl; simpl.
  - by rewrite app_nil_r.
  - unfold mbind, M_bind.
    pose proof (check_provider_requests svc status provider w) as H.
    rewrite (Hl provider) in H by (by left).
    destruct (GenerationService.check_provider env svc status provider w)
      as [[status' | e] w1] eqn:E; simpl in H.
    + rewrite IH by (intros; apply Hl; by right). rewrite H, <- app_assoc. done.
    + exfalso. revert E. unfold GenerationService.check_provider, try_catch, mbind, M_bind.
      destruct (GenerationService.generateResponse env svc _ _ w) as [[r | e'] w2];
        discriminate.
Qed.

Lemma chat_generateResponse_requests app query context mt temp w :
  provider_requests
    (trace (snd (Chat.generateResponse env app query context mt temp w)))
  = provider_requests (trace w)
    ++ map (fun p => (p, Chat.build_messages query context))
         (probed (Chat.generationService app) (lit "auto")).
Proof.
  unfold Chat.generateResponse, try_catch, GenerationService.getAvailableProviders.
  destruct (len _ =? 0) eqn:E0.
  - simpl. unfold provider_requests. rewrite omap_app. simpl.
    unfold probed. rewrite E0. by rewrite !app_nil_r.
  - unfold mbind, M_bind.
    match goal with |- context [GenerationService.generateResponse env ?s ?m ?o w] =>
      pose proof (generateResponse_requests s m o w) as H;
      destruct (GenerationService.generateResponse env s m o w) as [[r | e] w1]
    end; simpl in *.
    + unfold provider_requests in *. rewrite omap_app. simpl. by rewrite app_nil_r, H.
    + unfold provider_requests in *. rewrite omap_app. simpl. by rewrite app_nil_r, H.
Qed.

End ProviderRequests.

(** ** The messages sent to the generation *)

Section MessagesClaim.

(** With the current user message already pushed on the history, the
    list built for the generation holds it twice: as the last entry of the
    recent history and as the trailing user entry. *)
Lemma build_messages_current query (past : list ChatMessage) stamp found :
  let um := Chat.user_message query stamp in
  let context := Chat.prepareContext (past ++ [um]) found in
  Chat.build_messages query context
  = [Chat.plain_message system (Chat.systemPrompt context)]
    ++ last_n 5 past ++ [um; Chat.plain_message user query].
Proof.
  intros um context. unfold Chat.build_messages. f_equal.
  subst context. unfold Chat.prepareContext. simpl Chat.conversation_history.
  change (-6) with (- Z.of_nat 6).
  rewrite !slice_from_last by lia.
  rewrite length_drop, length_app. simpl length.
  replace (length past + 1 - (length past + 1 - 6) - 6)%nat with 0%nat by lia.
  rewrite drop_0.
  replace (length past + 1 - 6)%nat with (length past - 5)%nat by lia.
  rewrite drop_app_le by lia.
  rewrite <- app_assoc. reflexivity.
Qed.

(** C9.  The list handed to the orchestrator, and by it to the provider,
    is the system instruction, then the last six messages of the session
    history, then the user text.  The handler pushes the current user
    message on the history before it prepares the context, so those six
    are the last five messages before the current turn and the current
    user message itself: the active query is in the list twice.  On a new
    session the message [hi] reaches the provider as system instruction,
    [hi], [hi]. *)
Theorem chat_messages_repeat_query (env : Env) (app : Chat.Services) :
  (forall query (past : list ChatMessage) stamp found,
     let um := Chat.user_message query stamp in
     let context := Chat.prepareContext (past ++ [um]) found in
     Chat.build_messages query context
     = [Chat.plain_message system (Chat.systemPrompt context)]
       ++ last_n 5 past ++ [um; Chat.plain_message user query])
  /\ (forall req w,
        Chat.valid_request req = true ->
        exists sid old stamp activity w0 found wg ai wg',
          let message := default [] (req_message req) in
          let mt := default 1000 (req_max_tokens req) in
          let temp := default (7 # 10)%Q (req_temperature req) in
          let um := Chat.user_message message stamp in
          let session := Chat.count_message (Chat.push_message old um activity) in
          let context := Chat.prepareContext (history session) found in
          Chat.begin_turn env req message w = (Ok (sid, session), w0)
          /\ (sessions w !! sid = Some old \/ sessions w !! sid = None /\ history old = [])
          /\ Chat.performVectorSearch env app message (ticked env w0) = (Ok found, wg)
          /\ Chat.generateResponse env app message context mt temp wg = (Ok ai, wg')
          /\ provider_requests (trace wg')
             = provider_requests (trace wg)
               ++ map (fun p =>
                         (p, [Chat.plain_message system (Chat.systemPrompt context)]
                             ++ last_n 5 (history old)
                             ++ [um; Chat.plain_message user message]))
                    (probed (Chat.generationService app) (lit "auto"))
          /\ spoken um = spoken (Chat.plain_message user message))
  /\ map (fun ms => map spoken (tail ms))
       (provider_messages
          (trace (snd (Chat.post_chat env_google_up (app_with (keys true false false false))
                         (ask (lit "hi") None) world0))))
     = [[(user, lit "hi"); (user, lit "hi")]].
Proof.
  split; [apply build_messages_current |]. split.
  - intros req w Hv.
    destruct (post_chat_chain env app req w Hv)
      as (sid & old & stamp & activity & w0 & found & wg & ai & wg' & stamp2 & activity2
          & pt & w' & Eb & _ & Hold & Es & Eg & _ & _).
    cbv zeta in *.
    exists sid, old, stamp, activity, w0, found, wg, ai, wg'. cbv zeta.
    split; [exact Eb |]. split; [exact Hold |]. split; [exact Es |]. split; [exact Eg |].
    split; [| reflexivity].
    match type of Eg with Chat.generateResponse _ _ ?q ?c ?m ?t _ = _ =>
      pose proof (chat_generateResponse_requests env app q c m t wg) as Hr
    end.
    rewrite Eg in Hr. simpl snd in Hr. simpl history in Hr.
    pose proof (build_messages_current (default [] (req_message req))
                  (history old) stamp found) as Hb.
    cbv zeta in Hb. rewrite Hb in Hr. exact Hr.
  - vm_compute. reflexivity.
Qed.

End MessagesClaim.

(** ** The health check of the providers *)

Section HealthClaim.

(** The model string of a probe, [provider:auto], names no model family,
    so [parseModelString] falls back to the first available provider,
    whichever provider is probed. *)
Lemma probe_model_string k provider :
  let svc := GenerationService.initialize k in
  In provider (GenerationService.availableProviders svc) ->
  GenerationService.parseModelString svc (provider ++ lit ":auto")
  = (GenerationService.first_provider svc,
     GenerationService.getDefaultModelForProvider (GenerationService.first_provider svc)).
Proof.
  destruct k as [[] [] [] []]; simpl; intros H;
    repeat (destruct H as [<- | H]; [vm_compute; reflexivity |]); destruct H.
Qed.

(** So the request of a probe goes to that first provider. *)
Lemma probe_goes_to_first k provider :
  let svc := GenerationService.initialize k in
  In provider (GenerationService.availableProviders svc) ->
  exists p0,
    GenerationService.provider_of (GenerationService.first_provider svc) = Some p0
    /\ probed svc (provider ++ lit ":auto") = [p0].
Proof.
  destruct k as [[] [] [] []]; simpl; intros H;
    repeat (destruct H as [<- | H]; [eexists; split; vm_compute; reflexivity |]);
    destruct H.
Qed.

Lemma first_provider_known k :
  exists p0,
    GenerationService.provider_of
      (GenerationService.first_provider (GenerationService.initialize k)) = Some p0.
Proof. destruct k as [[] [] [] []]; eexists; vm_compute; reflexivity. Qed.

(** All the requests of a health check go to the first provider, one per
    available provider. *)
Lemma healthCheck_requests env k w :
  let svc := GenerationService.initialize k in
  exists p0,
    GenerationService.provider_of (GenerationService.first_provider svc) = Some p0
    /\ provider_requests (trace (snd (GenerationService.healthCheck env svc w)))
       = provider_requests (trace w)
         ++ replicate (length (GenerationService.availableProviders svc))
              (p0, GenerationService.testMessages).
Proof.
  intros svc. subst svc. set (svc := GenerationService.initialize k).
  destruct (first_provider_known k) as (p0 & Hp0). fold svc in Hp0.
  exists p0. split; [done |].
  unfold GenerationService.healthCheck.
  apply healthCheck_loop_requests.
  intros provider Hin.
  destruct (probe_goes_to_first k provider Hin) as (p1 & Hp1 & Hpr).
  fold svc in Hp1, Hpr. rewrite Hpr. congruence.
Qed.

(** C8.  The probe of every available provider is sent to the first
    available provider: its model string [provider:auto] matches none of
    the names [parseModelString] looks for, so a health check sends as many
    requests as there are providers, all of them to the first.  With
    Google and OpenAI configured, Google answering and the OpenAI API
    down, both probes go to Google and OpenAI is reported healthy. *)
Theorem healthCheck_probes_first_provider :
  (forall k provider,
     let svc := GenerationService.initialize k in
     In provider (GenerationService.availableProviders svc) ->
     GenerationService.parseModelString svc (provider ++ lit ":auto")
     = (GenerationService.first_provider svc,
        GenerationService.getDefaultModelForProvider (GenerationService.first_provider svc)))
  /\ (forall env k w,
        let svc := GenerationService.initialize k in
        exists p0,
          GenerationService.provider_of (GenerationService.first_provider svc) = Some p0
          /\ provider_requests (trace (snd (GenerationService.healthCheck env svc w)))
             = provider_requests (trace w)
               ++ replicate (length (GenerationService.availableProviders svc))
                    (p0, GenerationService.testMessages))
  /\ (let svc := GenerationService.initialize (keys true true false false) in
      let run := GenerationService.healthCheck env_google_up svc world0 in
      GenerationService.availableProviders svc = [lit "google"; lit "openai"]
      /\ requested_providers (trace (snd run)) = [Google; Google]
      /\ health_of (fst run) (lit "google") = Some true
      /\ health_of (fst run) (lit "openai") = Some true
      /\ (forall tr m ms o, provider_api env_google_up tr OpenAI m ms o = Err down)).
Proof.
  split; [apply probe_model_string |].
  split; [apply healthCheck_requests |].
  repeat split; vm_compute; reflexivity.
Qed.

End HealthClaim.

(* ===================================================================== *)
(** * Part III: further properties of the code                           *)
(* ===================================================================== *)

(** ** The chunker, beyond its preconditions *)

Section ChunkerMore.
Import Chunker.

Lemma trimStart_head s c r : trimStart s = c :: r -> is_white_space c = false.
Proof.
  induction s as [| a s IH]; simpl; [done |].
  destruct (is_white_space a) eqn:Ea; [done |]. by intros [= <- _].
Qed.

Lemma trimStart_fixed c r : is_white_space c = false -> trimStart (c :: r) = c :: r.
Proof. intros H. simpl. by rewrite H. Qed.

Lemma trimStart_idem s : trimStart (trimStart s) = trimStart s.
Proof.
  destruct (trimStart s) as [| c r] eqn:E; [done |].
  apply trimStart_fixed. by apply (trimStart_head s c r).
Qed.

Lemma trimEnd_idem s : trimEnd (trimEnd s) = trimEnd s.
Proof. unfold trimEnd. by rewrite rev_involutive, trimStart_idem. Qed.

(** Trimming twice is trimming once: a trimmed string has no whitespace
    left at either end. *)
Lemma trim_idem s : trim (trim s) = trim s.
Proof.
  unfold trim. set (t := trimStart s).
  assert (trimStart (trimEnd t) = trimEnd t) as ->; [| apply trimEnd_idem].
  destruct (trimEnd t) as [| c r] eqn:E; [done |].
  apply trimStart_fixed.
  destruct (trimEnd_prefix t) as [b Hb]. rewrite E in Hb.
  apply (trimStart_head s c (r ++ b)). fold t. by rewrite Hb.
Qed.

Lemma slice_part_of {A} (l : list A) a b : exists before behind, l = before ++ slice l a b ++ behind.
Proof.
  unfold slice. set (i := Z.to_nat _). set (n := Z.to_nat _).
  exists (take n l), (drop i (drop n l)).
  by rewrite take_drop, take_drop.
Qed.

Lemma chunk_at_part_of text chunkSize start : part_of (chunk_at text chunkSize start) text.
Proof.
  unfold chunk_at.
  destruct (slice_part_of text start (window_end text chunkSize start)) as (a & b & E).
  destruct (trim_part_of (slice text start (window_end text chunkSize start)))
    as (a' & b' & E').
  exists (a ++ a'), (b' ++ b). rewrite E at 1. rewrite E' at 1.
  by rewrite <- !app_assoc.
Qed.

Lemma window_end_upper text chunkSize start :
  0 < chunkSize -> 0 <= start < len text ->
  window_end text chunkSize start <= start + chunkSize + 1.
Proof.
  intros Hc Hs. unfold window_end, raw_end.
  destruct (Z.min (start + chunkSize) (len text) <? len text) eqn:E; [| lia].
  apply Z.ltb_lt in E.
  destruct (bestCutPoint_spec text (Z.min (start + chunkSize) (len text)))
    as (R & _ & _); [lia |].
  destruct (accepts _ _ _); lia.
Qed.

Lemma chunk_at_len text chunkSize start :
  0 < chunkSize -> 0 <= start < len text ->
  len (chunk_at text chunkSize start) <= window_end text chunkSize start - start.
Proof.
  intros Hc Hs. unfold chunk_at.
  pose proof (window_end_bounds text chunkSize start Hc Hs).
  pose proof (trim_len (slice text start (window_end text chunkSize start))) as Ht.
  rewrite slice_len in Ht; lia.
Qed.

Lemma total_len_push chunks chunk :
  total_len (push_chunk chunks chunk) = total_len chunks + len chunk.
Proof.
  unfold push_chunk. destruct (0 <? len chunk) eqn:E.
  - unfold total_len. rewrite foldr_app. simpl.
    generalize (len chunk). induction chunks as [| c r IH]; intros z; simpl; [lia |].
    rewrite IH. lia.
  - apply Z.ltb_ge in E. pose proof (len_nonneg chunk). lia.
Qed.

Lemma push_chunk_length chunks chunk :
  (length (push_chunk chunks chunk) <= S (length chunks))%nat.
Proof.
  unfold push_chunk. destruct (0 <? len chunk); [rewrite length_app; simpl |]; lia.
Qed.

Lemma push_chunk_Forall (P : jsstring -> Prop) chunks chunk :
  Forall P chunks -> (0 < len chunk -> P chunk) -> Forall P (push_chunk chunks chunk).
Proof.
  intros H Hc. unfold push_chunk. destruct (0 <? len chunk) eqn:E; [| done].
  apply Z.ltb_lt in E. apply Forall_app. split; [done |]. constructor; [auto | constructor].
Qed.

(** X1.  The loop needs a positive [chunkSize] and nothing else: for every
    text and every [overlap], also one that is not smaller than
    [chunkSize] or is negative, [text.length] rounds suffice, more rounds
    give the same chunks, and there are no more of them than the text has
    units (one for a text no longer than [chunkSize]).  With [chunkSize]
    and [overlap] zero the loop never ends on a non-empty text. *)
Theorem split_terminates_any_overlap (text : jsstring) (chunkSize overlap : Z) :
  0 < chunkSize ->
  (exists chunks,
     splitTextIntoChunks (length text) text chunkSize overlap = Some chunks
     /\ (forall fuel, (length text <= fuel)%nat ->
           splitTextIntoChunks fuel text chunkSize overlap = Some chunks)
     /\ (length chunks <= Nat.max 1 (length text))%nat)
  /\ (0 < len text -> forall fuel, splitTextIntoChunks fuel text 0 0 = None).
Proof.
  intros Hc. split.
  - unfold splitTextIntoChunks. destruct (len text <=? chunkSize).
    { exists [text]. split; [done |]. split; [done |]. simpl. lia. }
    destruct (split_loop_inv
                (fun start chunks => Z.of_nat (length chunks) <= Z.max 0 (Z.min start (len text)))
                text chunkSize overlap Hc) with
      (fuel := length text) (start := 0) (chunks := @nil jsstring)
      as (res & stop & R & S1 & S2 & B).
    + intros start chunks Hs B.
      pose proof (next_start_progress text chunkSize overlap start Hc Hs).
      pose proof (push_chunk_length chunks (chunk_at text chunkSize start)). lia.
    + lia.
    + unfold len. lia.
    + simpl. lia.
    + exists res. split; [done |]. split.
      * intros fuel Hf. by apply (split_loop_fuel text chunkSize overlap Hc (length text)).
      * unfold len in *. lia.
  - intros Ht fuel. unfold splitTextIntoChunks.
    replace (len text <=? 0) with false by (symmetry; apply Z.leb_gt; lia).
    assert (next_start text 0 0 0 = 0 /\ chunk_at text 0 0 = []) as [Hn Hk].
    { assert (window_end text 0 0 = 0) as Hw.
      { unfold window_end, raw_end, accepts.
        replace (Z.min (0 + 0) (len text)) with 0 by lia.
        replace (0 <? len text) with true by (symmetry; apply Z.ltb_lt; lia).
        destruct (bestCutPoint_spec text 0) as (R & _ & _); [lia |].
        replace (2 * 0 + 0 <? 2 * bestCutPoint text 0) with false
          by (symmetry; apply Z.ltb_ge; lia).
        done. }
      split.
      - unfold next_start. rewrite Hw. lia.
      - unfold chunk_at. rewrite Hw. unfold slice, rel_index. simpl.
        pose proof (len_nonneg text).
        replace (Z.min 0 (len text)) with 0 by lia. simpl. done. }
    generalize (@nil jsstring) as chunks.
    induction fuel as [| fuel IH]; intros chunks; simpl;
      replace (0 <? len text) with true by (symmetry; apply Z.ltb_lt; lia); [done |].
    rewrite Hn, Hk. apply IH.
Qed.

Lemma split_terminates_any_overlap_witness :
  let text := lit "aaaa bbbb cccc dddd" in
  0 < 10
  /\ exists chunks,
       splitTextIntoChunks (length text) text 10 200 = Some chunks
       /\ (forall fuel, (length text <= fuel)%nat ->
             splitTextIntoChunks fuel text 10 200 = Some chunks)
       /\ (length chunks <= Nat.max 1 (length text))%nat.
Proof.
  split; [lia |].
  destruct (split_terminates_any_overlap (lit "aaaa bbbb cccc dddd") 10 200) as [H _];
    [lia | exact H].
Defined.

(** X2.  When the text is longer than [chunkSize], every chunk is a
    contiguous part of the text, has no whitespace at either end (trimming
    it changes nothing), is not empty, and is at most [chunkSize + 1]
    units long: one more than [chunkSize], because the cut may fall just
    after a boundary found at the raw end itself. *)
Theorem split_chunks_trimmed (text : jsstring) (chunkSize overlap : Z) :
  0 < chunkSize -> chunkSize < len text ->
  exists chunks,
    splitTextIntoChunks (length text) text chunkSize overlap = Some chunks
    /\ Forall (fun c => part_of c text /\ trim c = c /\ 0 < len c <= chunkSize + 1) chunks.
Proof.
  intros Hc Hl. unfold splitTextIntoChunks.
  replace (len text <=? chunkSize) with false by (symmetry; apply Z.leb_gt; lia).
  destruct (split_loop_inv
              (fun _ chunks =>
                 Forall (fun c => part_of c text /\ trim c = c /\ 0 < len c <= chunkSize + 1)
                        chunks)
              text chunkSize overlap Hc) with
    (fuel := length text) (start := 0) (chunks := @nil jsstring)
    as (res & stop & R & _ & _ & F).
  - intros start chunks Hs F. apply push_chunk_Forall; [done |].
    intros Hpos. split; [apply chunk_at_part_of |]. split.
    + unfold chunk_at. apply trim_idem.
    + pose proof (chunk_at_len text chunkSize start Hc Hs).
      pose proof (window_end_upper text chunkSize start Hc Hs). lia.
  - lia.
  - unfold len. lia.
  - constructor.
  - by exists res.
Qed.

Lemma split_chunks_trimmed_witness :
  let text := lit "aaaa bbbb cccc dddd" in
  0 < 10 /\ 10 < len text
  /\ exists chunks,
       splitTextIntoChunks (length text) text 10 3 = Some chunks
       /\ Forall (fun c => part_of c text /\ trim c = c /\ 0 < len c <= 10 + 1) chunks.
Proof.
  split; [lia |]. split; [vm_compute; reflexivity |].
  apply (split_chunks_trimmed (lit "aaaa bbbb cccc dddd") 10 3); [lia | vm_compute; reflexivity].
Defined.

(** X3.  Chunks never overlap, whatever [overlap] is: the next window
    starts at or after the end of the one before, so the chunks together
    are never longer than the text. *)
Theorem split_never_repeats (text : jsstring) (chunkSize overlap : Z) :
  0 < chunkSize ->
  (forall start, 0 <= start < len text ->
     window_end text chunkSize start <= next_start text chunkSize overlap start)
  /\ exists chunks,
       splitTextIntoChunks (length text) text chunkSize overlap = Some chunks
       /\ total_len chunks <= len text.
Proof.
  intros Hc. split; [intros start _; unfold next_start; lia |].
  unfold splitTextIntoChunks. destruct (len text <=? chunkSize).
  { exists [text]. split; [done |]. simpl. lia. }
  destruct (split_loop_inv
              (fun start chunks => total_len chunks <= Z.min start (len text))
              text chunkSize overlap Hc) with
    (fuel := length text) (start := 0) (chunks := @nil jsstring)
    as (res & stop & R & _ & _ & F).
  - intros start chunks Hs F. rewrite total_len_push.
    pose proof (chunk_at_len text chunkSize start Hc Hs).
    pose proof (window_end_bounds text chunkSize start Hc Hs).
    unfold next_start. lia.
  - lia.
  - unfold len. lia.
  - simpl. pose proof (len_nonneg text). lia.
  - exists res. split; [done |]. lia.
Qed.

Lemma split_never_repeats_witness :
  let text := lit "aaaa bbbb cccc dddd" in
  0 < 10
  /\ exists chunks,
       splitTextIntoChunks (length text) text 10 9 = Some chunks
       /\ total_len chunks <= len text.
Proof.
  split; [lia |].
  destruct (split_never_repeats (lit "aaaa bbbb cccc dddd") 10 9) as [_ H]; [lia | exact H].
Defined.

End ChunkerMore.

(** ** The ids of chunks *)

Section ChunkIds.
Import DocumentProcessor.

Lemma uint_units_inj d d' : uint_units d = uint_units d' -> d = d'.
Proof.
  revert d'. induction d; intros d'; destruct d'; simpl; intros H;
    try discriminate H; try reflexivity;
    injection H as H; f_equal; auto.
Qed.

Lemma zeros_units (k : nat) d :
  replicate k 48%N ++ uint_units d = uint_units (Nat.iter k Decimal.D0 d).
Proof. induction k as [| k IH]; simpl; [done |]. by rewrite IH. Qed.

Lemma of_uint_zeros (k : nat) d : N.of_uint (Nat.iter k Decimal.D0 d) = N.of_uint d.
Proof. induction k as [| k IH]; simpl; [done |]. exact IH. Qed.

Lemma padded_index_inj i j :
  padStart (number_toString i) 3 (char "0") = padStart (number_toString j) 3 (char "0") ->
  i = j.
Proof.
  unfold padStart, number_toString. change (char "0") with 48%N.
  rewrite !zeros_units. intros H. apply uint_units_inj in H.
  apply (f_equal N.of_uint) in H. rewrite !of_uint_zeros in H.
  by rewrite !DecimalN.Unsigned.of_to in H.
Qed.

Lemma padded_index_small (i : N) :
  (i < 1000)%N -> padStart (number_toString i) 3 (char "0") = three_digits i.
Proof.
  intros Hi.
  assert (forallb (fun n => bool_decide
            (padStart (number_toString (N.of_nat n)) 3 (char "0")
             = three_digits (N.of_nat n))) (seq 0 1000) = true) as Hall
    by (vm_compute; reflexivity).
  rewrite forallb_forall in Hall.
  specialize (Hall (N.to_nat i)). rewrite N2Nat.id in Hall.
  eapply bool_decide_eq_true_1. apply Hall. apply in_seq. lia.
Qed.

Lemma imap_seq_ids {A B} (g : nat -> B) (l : list A) :
  imap (fun index _ => g index) l = g <$> seq 0 (length l).
Proof.
  apply list_eq. intros i. rewrite list_lookup_imap, list_lookup_fmap.
  destruct (l !! i) eqn:E; simpl.
  - rewrite lookup_seq_lt; [done | by eapply lookup_lt_Some].
  - rewrite lookup_seq_ge; [done | by apply lookup_ge_None].
Qed.

(** X4.  Chunk ids tell chunks of one document apart: different indices
    give different ids, so the ids that [processDocument] gives to the
    chunks of a document, by their position, are pairwise distinct.  Below 1000 the index is written with exactly
    three digits, zero-padded, so the first chunks of [doc_x] are
    [doc_x_chunk_000], [doc_x_chunk_001], [doc_x_chunk_002]; from 1000 on
    the id grows by a digit. *)
Theorem generateChunkId_injective (documentId : jsstring) :
  (forall i j, generateChunkId documentId i = generateChunkId documentId j -> i = j)
  /\ (forall chunks : list jsstring,
        NoDup (imap (fun index _ => generateChunkId documentId (N.of_nat index)) chunks))
  /\ (forall i, (i < 1000)%N ->
        generateChunkId documentId i = documentId ++ lit "_chunk_" ++ three_digits i)
  /\ map (generateChunkId (lit "doc_x")) [0; 1; 2; 1000]%N
     = [lit "doc_x_chunk_000"; lit "doc_x_chunk_001"; lit "doc_x_chunk_002";
        lit "doc_x_chunk_1000"].
Proof.
  assert (forall i j, generateChunkId documentId i = generateChunkId documentId j -> i = j)
    as Hinj.
  { intros i j H. unfold generateChunkId in H.
    apply app_inv_head in H. apply app_inv_head in H. by apply padded_index_inj. }
  split; [exact Hinj | split; [| split]].
  - intros chunks.
    rewrite (imap_seq_ids (fun index => generateChunkId documentId (N.of_nat index))).
    apply NoDup_fmap_2; [| apply NoDup_seq].
    intros i j H. apply Hinj in H. lia.
  - intros i Hi. unfold generateChunkId. by rewrite padded_index_small.
  - vm_compute. reflexivity.
Qed.

End ChunkIds.

(** ** Which requests a computation sends *)

Section Silence.
Context {X : Type} (f : event -> option X) `{!RequestsOnly f}.

Lemma omap_after w e : omap f (trace (after w e)) = omap f (trace w) ++ option_list (f e).
Proof. unfold after. simpl. rewrite omap_app. simpl. by destruct (f e). Qed.

Lemma omap_ticked env w : omap f (trace (ticked env w)) = omap f (trace w).
Proof. unfold ticked. rewrite omap_after, ignores_clock. apply app_nil_r. Qed.

Lemma omap_logged w lvl line : omap f (trace (logged w lvl line)) = omap f (trace w).
Proof. unfold logged. rewrite omap_after, ignores_log. apply app_nil_r. Qed.

Lemma silent_ret {A} (a : A) : silent f (mret a).
Proof. done. Qed.

Lemma silent_throw {A} msg : silent f (@throw A msg).
Proof. done. Qed.

Lemma silent_emit e : f e = None -> silent f (emit e).
Proof. intros H w. change (snd (emit e w)) with (after w e). rewrite omap_after, H. apply app_nil_r. Qed.

Lemma silent_log_info line : silent f (log_info line).
Proof. apply silent_emit, ignores_log. Qed.

Lemma silent_log_warn line : silent f (log_warn line).
Proof. apply silent_emit, ignores_log. Qed.

Lemma silent_logError e context : silent f (logError e context).
Proof. apply silent_emit, ignores_log. Qed.

Lemma silent_request {A} e (answer : list event -> result A) :
  f e = None -> silent f (request e answer).
Proof.
  intros H w. change (snd (request e answer w)) with (after w e).
  rewrite omap_after, H. apply app_nil_r.
Qed.

Lemma silent_now env : silent f (now env).
Proof. intros w. apply omap_ticked. Qed.

Lemma silent_uuidv4 env : silent f (uuidv4 env).
Proof.
  intros w. change (snd (uuidv4 env w)) with (after w (UuidDrawn (uuid env (trace w)))).
  rewrite omap_after, ignores_uuid. apply app_nil_r.
Qed.

Lemma silent_sessions : silent f get_sessions.
Proof. done. Qed.

Lemma silent_put_sessions s : silent f (put_sessions s).
Proof. done. Qed.

Lemma silent_bind {A B} (m : M A) (k : A -> M B) :
  silent f m -> (forall a, silent f (k a)) -> silent f (m ≫= k).
Proof.
  intros Hm Hk w. unfold mbind, M_bind. specialize (Hm w).
  destruct (m w) as [[a | e] w1]; simpl in *; [| done].
  by rewrite Hk.
Qed.

Lemma silent_try_catch {A} (m : M A) (h : Error -> M A) :
  silent f m -> (forall e, silent f (h e)) -> silent f (try_catch m h).
Proof.
  intros Hm Hh w. unfold try_catch. specialize (Hm w).
  destruct (m w) as [[a | e] w1]; simpl in *; [done |].
  by rewrite Hh.
Qed.

Lemma silent_for_of {A S} (l : list A) (body : S -> A -> M S) acc :
  (forall acc x, silent f (body acc x)) -> silent f (for_of l body acc).
Proof.
  intros Hb. revert acc. induction l as [| x l IH]; intros acc; simpl.
  - apply silent_ret.
  - apply silent_bind; [apply Hb | apply IH].
Qed.

Lemma silent_promise_all {A B} (g : A -> M B) (l : list A) :
  (forall x, silent f (g x)) -> silent f (promise_all g l).
Proof.
  intros Hg w. unfold promise_all.
  assert (omap f (trace (snd (run_all g l w))) = omap f (trace w)) as H.
  { revert w. induction l as [| x l IH]; intros w; simpl; [done |].
    specialize (Hg x w). destruct (g x w) as [y w1]. simpl in Hg.
    specialize (IH w1). destruct (run_all g l w1) as [ys w2]. simpl in *. congruence. }
  by destruct (run_all g l w).
Qed.

End Silence.

Ltac silent_step :=
  lazymatch goal with
  | |- silent _ (mret _) => apply silent_ret
  | |- silent _ (throw _) => apply silent_throw
  | |- silent _ (now _) => apply silent_now; tc_solve
  | |- silent _ (uuidv4 _) => apply silent_uuidv4; tc_solve
  | |- silent _ get_sessions => apply silent_sessions
  | |- silent _ (put_sessions _) => apply silent_put_sessions
  | |- silent _ (request _ _) => apply silent_request; first [reflexivity | tc_solve]
  | |- silent _ (log_info _) => apply silent_log_info; tc_solve
  | |- silent _ (log_warn _) => apply silent_log_warn; tc_solve
  | |- silent _ (logError _ _) => apply silent_logError; tc_solve
  | |- silent _ (_ ≫= _) => apply silent_bind; [| intros ?]
  | |- silent _ (try_catch _ _) => apply silent_try_catch; [| intros ?]
  | |- silent _ (for_of _ _ _) => apply silent_for_of; intros ? ?
  | |- silent _ (promise_all _ _) => apply silent_promise_all; intros ?
  | |- silent _ (if ?b then _ else _) => destruct b
  | |- silent _ (match ?x with _ => _ end) => destruct x
  end.

(** ** The embedding service *)

Section EmbeddingMore.
Variable env : Env.
Variable svc : EmbeddingService.t.

(** What [createEmbedding] does with a text it accepts. *)
Lemma createEmbedding_valid text w :
  EmbeddingService.isAvailable svc = true ->
  valid_text text = true ->
  let w1 := after (ticked env w) (EmbedContent text) in
  EmbeddingService.createEmbedding env svc text w
  = match embed_api env (trace (ticked env w)) text with
    | Ok values =>
      if len values =? 0 then
        (Err (mkError (lit "Embedding generation failed: "
                       ++ lit "Failed to generate embedding - empty result")),
         logged (ticked env w1) LError
           (lit "Failed to create embedding" ++ lit ": "
            ++ lit "Failed to generate embedding - empty result"))
      else
        (Ok {| embedding := values;
               emb_model := lit "embedding-001";
               emb_tokens_used := token_estimate text |},
         logged (ticked env w1) LInfo (lit "Embedding created successfully"))
    | Err e =>
      (Err (mkError (lit "Embedding generation failed: " ++ error_message e)),
       logged (ticked env w1) LError
         (lit "Failed to create embedding" ++ lit ": " ++ error_message e))
    end.
Proof.
  intros Ha Hv w1. unfold EmbeddingService.isAvailable in Ha.
  apply andb_true_iff in Ha as [Hi Hg].
  unfold valid_text in Hv. apply andb_true_iff in Hv as [H1 H2].
  apply negb_true_iff in H1, H2.
  subst w1.
  destruct (embed_api env (trace (ticked env w)) text) as [values | e] eqn:E;
    unfold ticked, after in E; simpl in E;
    unfold EmbeddingService.createEmbedding; rewrite Hi, Hg, H1, H2; simpl;
    unfold mbind, M_bind, try_catch, request, now; simpl; rewrite E; [| reflexivity].
  destruct (len values =? 0); reflexivity.
Qed.

Lemma createEmbedding_invalid text w :
  EmbeddingService.isAvailable svc = false \/ valid_text text = false ->
  exists e, EmbeddingService.createEmbedding env svc text w = (Err e, w).
Proof.
  intros H. unfold EmbeddingService.createEmbedding.
  destruct (negb (EmbeddingService.isInitialized svc) || negb (EmbeddingService.genAI svc))
    eqn:Ea; [unfold throw; eauto |].
  destruct H as [H | H].
  { unfold EmbeddingService.isAvailable in H.
    destruct (EmbeddingService.isInitialized svc), (EmbeddingService.genAI svc); done. }
  unfold valid_text in H.
  destruct (len (trim text) =? 0); [unfold throw; eauto |].
  destruct (10000 <? len text); [unfold throw; eauto | done].
Qed.

End EmbeddingMore.

(** X5.  [createEmbedding] sends a request to the embedding API exactly
    when the service is available and the text is neither blank nor
    longer than 10000 units; otherwise it rejects and nothing happens at
    all.  For a text it accepts it sends that one request: a non-empty
    vector comes back with model [embedding-001] and [ceil(length / 4)]
    tokens; an empty vector and an API error are both rejected as
    [Embedding generation failed: ...]. *)
Theorem createEmbedding_requests (env : Env) (svc : EmbeddingService.t)
    (text : jsstring) (w : World) :
  let run := EmbeddingService.createEmbedding env svc text w in
  if EmbeddingService.isAvailable svc && valid_text text then
    embed_requests (trace (snd run)) = embed_requests (trace w) ++ [text]
    /\ match embed_api env (trace (ticked env w)) text with
       | Ok values =>
         if len values =? 0 then
           fst run = Err (mkError (lit "Embedding generation failed: "
                                   ++ lit "Failed to generate embedding - empty result"))
         else
           fst run = Ok {| embedding := values;
                           emb_model := lit "embedding-001";
                           emb_tokens_used := token_estimate text |}
       | Err e =>
         fst run = Err (mkError (lit "Embedding generation failed: " ++ error_message e))
       end
  else
    snd run = w /\ exists e, fst run = Err e.
Proof.
  intros run. subst run.
  destruct (EmbeddingService.isAvailable svc) eqn:Ha; cbn [andb].
  - destruct (valid_text text) eqn:Hv.
    + rewrite (createEmbedding_valid env svc text w Ha Hv).
      destruct (embed_api env (trace (ticked env w)) text) as [values | e];
        [destruct (len values =? 0) |]; cbv beta iota; cbn [fst snd];
        (split; [| reflexivity]); unfold embed_requests;
        rewrite (omap_logged embed_request), (omap_ticked embed_request),
          (omap_after embed_request), (omap_ticked embed_request);
        reflexivity.
    + destruct (createEmbedding_invalid env svc text w) as [e ->]; [by right |]. eauto.
  - destruct (createEmbedding_invalid env svc text w) as [e ->]; [by left |]. eauto.
Qed.

(** ** Batches of embeddings *)

Section PromiseAll.
Context {X : Type} (g : event -> option X).

(** When all calls of a [Promise.all] fulfil, each did what a fulfilled
    call does, one after the other. *)
Lemma promise_all_fulfilled {A B} (f : A -> M B) (Q : A -> B -> Prop) (h : A -> list X) :
  (forall x w r w', f x w = (Ok r, w') ->
     Q x r /\ omap g (trace w') = omap g (trace w) ++ h x) ->
  forall l w bs w', promise_all f l w = (Ok bs, w') ->
    Forall2 Q l bs /\ omap g (trace w') = omap g (trace w) ++ concat (map h l).
Proof.
  intros Hf. unfold promise_all.
  induction l as [| x l IH]; intros w bs w' H; simpl in H.
  - inversion H; subst. split; [constructor | by rewrite app_nil_r].
  - destruct (f x w) as [y w1] eqn:Ex.
    destruct (run_all f l w1) as [ys w2] eqn:El.
    destruct y as [b | e]; simpl in H; [| done].
    destruct (collect ys) as [bs' | e] eqn:Ec; [| done].
    inversion H; subst.
    destruct (Hf _ _ _ _ Ex) as [HQ Ht].
    destruct (IH w1 bs' w') as [HF Ht']; [by rewrite El, Ec |].
    split; [by constructor |].
    simpl. rewrite Ht', Ht. by rewrite <- app_assoc.
Qed.

End PromiseAll.

Section EmbeddingBatch.
Variable env : Env.
Variable svc : EmbeddingService.t.

Lemma createEmbedding_fulfilled text w r w' :
  EmbeddingService.createEmbedding env svc text w = (Ok r, w') ->
  (EmbeddingService.isAvailable svc = true /\ valid_text text = true /\ embeds text r)
  /\ embed_requests (trace w') = embed_requests (trace w) ++ [text].
Proof.
  intros H.
  destruct (EmbeddingService.isAvailable svc) eqn:Ha;
    [| destruct (createEmbedding_invalid env svc text w) as [e He]; [by left | congruence]].
  destruct (valid_text text) eqn:Hv;
    [| destruct (createEmbedding_invalid env svc text w) as [e He]; [by right | congruence]].
  rewrite (createEmbedding_valid env svc text w Ha Hv) in H.
  destruct (embed_api env (trace (ticked env w)) text) as [values | e]; [| done].
  destruct (len values =? 0) eqn:El; [done |].
  inversion H; subst. apply Z.eqb_neq in El.
  split.
  - repeat split; simpl; try done. pose proof (len_nonneg values). lia.
  - unfold embed_requests.
    by rewrite (omap_logged embed_request), (omap_ticked embed_request),
      (omap_after embed_request), (omap_ticked embed_request).
Qed.

Lemma sum_tokens_from (rs : list EmbeddingResult) (init : Z) :
  foldl (fun sum r => sum + emb_tokens_used r) init rs
  = init + foldr Z.add 0 (map emb_tokens_used rs).
Proof.
  revert init. induction rs as [| r rs IH]; intros init; simpl; [lia |].
  rewrite IH. lia.
Qed.

Lemma sum_tokens_sum rs :
  EmbeddingService.sum_tokens rs = foldr Z.add 0 (map emb_tokens_used rs).
Proof. unfold EmbeddingService.sum_tokens. by rewrite sum_tokens_from. Qed.

Lemma foldr_add_app (a b : list Z) :
  foldr Z.add 0 (a ++ b) = foldr Z.add 0 a + foldr Z.add 0 b.
Proof. induction a as [| x a IH]; simpl; lia. Qed.

(** The loop over the batches of five. *)
Lemma embedding_rounds (bs : list (list jsstring)) acc w acc' w' :
  for_of bs
    (fun (acc : list EmbeddingResult * Z) batch =>
       batchResults ← promise_all (EmbeddingService.createEmbedding env svc) batch;
       mret (acc.1 ++ batchResults, acc.2 + EmbeddingService.sum_tokens batchResults))
    acc w = (Ok acc', w') ->
  exists rs,
    acc'.1 = acc.1 ++ rs
    /\ acc'.2 = acc.2 + foldr Z.add 0 (map emb_tokens_used rs)
    /\ Forall2 (fun t r => (EmbeddingService.isAvailable svc = true
                            /\ valid_text t = true /\ embeds t r)) (concat bs) rs
    /\ embed_requests (trace w') = embed_requests (trace w) ++ concat bs.
Proof.
  revert acc w. induction bs as [| b bs IH]; intros acc w H; simpl in H.
  - inversion H; subst. exists []. simpl. rewrite !app_nil_r.
    repeat split; [lia | constructor].
  - unfold mbind at 1, M_bind at 1 in H.
    unfold mbind at 1, M_bind at 1 in H.
    destruct (promise_all (EmbeddingService.createEmbedding env svc) b w)
      as [[rs | e] w1] eqn:Eb; [| done].
    simpl in H.
    destruct (promise_all_fulfilled embed_request _ _ (fun t => [t])
                (createEmbedding_fulfilled) b w rs w1 Eb) as [HF Ht].
    destruct (IH _ _ H) as (rs' & H1 & H2 & H3 & H4). simpl in H1, H2.
    exists (rs ++ rs'). repeat split.
    + by rewrite H1, app_assoc.
    + rewrite H2, sum_tokens_sum, map_app, foldr_add_app. lia.
    + simpl. by apply Forall2_app.
    + fold (embed_requests (trace w1)) in Ht. rewrite H4, Ht. simpl.
      rewrite <- app_assoc. f_equal. f_equal.
      clear. induction b as [| t b IHb]; simpl; [done | by rewrite IHb].
Qed.

(** The vector of a fulfilled call is the answer of the embedding API. *)
Lemma createEmbedding_vector text w r w' :
  EmbeddingService.createEmbedding env svc text w = (Ok r, w') ->
  embed_api env (trace (ticked env w)) text = Ok (embedding r).
Proof.
  intros H.
  destruct (EmbeddingService.isAvailable svc) eqn:Ha;
    [| destruct (createEmbedding_invalid env svc text w) as [e He]; [by left | congruence]].
  destruct (valid_text text) eqn:Hv;
    [| destruct (createEmbedding_invalid env svc text w) as [e He]; [by right | congruence]].
  rewrite (createEmbedding_valid env svc text w Ha Hv) in H.
  destruct (embed_api env (trace (ticked env w)) text) as [values | e]; [| done].
  destruct (len values =? 0); [done |].
  by inversion H.
Qed.

(** [createEmbedding] talks to the embedding API only. *)
Lemma createEmbedding_searches text :
  silent search_request (EmbeddingService.createEmbedding env svc text).
Proof. unfold EmbeddingService.createEmbedding. repeat silent_step. Qed.

Lemma createEmbedding_upserts text :
  silent upsert_request (EmbeddingService.createEmbedding env svc text).
Proof. unfold EmbeddingService.createEmbedding. repeat silent_step. Qed.

End EmbeddingBatch.

Section EmbeddingBatchRun.
Variable env : Env.
Variable svc : EmbeddingService.t.

(** A fulfilled batch, with the world it leaves. *)
Lemma createEmbeddingBatch_run texts w b w' :
  EmbeddingService.createEmbeddingBatch env svc texts w = (Ok b, w') ->
  EmbeddingService.isAvailable svc = true
  /\ 1 <= len texts <= 100
  /\ Forall (fun t => valid_text t = true) texts
  /\ Forall2 embeds texts (embeddings b)
  /\ total_tokens b = foldr Z.add 0 (map token_estimate texts)
  /\ embed_requests (trace w') = embed_requests (trace w) ++ texts.
Proof.
  intros E.
  unfold EmbeddingService.createEmbeddingBatch in E.
  destruct (len texts =? 0) eqn:E0; [done |].
  destruct (100 <? len texts) eqn:E100; [done |].
  apply Z.eqb_neq in E0. apply Z.ltb_ge in E100.
  pose proof (len_nonneg texts) as Hn.
  unfold mbind at 1, M_bind at 1 in E.
  change (now env w) with (Ok (clock env (trace w)), ticked env w) in E.
  cbv beta iota in E.
  unfold try_catch at 1 in E.
  unfold mbind at 1, M_bind at 1 in E.
  destruct (for_of (batches 5 texts) _ ([], 0) (ticked env w)) as [[acc | e] w1] eqn:El;
    cycle 1.
  { exfalso. revert E. unfold mbind, M_bind, now, logError, emit, throw. simpl. done. }
  destruct (embedding_rounds env svc _ _ _ _ _ El) as (rs & H1 & H2 & H3 & H4).
  destruct (batches_spec 5 texts) as [_ Hc]; [lia |]. rewrite Hc in H3, H4.
  simpl in H1, H2.
  revert E. unfold mbind, M_bind, now, log_info, emit. simpl.
  intros E. inversion E; subst b w'; clear E. simpl.
  rewrite H1, H2.
  assert (texts <> []) as Hne by (intros ->; apply E0; reflexivity).
  repeat split.
  - destruct H3 as [| t r ts rs' (Ha & _) _]; [done | exact Ha].
  - lia.
  - lia.
  - clear -H3. induction H3 as [| t r ts rs' (_ & Hv & _) _ IH]; constructor; done.
  - clear -H3. induction H3 as [| t r ts rs' (_ & _ & He) _ IH]; constructor; done.
  - assert (map emb_tokens_used rs = map token_estimate texts) as ->; [| by rewrite Z.add_0_l].
    clear -H3.
    induction H3 as [| t r ts rs' (_ & _ & _ & He & _) _ IH]; simpl; [done |].
    by rewrite He, IH.
  - unfold embed_requests in *. rewrite !omap_app. simpl. rewrite !app_nil_r.
    rewrite H4. by rewrite (omap_ticked embed_request).
Qed.

Lemma createEmbeddingBatch_upserts texts :
  silent upsert_request (EmbeddingService.createEmbeddingBatch env svc texts).
Proof.
  unfold EmbeddingService.createEmbeddingBatch. repeat silent_step.
  apply createEmbedding_upserts.
Qed.

End EmbeddingBatchRun.

(** X6.  When [createEmbeddingBatch] fulfils, the service is available,
    there were between 1 and 100 texts and each of them passed the
    validation of [createEmbedding]; the result holds one embedding per
    text, in the order of the texts, each non-empty, of model
    [embedding-001] and with [ceil(length / 4)] tokens; [total_tokens] is
    the sum of these estimates; and the embedding API was sent exactly the
    texts, in order, once each. *)
Theorem createEmbeddingBatch_fulfilled (env : Env) (svc : EmbeddingService.t)
    (texts : list jsstring) (w : World) (b : EmbeddingBatch) :
  let run := EmbeddingService.createEmbeddingBatch env svc texts w in
  fst run = Ok b ->
  EmbeddingService.isAvailable svc = true
  /\ 1 <= len texts <= 100
  /\ Forall (fun t => valid_text t = true) texts
  /\ Forall2 embeds texts (embeddings b)
  /\ total_tokens b = foldr Z.add 0 (map token_estimate texts)
  /\ embed_requests (trace (snd run)) = embed_requests (trace w) ++ texts.
Proof.
  intros run H. subst run.
  destruct (EmbeddingService.createEmbeddingBatch env svc texts w) as [r w'] eqn:E.
  cbn [fst snd] in *. subst r.
  exact (createEmbeddingBatch_run env svc texts w b w' E).
Qed.

Lemma createEmbeddingBatch_fulfilled_witness :
  let texts := [lit "alpha"; lit "beta gamma"] in
  let run := EmbeddingService.createEmbeddingBatch env_up ready_embedding texts world0 in
  exists b,
    fst run = Ok b
    /\ Forall2 embeds texts (embeddings b)
    /\ total_tokens b = 5
    /\ embed_requests (trace (snd run)) = texts.
Proof.
  eexists. split; [vm_compute; reflexivity |].
  destruct (createEmbeddingBatch_fulfilled env_up ready_embedding
              [lit "alpha"; lit "beta gamma"] world0 _ ltac:(vm_compute; reflexivity))
    as (_ & _ & _ & HF & Ht & Hr).
  split; [exact HF |]. split; [| exact Hr].
  vm_compute. reflexivity.
Defined.

(** ** The vector store *)

(** X7.  When [search] fulfils, the vector service and the embedding
    service are available and the query passed the validation of
    [createEmbedding]; the embedding API was sent the query, once, and the
    index one search request: for the vector that came back, with the
    caller's limit and threshold, or 5 and 0.7 where the caller gave none
    or gave 0, and the caller's filter.  The results are the hits of the
    index, one result per hit and in the order of the index, however many
    they are. *)
Theorem search_fulfilled (env : Env) (emb : EmbeddingService.t) (svc : VectorService.t)
    (query : jsstring) (options : SearchOptions) (w : World)
    (results : list SearchResult) :
  let run := VectorService.search env emb svc query options w in
  fst run = Ok results ->
  exists qe hits w1,
    let params :=
      {| sp_vector := embedding qe;
         sp_limit := orZ (so_limit options) 5;
         sp_score_threshold := orQ (so_threshold options) (7 # 10);
         sp_with_payload := true;
         sp_filter := so_filter options |} in
    VectorService.isAvailable svc = true
    /\ EmbeddingService.isAvailable emb = true
    /\ valid_text query = true
    /\ embeds query qe
    /\ index_search env (trace w1) params = Ok hits
    /\ results = map VectorService.to_result hits
    /\ map sr_id results = map hit_id hits
    /\ map sr_score results = map hit_score hits
    /\ embed_requests (trace (snd run)) = embed_requests (trace w) ++ [query]
    /\ searches (trace (snd run)) = searches (trace w) ++ [params]
    /\ EmbeddingService.createEmbedding env emb query (ticked env w) = (Ok qe, w1)
    /\ embed_api env (trace (ticked env (ticked env w))) query = Ok (embedding qe).
Proof.
  intros run H. subst run.
  destruct (VectorService.search env emb svc query options w) as [r w'] eqn:E.
  cbn [fst snd] in *. subst r.
  unfold VectorService.search in E.
  destruct (negb (VectorService.isInitialized svc) || negb (VectorService.client svc))
    eqn:Ea; [done |].
  destruct (len (trim query) =? 0) eqn:Eq; [done |].
  unfold mbind at 1, M_bind at 1 in E.
  change (now env w) with (Ok (clock env (trace w)), ticked env w) in E.
  cbv beta iota in E.
  unfold try_catch at 1 in E.
  unfold mbind at 1, M_bind at 1 in E.
  destruct (EmbeddingService.createEmbedding env emb query (ticked env w))
    as [[qe | e] w1] eqn:Ee; cycle 1.
  { exfalso. revert E. unfold mbind, M_bind, now, logError, emit, throw. simpl. done. }
  destruct (createEmbedding_fulfilled env emb query _ _ _ Ee) as ((Hae & Hv & He) & Hr).
  unfold mbind at 1, M_bind at 1, request at 1 in E.
  destruct (index_search env (trace w1) _) as [hits | e] eqn:Es; cycle 1.
  { exfalso. revert E. unfold mbind, M_bind, now, logError, emit, throw. simpl. done. }
  revert E. unfold mbind, M_bind, now, log_info, emit. simpl.
  intros E. inversion E; subst results w'; clear E.
  exists qe, hits, w1. cbv zeta. destruct He as (He1 & He2 & He3).
  repeat split; try done.
  - unfold VectorService.isAvailable.
    by destruct (VectorService.isInitialized svc), (VectorService.client svc).
  - rewrite map_map. reflexivity.
  - rewrite map_map. reflexivity.
  - simpl. unfold embed_requests in *. rewrite !omap_app. simpl.
    rewrite !app_nil_r, Hr. by rewrite (omap_ticked embed_request).
  - simpl. unfold searches, embed_requests in *. rewrite !omap_app. simpl.
    rewrite !app_nil_r. f_equal.
    pose proof (createEmbedding_searches env emb query (ticked env w)) as Hs.
    rewrite Ee in Hs. cbn [snd] in Hs. rewrite Hs.
    by rewrite (omap_ticked search_request).
  - exact (createEmbedding_vector env emb query _ _ _ Ee).
Qed.

Lemma search_fulfilled_witness :
  let options := {| so_limit := Some 0; so_threshold := None; so_filter := None |} in
  let run := VectorService.search env_up ready_embedding ready_vector
               (lit "What is the budget?") options world0 in
  exists results,
    fst run = Ok results
    /\ map sr_id results = [lit "doc_x_chunk_000"]
    /\ map sp_limit (searches (trace (snd run))) = [5]
    /\ map sp_score_threshold (searches (trace (snd run))) = [(7 # 10)%Q]
    /\ embed_requests (trace (snd run)) = [lit "What is the budget?"].
Proof.
  eexists. split; [vm_compute; reflexivity |].
  destruct (search_fulfilled env_up ready_embedding ready_vector
              (lit "What is the budget?")
              {| so_limit := Some 0; so_threshold := None; so_filter := None |}
              world0 _ ltac:(vm_compute; reflexivity))
    as (qe & hits & w1 & _ & _ & _ & _ & _ & _ & _ & _ & Hr & Hs & _).
  cbv zeta. rewrite Hs, Hr. repeat split; vm_compute; reflexivity.
Defined.

Section AddDocuments.
Variable env : Env.
Variable emb : EmbeddingService.t.

Lemma to_point_stores (embs : list EmbeddingResult) (batch : list DocumentChunk) :
  Forall2 embeds (map chunk_content batch) embs ->
  Forall2 stores batch (imap (VectorService.to_point embs) batch).
Proof.
  intros HF. apply Forall2_same_length_lookup_2; [by rewrite length_imap |].
  intros i c p Hc Hp. rewrite list_lookup_imap, Hc in Hp. simpl in Hp.
  inversion Hp; subst p; clear Hp.
  assert (map chunk_content batch !! i = Some (chunk_content c)) as Ht
    by (by rewrite list_lookup_fmap, Hc).
  destruct (Forall2_lookup_l _ _ _ _ _ HF Ht) as (r & Hr & _ & _ & Hlen).
  unfold stores, VectorService.to_point. simpl. by rewrite Hr.
Qed.

(** A fulfilled round of the upsert loop. *)
Lemma add_batch_fulfilled addedCount batch w n w' :
  VectorService.add_batch env emb addedCount batch w = (Ok n, w') ->
  exists points,
    n = addedCount + len batch
    /\ EmbeddingService.isAvailable emb = true
    /\ Forall (fun c => valid_text (chunk_content c) = true) batch
    /\ Forall2 stores batch points
    /\ upserts (trace w') = upserts (trace w) ++ [points]
    /\ embed_requests (trace w') = embed_requests (trace w) ++ map chunk_content batch.
Proof.
  intros E. unfold VectorService.add_batch in E.
  unfold mbind at 1, M_bind at 1 in E.
  pose proof (createEmbeddingBatch_upserts env emb (map chunk_content batch) w) as Hu.
  destruct (EmbeddingService.createEmbeddingBatch env emb (map chunk_content batch) w)
    as [[b | e] w1] eqn:Eb; [| done].
  cbn [snd] in Hu.
  destruct (createEmbeddingBatch_run env emb _ _ _ _ Eb) as (Ha & _ & Hv & HF & _ & Hr).
  revert E. unfold mbind, M_bind, request.
  destruct (index_upsert env (trace w1) _) as [[] | e]; [| done].
  simpl. intros E. inversion E; subst n w'; clear E.
  eexists. split; [reflexivity |]. split; [exact Ha |].
  split; [by apply Forall_fmap in Hv |].
  split; [apply to_point_stores, HF |].
  simpl. unfold upserts, embed_requests in *. rewrite !omap_app. simpl.
  rewrite Hu, Hr, app_nil_r. done.
Qed.

(** The upsert loop, when every round fulfils. *)
Lemma add_rounds (bs : list (list DocumentChunk)) acc w n w' :
  for_of bs (VectorService.add_batch env emb) acc w = (Ok n, w') ->
  exists rounds,
    n = acc + len (concat bs)
    /\ (bs <> [] -> EmbeddingService.isAvailable emb = true)
    /\ Forall (fun c => valid_text (chunk_content c) = true) (concat bs)
    /\ Forall2 (Forall2 stores) bs rounds
    /\ upserts (trace w') = upserts (trace w) ++ rounds
    /\ embed_requests (trace w')
       = embed_requests (trace w) ++ map chunk_content (concat bs).
Proof.
  revert acc w. induction bs as [| b bs IH]; intros acc w H; simpl in H.
  - inversion H; subst. exists []. simpl. rewrite !app_nil_r.
    repeat split; [unfold len; simpl; lia | done | constructor | constructor].
  - unfold mbind at 1, M_bind at 1 in H.
    destruct (VectorService.add_batch env emb acc b w) as [[n1 | e] w1] eqn:Eb; [| done].
    destruct (add_batch_fulfilled _ _ _ _ _ Eb) as (ps & -> & Ha & Hv & HF & Hu & Hr).
    destruct (IH _ _ H) as (rounds & -> & _ & Hv' & HF' & Hu' & Hr').
    exists (ps :: rounds). repeat split.
    + simpl. rewrite len_app. lia.
    + done.
    + simpl. by apply Forall_app.
    + by constructor.
    + rewrite Hu', Hu. by rewrite <- app_assoc.
    + rewrite Hr', Hr. simpl. by rewrite map_app, <- app_assoc.
Qed.

End AddDocuments.

(** X8.  When [addDocuments] fulfils, it returns the number of chunks it
    was given; both services are available and the content of every chunk
    passed the validation of [createEmbedding].  The index was sent the
    chunks in rounds of at most 100, in order: one point per chunk, with
    the id, the content and the metadata of the chunk and a vector that is
    not empty; and the embedding API was sent the content of each chunk,
    once, in order. *)
Theorem addDocuments_fulfilled (env : Env) (emb : EmbeddingService.t)
    (svc : VectorService.t) (chunks : list DocumentChunk) (w : World) (n : Z) :
  let run := VectorService.addDocuments env emb svc chunks w in
  fst run = Ok n ->
  exists rounds : list (list Point),
    n = len chunks
    /\ VectorService.isAvailable svc = true
    /\ EmbeddingService.isAvailable emb = true
    /\ Forall (fun c => valid_text (chunk_content c) = true) chunks
    /\ upserts (trace (snd run)) = upserts (trace w) ++ rounds
    /\ Forall (fun points => 1 <= len points <= 100) rounds
    /\ Forall2 stores chunks (concat rounds)
    /\ embed_requests (trace (snd run))
       = embed_requests (trace w) ++ map chunk_content chunks.
Proof.
  intros run H. subst run.
  destruct (VectorService.addDocuments env emb svc chunks w) as [r w'] eqn:E.
  cbn [fst snd] in *. subst r.
  unfold VectorService.addDocuments in E.
  destruct (negb (VectorService.isInitialized svc) || negb (VectorService.client svc))
    eqn:Ea; [done |].
  destruct (len chunks =? 0) eqn:E0; [done |].
  apply Z.eqb_neq in E0.
  unfold mbind at 1, M_bind at 1 in E.
  change (now env w) with (Ok (clock env (trace w)), ticked env w) in E.
  cbv beta iota in E.
  unfold try_catch at 1 in E.
  unfold mbind at 1, M_bind at 1 in E.
  destruct (for_of (batches 100 chunks) _ 0 (ticked env w)) as [[m | e] w1] eqn:El;
    cycle 1.
  { exfalso. revert E. unfold mbind, M_bind, now, logError, emit, throw. simpl. done. }
  destruct (add_rounds env emb _ _ _ _ _ El) as (rounds & -> & Ha & Hv & HF & Hu & Hr).
  destruct (batches_spec 100 chunks) as [Hs Hc]; [lia |].
  rewrite Hc in Hv, Hr, E.
  revert E. unfold mbind, M_bind, now, log_info, emit. simpl.
  intros E. inversion E; subst n w'; clear E. simpl.
  exists rounds. repeat split.
  - unfold VectorService.isAvailable.
    by destruct (VectorService.isInitialized svc), (VectorService.client svc).
  - apply Ha. intros Hb. rewrite Hb in Hc. simpl in Hc. subst chunks. by apply E0.
  - exact Hv.
  - unfold upserts in *. rewrite !omap_app. simpl. rewrite !app_nil_r.
    rewrite Hu. by rewrite (omap_ticked upsert_request).
  - clear -Hs HF. induction HF as [| b ps bs pss Hbp _ IH]; [constructor |].
    inversion Hs; subst. constructor; [| by apply IH].
    unfold len in *. by rewrite <- (Forall2_length _ _ _ Hbp).
  - rewrite <- Hc at 1. clear -HF.
    induction HF as [| b ps bs pss Hbp _ IH]; simpl; [constructor | by apply Forall2_app].
  - unfold embed_requests in *. rewrite !omap_app. simpl. rewrite !app_nil_r.
    rewrite Hr. by rewrite (omap_ticked embed_request).
Qed.

Lemma addDocuments_fulfilled_witness :
  let chunks := replicate 150 sample_chunk in
  let run := VectorService.addDocuments env_up ready_embedding ready_vector chunks world0 in
  fst run = Ok 150
  /\ map length (upserts (trace (snd run))) = [100; 50]%nat
  /\ length (embed_requests (trace (snd run))) = 150%nat.
Proof.
  assert (fst (VectorService.addDocuments env_up ready_embedding ready_vector
                 (replicate 150 sample_chunk) world0) = Ok 150) as H
    by (vm_compute; reflexivity).
  split; [exact H |].
  destruct (addDocuments_fulfilled env_up ready_embedding ready_vector
              (replicate 150 sample_chunk) world0 150 H)
    as (rounds & _ & _ & _ & _ & Hu & _ & _ & Hr).
  split; [vm_compute; reflexivity |].
  rewrite Hr. vm_compute. reflexivity.
Defined.

(** X9.  Deleting a document never rejects at the processor: it resolves
    to [true] exactly when the vector store is available and the index
    accepted the delete request, and to [false] otherwise.  The index is
    sent one delete request for the document when the store is available
    and none when it is not; on the vector store itself the same call
    rejects when the store is not available, and the world is untouched. *)
Theorem deleteDocument_outcome (env : Env) (svc : VectorService.t)
    (documentId : jsstring) (w : World) :
  let run := DocumentProcessor.deleteDocument env svc documentId w in
  let accepted := fulfils (index_delete_by_document env (trace w) documentId) in
  fst run = Ok (VectorService.isAvailable svc && accepted)
  /\ omap document_delete (trace (snd run))
     = omap document_delete (trace w)
       ++ (if VectorService.isAvailable svc then [documentId] else [])
  /\ sessions (snd run) = sessions w
  /\ (VectorService.isAvailable svc = false ->
      VectorService.deleteDocument env svc documentId w
      = (Err (mkError (lit "Vector service is not initialized")), w)).
Proof.
  unfold DocumentProcessor.deleteDocument, VectorService.deleteDocument,
    VectorService.isAvailable.
  destruct (VectorService.isInitialized svc), (VectorService.client svc); cbn [negb orb andb];
    try (unfold try_catch, mbind, M_bind, log_warn, emit; simpl;
         rewrite omap_app; simpl; rewrite app_nil_r; done).
  unfold try_catch, mbind, M_bind, request, log_info, logError, emit. simpl.
  destruct (index_delete_by_document env (trace w) documentId); simpl;
    rewrite !omap_app; simpl; rewrite !app_nil_r; done.
Qed.

(** X10.  On an available vector store [deleteChunks] never rejects.  For
    an empty list of ids it resolves to 0 and the index is not contacted;
    otherwise the index is sent one delete request with all the ids, and
    the call resolves to the number of ids it was given when the index
    accepts the request, whatever number the index reports, and to 0 when
    the index refuses it. *)
Theorem deleteChunks_outcome (env : Env) (svc : VectorService.t)
    (chunkIds : list jsstring) (w : World) :
  VectorService.isAvailable svc = true ->
  let run := VectorService.deleteChunks env svc chunkIds w in
  let accepted := fulfils (index_delete_points env (trace w) chunkIds) in
  fst run = Ok (if accepted then len chunkIds else 0)
  /\ omap point_delete (trace (snd run))
     = omap point_delete (trace w) ++ (if len chunkIds =? 0 then [] else [chunkIds])
  /\ (chunkIds = [] -> snd run = w).
Proof.
  intros Ha. unfold VectorService.isAvailable in Ha.
  apply andb_true_iff in Ha as [Hi Hc].
  unfold VectorService.deleteChunks. rewrite Hi, Hc. cbn [negb orb].
  destruct chunkIds as [| c ids].
  - simpl. rewrite app_nil_r. by destruct (index_delete_points env (trace w) []).
  - assert ((len (c :: ids) =? 0) = false) as ->.
    { apply Z.eqb_neq. unfold len. simpl. lia. }
    unfold try_catch, mbind, M_bind, request, log_info, logError, emit. simpl.
    destruct (index_delete_points env (trace w) (c :: ids)); simpl;
      rewrite !omap_app; simpl; rewrite !app_nil_r; done.
Qed.

Lemma deleteChunks_outcome_witness :
  let ids := [lit "doc_x_chunk_000"; lit "doc_x_chunk_001"] in
  fst (VectorService.deleteChunks env_up ready_vector ids world0) = Ok 2
  /\ index_delete_points env_up [] ids = Ok 1
  /\ fst (VectorService.deleteChunks env_down ready_vector ids world0) = Ok 0.
Proof.
  destruct (deleteChunks_outcome env_up ready_vector
              [lit "doc_x_chunk_000"; lit "doc_x_chunk_001"] world0 eq_refl)
    as (H & _).
  split; [exact H |]. split; [reflexivity |]. vm_compute. reflexivity.
Defined.

(** ** The generation service *)

Section GenerationMore.
Variable env : Env.
Variable svc : GenerationService.t.

(** The requests of a call, with the model and the options they carry. *)
Lemma generateResponse_calls messages options w :
  let model := orS (model options) (lit "auto") in
  provider_calls
    (trace (snd (GenerationService.generateResponse env svc messages options w)))
  = provider_calls (trace w)
    ++ map (fun p => (p, (GenerationService.select svc model).2, defaultOptions options))
         (probed svc model).
Proof.
  unfold GenerationService.generateResponse, probed.
  destruct (len _ =? 0); [simpl; by rewrite app_nil_r |].
  cbv zeta.
  destruct (GenerationService.provider_of _) as [p |] eqn:Ep.
  - unfold GenerationService.generateWith.
    destruct (GenerationService.client_of svc p) eqn:Ec; simpl.
    + unfold try_catch, mbind, M_bind, request, now, logError, log_info, emit, throw. simpl.
      destruct (provider_api env _ p _ messages _) as [a | e]; simpl;
        unfold provider_calls; rewrite !omap_app; simpl; by rewrite ?app_nil_r.
    + unfold try_catch, mbind, M_bind, now, logError, emit, throw. simpl.
      unfold provider_calls; rewrite !omap_app; simpl; by rewrite ?app_nil_r.
  - unfold try_catch, mbind, M_bind, now, logError, emit, throw. simpl.
    unfold provider_calls; rewrite !omap_app; simpl; by rewrite ?app_nil_r.
Qed.

(** How a call settles: with the answer of the one provider it asked, or
    with a rejection. *)
Lemma generateResponse_settles messages options w :
  let model := orS (model options) (lit "auto") in
  let selected := GenerationService.select svc model in
  match fst (GenerationService.generateResponse env svc messages options w) with
  | Ok result =>
    exists p a tr,
      probed svc model = [p]
      /\ provider_api env tr p selected.2 messages (defaultOptions options) = Ok a
      /\ gen_content result = ans_content a
      /\ gen_tokens_used result = ans_tokens_used a
      /\ gen_model result = selected.2
      /\ gen_provider result = GenerationService.provider_name p
  | Err e =>
    match probed svc model with
    | [] =>
      e = mkError (lit "No AI providers available")
      \/ (exists p, GenerationService.provider_of selected.1 = Some p
                    /\ e = mkError (lit "Generation failed: "
                                    ++ GenerationService.not_initialized p))
      \/ e = mkError (lit "Generation failed: " ++ lit "Unsupported provider: " ++ selected.1)
    | _ => exists e0, e = mkError (lit "Generation failed: " ++ error_message e0)
    end
  end.
Proof.
  unfold GenerationService.generateResponse, probed.
  destruct (len _ =? 0); [simpl; by left |].
  cbv zeta.
  destruct (GenerationService.provider_of _) as [p |] eqn:Ep.
  - unfold GenerationService.generateWith.
    destruct (GenerationService.client_of svc p) eqn:Ec; simpl.
    + unfold try_catch, mbind, M_bind, request, now, logError, log_info, emit, throw. simpl.
      destruct (provider_api env _ p _ messages _) as [a | e] eqn:Ea; simpl.
      * exists p, a. eexists. repeat split. exact Ea.
      * by exists e.
    + unfold try_catch, mbind, M_bind, now, logError, emit, throw. simpl.
      right. left. by exists p.
  - unfold try_catch, mbind, M_bind, now, logError, emit, throw. simpl.
    right. right. done.
Qed.

Lemma defaultOptions_never_zero options : never_zero (defaultOptions options).
Proof.
  unfold never_zero, defaultOptions. simpl. repeat split.
  - eexists. split; [reflexivity |]. unfold orZ.
    destruct (max_tokens options) as [n |]; [| done].
    destruct (n =? 0) eqn:E; [done | by apply Z.eqb_neq].
  - eexists. split; [reflexivity |]. unfold orQ.
    destruct (temperature options) as [t |]; [| done].
    destruct (Qeq_bool t 0) eqn:E; [done | by apply Qeq_bool_neq].
  - eexists. split; [reflexivity |]. unfold orQ.
    destruct (top_p options) as [t |]; [| done].
    destruct (Qeq_bool t 0) eqn:E; [done | by apply Qeq_bool_neq].
Qed.

Lemma probed_short model : (length (probed svc model) <= 1)%nat.
Proof.
  unfold probed. destruct (len _ =? 0); [simpl; lia |].
  destruct (GenerationService.provider_of _) as [p |]; [| simpl; lia].
  destruct (GenerationService.client_of svc p); simpl; lia.
Qed.

End GenerationMore.

(** X11.  A call of [generateResponse] sends at most one request, to one
    provider: there is no second attempt and no other provider is tried.
    The options of the request are never the caller's as they are: the
    limit, the temperature and [top_p] are present and not zero (a 0 of
    the caller is replaced by 1000, 0.7 and 0.9), and [top_k] and the stop
    sequences are dropped.  When the call fulfils, the request was sent and
    the result carries the content and the token count of that provider's
    answer, the model of the request and the name of the provider; when no
    request was sent, the call rejects. *)
Theorem generateResponse_one_request (env : Env) (svc : GenerationService.t)
    (messages : list ChatMessage) (options : GenerationOptions) (w : World) :
  let run := GenerationService.generateResponse env svc messages options w in
  exists calls,
    provider_calls (trace (snd run)) = provider_calls (trace w) ++ calls
    /\ (length calls <= 1)%nat
    /\ Forall (fun call => never_zero call.2) calls
    /\ match fst run with
       | Ok result =>
         exists p a tr,
           calls = [(p, gen_model result, defaultOptions options)]
           /\ provider_api env tr p (gen_model result) messages (defaultOptions options)
              = Ok a
           /\ gen_content result = ans_content a
           /\ gen_tokens_used result = ans_tokens_used a
           /\ gen_provider result = GenerationService.provider_name p
       | Err e => True
       end
    /\ (calls = [] -> exists e, fst run = Err e).
Proof.
  intros run. subst run.
  eexists. split; [apply generateResponse_calls |]. cbv zeta.
  split; [rewrite length_map; apply probed_short |].
  split.
  { apply Forall_forall. intros call Hc. apply list_elem_of_fmap in Hc as (p & -> & _).
    apply defaultOptions_never_zero. }
  pose proof (generateResponse_settles env svc messages options w) as H. cbv zeta in H.
  destruct (fst (GenerationService.generateResponse env svc messages options w))
    as [result | e].
  - destruct H as (p & a & tr & Hp & Ha & Hc & Ht & Hm & Hn).
    split.
    + exists p, a, tr. rewrite Hp, Hm. simpl. done.
    + rewrite Hp. done.
  - split; [done |]. eauto.
Qed.

(** X12.  There is no failover: when the model asked for belongs to a
    provider that has no client, the call rejects with that provider's
    [not initialized] message and no request is sent to anyone, although
    other providers are available. *)
Theorem generateResponse_no_failover (env : Env) (svc : GenerationService.t)
    (messages : list ChatMessage) (options : GenerationOptions) (w : World)
    (p : Provider) :
  let model := orS (model options) (lit "auto") in
  let run := GenerationService.generateResponse env svc messages options w in
  GenerationService.availableProviders svc <> [] ->
  GenerationService.provider_of (GenerationService.select svc model).1 = Some p ->
  GenerationService.client_of svc p = false ->
  fst run = Err (mkError (lit "Generation failed: " ++ GenerationService.not_initialized p))
  /\ provider_calls (trace (snd run)) = provider_calls (trace w).
Proof.
  intros model run Hav Hp Hc. subst run model.
  assert (probed svc (orS (Types.model options) (lit "auto")) = []) as Hprobed.
  { unfold probed. destruct (len _ =? 0); [done |]. by rewrite Hp, Hc. }
  split.
  - unfold GenerationService.generateResponse.
    destruct (len (GenerationService.availableProviders svc) =? 0) eqn:E0.
    { apply Z.eqb_eq in E0. destruct (GenerationService.availableProviders svc); [done |].
      unfold len in E0. simpl in E0. lia. }
    cbv zeta. rewrite Hp. unfold GenerationService.generateWith. rewrite Hc. reflexivity.
  - rewrite generateResponse_calls. cbv zeta. rewrite Hprobed. simpl. apply app_nil_r.
Qed.

Lemma generateResponse_no_failover_witness :
  let svc := GenerationService.initialize (keys true false false false) in
  let options := {| max_tokens := None; temperature := None; top_p := None;
                    top_k := None; stop_sequences := None;
                    model := Some (lit "gpt-4o") |} in
  let run := GenerationService.generateResponse env_up svc
               GenerationService.testMessages options world0 in
  fst run = Err (mkError (lit "Generation failed: OpenAI not initialized"))
  /\ provider_calls (trace (snd run)) = []
  /\ (forall tr m ms o, provider_api env_up tr Google m ms o = Ok ok_answer).
Proof.
  cbv zeta.
  destruct (generateResponse_no_failover env_up
              (GenerationService.initialize (keys true false false false))
              GenerationService.testMessages
              {| max_tokens := None; temperature := None; top_p := None;
                 top_k := None; stop_sequences := None;
                 model := Some (lit "gpt-4o") |}
              world0 OpenAI
              ltac:(vm_compute; discriminate)
              ltac:(vm_compute; reflexivity)
              ltac:(vm_compute; reflexivity)) as [H1 H2].
  split; [rewrite H1; vm_compute; reflexivity |].
  split; [rewrite H2; reflexivity |].
  reflexivity.
Defined.

Section AutoModel.

Lemma probed_auto k :
  let svc := GenerationService.initialize k in
  probed svc (lit "auto") = option_list (first_configured k)
  /\ (GenerationService.select svc (lit "auto")).2
     = GenerationService.getDefaultModelForProvider (GenerationService.first_provider svc)
  /\ (forall p, first_configured k = Some p ->
        GenerationService.first_provider svc = GenerationService.provider_name p).
Proof.
  destruct k as [[] [] [] []]; cbv zeta; (split; [vm_compute; reflexivity |]);
    (split; [vm_compute; reflexivity |]);
    intros p Hp; vm_compute in Hp; inversion Hp; subst p; vm_compute; reflexivity.
Qed.

End AutoModel.



(** X14.  The catalogue of [getAvailableModels] agrees with the routing of
    model names: it lists exactly the available providers among google,
    openai, anthropic and cohere; every model it lists under a provider is
    routed to that provider, under its own name, by [parseModelString];
    and the default model of a listed provider is one of the models listed
    for it. *)
Theorem getAvailableModels_routed (svc : GenerationService.t)
    (provider : jsstring) (models : list jsstring) :
  getAvailableModels svc !! provider = Some models ->
  provider ∈ GenerationService.availableProviders svc
  /\ (exists p, GenerationService.provider_of provider = Some p)
  /\ GenerationService.getDefaultModelForProvider provider ∈ models
  /\ forall m, m ∈ models ->
       GenerationService.parseModelString svc m = (provider, m)
       /\ GenerationService.select svc m = (provider, m).
Proof.
  unfold getAvailableModels. cbv zeta.
  destruct (bool_decide (lit "google" ∈ _)) eqn:Eg;
  destruct (bool_decide (lit "openai" ∈ _)) eqn:Eo;
  destruct (bool_decide (lit "anthropic" ∈ _)) eqn:Ea;
  destruct (bool_decide (lit "cohere" ∈ _)) eqn:Ec;
  intros H;
  repeat (apply lookup_insert_Some in H as [[<- <-] | [_ H]];
          [ split; [eapply bool_decide_eq_true_1; eassumption |];
            split; [eexists; vm_compute; reflexivity |];
            split; [vm_compute; set_solver |];
            intros m Hm;
            repeat (apply elem_of_cons in Hm; destruct Hm as [-> | Hm];
                    [split; vm_compute; reflexivity |]);
            by apply elem_of_nil in Hm
          |]);
  by rewrite lookup_empty in H.
Qed.

Lemma getAvailableModels_routed_witness :
  let svc := GenerationService.initialize (keys false false true false) in
  getAvailableModels svc !! lit "anthropic"
  = Some [lit "claude-3-5-sonnet-20241022"; lit "claude-3-5-haiku-20241022"]
  /\ GenerationService.parseModelString svc (lit "claude-3-5-sonnet-20241022")
     = (lit "anthropic", lit "claude-3-5-sonnet-20241022").
Proof.
  cbv zeta.
  assert (getAvailableModels (GenerationService.initialize (keys false false true false))
            !! lit "anthropic"
          = Some [lit "claude-3-5-sonnet-20241022"; lit "claude-3-5-haiku-20241022"]) as H
    by (vm_compute; reflexivity).
  split; [exact H |].
  destruct (getAvailableModels_routed _ _ _ H) as (_ & _ & _ & Hm).
  apply Hm. apply elem_of_cons. by left.
Defined.

(** ** The chat route: validation and bookkeeping *)

Section ChatMore.
Variable env : Env.
Variable app : Chat.Services.

(** The session steps of the handler, with the id they settle on and the
    session they start from. *)
Lemma begin_turn_session req message w :
  exists sid old stamp activity w0,
    let session := Chat.count_message
                     (Chat.push_message old (Chat.user_message message stamp) activity) in
    Chat.begin_turn env req message w = (Ok (sid, session), w0)
    /\ sid = match req_session_id req with
             | Some (c :: r) => c :: r
             | _ => uuid env (trace w)
             end
    /\ match sessions w !! sid with
       | Some s => old = s
       | None => exists created last, old = Chat.new_session sid created last
       end
    /\ sessions w0 = <[sid := session]> (sessions w).
Proof.
  assert (exists sid w0, Chat.resolve_session_id env req w = (Ok sid, w0)
            /\ sessions w0 = sessions w
            /\ sid = match req_session_id req with
                     | Some (c :: r) => c :: r
                     | _ => uuid env (trace w)
                     end)
    as (sid & w0 & Er & Sr & Hr).
  { unfold Chat.resolve_session_id. destruct (req_session_id req) as [[| c r] |];
      do 2 eexists; (split; [reflexivity |]); split; done. }
  assert (exists old w1, Chat.get_or_create env sid w0 = (Ok old, w1)
            /\ match sessions w0 !! sid with
               | Some s => old = s /\ sessions w1 = sessions w0
               | None => (exists created last, old = Chat.new_session sid created last)
                         /\ sessions w1 = <[sid := old]> (sessions w0)
               end)
    as (old & w1 & Eg & Hg).
  { unfold Chat.get_or_create, get_sessions, mbind, M_bind.
    destruct (sessions w0 !! sid) as [s |] eqn:El.
    - do 2 eexists. split; [reflexivity |]. done.
    - do 2 eexists. split; [reflexivity |]. split; [| done]. eauto. }
  exists sid, old. unfold Chat.begin_turn.
  unfold mbind at 1, M_bind at 1. rewrite Er.
  unfold mbind at 1, M_bind at 1. rewrite Eg.
  unfold now, Chat.store_session, get_sessions, put_sessions, log_info, emit, mbind, M_bind.
  simpl. do 3 eexists. split; [reflexivity |]. split; [exact Hr |].
  rewrite <- Sr. destruct (sessions w0 !! sid) as [s |].
  - destruct Hg as [-> ->]. done.
  - destruct Hg as [Hn ->]. split; [exact Hn |]. simpl. by rewrite insert_insert_eq.
Qed.

Lemma limit_history_keeps session :
  session_id (Chat.limit_history session) = session_id session
  /\ created_at (Chat.limit_history session) = created_at session
  /\ last_activity (Chat.limit_history session) = last_activity session
  /\ message_count (Chat.limit_history session) = message_count session.
Proof. unfold Chat.limit_history. by destruct (10 <? len (history session)). Qed.

End ChatMore.

(** X15.  The chat handler refuses a request, with status 400 and before
    anything else happens (no session is created, nothing is logged, no
    collaborator is asked), exactly when the message is absent, empty or
    blank (code [EMPTY_MESSAGE]) or has more than 4000 units (code
    [MESSAGE_TOO_LONG]); a message of blanks is reported as empty however
    long it is. *)
Theorem post_chat_validation (env : Env) (app : Chat.Services) (req : ChatRequest)
    (w : World) :
  let message := default [] (req_message req) in
  let run := Chat.post_chat env app req w in
  (len (trim message) = 0 ->
   run = (Ok (Failure (lit "Message is required") (lit "EMPTY_MESSAGE") 400), w))
  /\ (len (trim message) <> 0 -> 4000 < len message ->
      run = (Ok (Failure (lit "Message too long (max: 4000 characters)")
                   (lit "MESSAGE_TOO_LONG") 400), w))
  /\ (len (trim message) <> 0 -> len message <= 4000 ->
      exists resp, fst run = Ok (Success resp))
  /\ ((exists message code, fst run = Ok (Failure message code 400))
      <-> Chat.valid_request req = false).
Proof.
  intros message run. subst message run.
  assert (Chat.valid_request req = true ->
          exists resp, fst (Chat.post_chat env app req w) = Ok (Success resp)) as Hok.
  { intros Hv. destruct (post_chat_chain env app req w Hv)
      as (sid & old & stamp & activity & w0 & found & wg & ai & wg' & stamp2 & activity2
          & pt & w' & H). cbv zeta in H.
    destruct H as (_ & _ & _ & _ & _ & Hp & _). rewrite Hp. eauto. }
  split; [| split; [| split]].
  - intros H0. unfold Chat.post_chat.
    cbv zeta. apply Z.eqb_eq in H0. rewrite H0. reflexivity.
  - intros H0 H1. unfold Chat.post_chat.
    cbv zeta. apply Z.eqb_neq in H0. apply Z.ltb_lt in H1. rewrite H0, H1. reflexivity.
  - intros H0 H1. apply Hok. unfold Chat.valid_request. cbv zeta.
    apply Z.eqb_neq in H0. apply Z.ltb_ge in H1. by rewrite H0, H1.
  - split.
    + intros (m & c & Hf). destruct (Chat.valid_request req) eqn:Hv; [| done].
      destruct (Hok eq_refl) as [resp Hr]. congruence.
    + intros Hv. destruct (post_chat_invalid env app req w Hv) as (m & c & ->). eauto.
Qed.

Lemma post_chat_validation_witness :
  let blank := ask (replicate 5000 (char " ")) None in
  let long := ask (replicate 4001 (char "a")) None in
  let longest := ask (replicate 4000 (char "a")) None in
  let app := app_with (keys false false false false) in
  Chat.post_chat env_down app blank world0
  = (Ok (Failure (lit "Message is required") (lit "EMPTY_MESSAGE") 400), world0)
  /\ Chat.post_chat env_down app long world0
     = (Ok (Failure (lit "Message too long (max: 4000 characters)")
              (lit "MESSAGE_TOO_LONG") 400), world0)
  /\ exists resp, fst (Chat.post_chat env_down app longest world0) = Ok (Success resp).
Proof.
  cbv zeta. split; [| split].
  - apply (post_chat_validation env_down (app_with (keys false false false false))
             (ask (replicate 5000 (char " ")) None) world0).
    vm_compute. reflexivity.
  - apply (post_chat_validation env_down (app_with (keys false false false false))
             (ask (replicate 4001 (char "a")) None) world0).
    + vm_compute. discriminate.
    + vm_compute. reflexivity.
  - apply (post_chat_validation env_down (app_with (keys false false false false))
             (ask (replicate 4000 (char "a")) None) world0).
    + vm_compute. discriminate.
    + vm_compute. discriminate.
Defined.

(** X16.  A valid chat request is booked on one session and touches no
    other: the session named by the request or, when the request names
    none (or an empty id), the session of the id drawn from the generator.
    An existing session keeps its id and its creation time and its
    [message_count] goes up by one: the count is of requests, not of
    stored messages, so the answer is not counted and the cap on the
    history does not show in it.  A session that did not exist is created
    under that id with a count of 1. *)
Theorem post_chat_bookkeeping (env : Env) (app : Chat.Services) (req : ChatRequest)
    (w : World) :
  Chat.valid_request req = true ->
  let run := Chat.post_chat env app req w in
  exists resp s',
    let sid := resp_session_id resp in
    fst run = Ok (Success resp)
    /\ sid = match req_session_id req with
             | Some (c :: r) => c :: r
             | _ => uuid env (trace w)
             end
    /\ sessions (snd run) = <[sid := s']> (sessions w)
    /\ (forall other, other <> sid -> sessions (snd run) !! other = sessions w !! other)
    /\ match sessions w !! sid with
       | Some old =>
         session_id s' = session_id old
         /\ created_at s' = created_at old
         /\ message_count s' = message_count old + 1
       | None => session_id s' = sid /\ message_count s' = 1
       end.
Proof.
  intros Hv run. subst run.
  destruct (begin_turn_session env req (default [] (req_message req)) w)
    as (sid & old & stamp & activity & w0 & Eb & Hsid & Hold & Hs0).
  cbv zeta in Eb, Hs0.
  pose proof (post_chat_run env app req w _ _ _ Hv Eb) as Ep.
  match type of Ep with _ = Chat.run_pipeline _ _ ?m ?s ?ss ?mt ?t ?st ?ww =>
    destruct (run_pipeline_spec env app m s ss mt t st ww)
      as (found & wg & ai & wg' & stamp2 & activity2 & pt & w' & Es & Eg & Er & Hs')
  end.
  rewrite Er in Ep. rewrite Ep. cbn [fst snd].
  eexists. eexists. cbv zeta. cbn [resp_session_id].
  split; [reflexivity |]. split; [exact Hsid |].
  assert (sessions w' = <[sid := Chat.limit_history
                                   (Chat.push_message
                                      (Chat.count_message
                                         (Chat.push_message old
                                            (Chat.user_message (default [] (req_message req))
                                               stamp) activity))
                                      (Chat.assistant_message ai found stamp2) activity2)]>
                          (sessions w)) as Hw'.
  { rewrite Hs'. simpl. rewrite Hs0. apply insert_insert_eq. }
  split; [exact Hw' |].
  split; [intros other Ho; rewrite Hw'; by apply lookup_insert_ne |].
  destruct (limit_history_keeps
              (Chat.push_message
                 (Chat.count_message
                    (Chat.push_message old
                       (Chat.user_message (default [] (req_message req)) stamp) activity))
                 (Chat.assistant_message ai found stamp2) activity2))
    as (K1 & K2 & _ & K4).
  rewrite K1, K2, K4. simpl.
  destruct (sessions w !! sid) as [s |].
  - subst old. done.
  - destruct Hold as (c & l & ->). simpl. done.
Qed.

Lemma post_chat_bookkeeping_witness :
  let run := Chat.post_chat env_google_up (app_with (keys true false false false))
               (ask (lit "What is the budget?") None) world0 in
  exists resp s',
    fst run = Ok (Success resp)
    /\ resp_session_id resp = lit "00000000-0000-4000-8000-000000000000"
    /\ sessions (snd run) = {[ resp_session_id resp := s' ]}
    /\ message_count s' = 1
    /\ len (history s') = 2.
Proof.
  cbv zeta.
  destruct (post_chat_bookkeeping env_google_up (app_with (keys true false false false))
              (ask (lit "What is the budget?") None) world0 eq_refl)
    as (resp & s' & H). cbv zeta in H. destruct H as (Hr & Hsid & Hs & _ & Hm).
  exists resp, s'. split; [exact Hr |].
  split; [rewrite Hsid; reflexivity |].
  split; [rewrite Hs; reflexivity |].
  rewrite Hsid in Hm. split; [exact (proj2 Hm) |].
  assert (history <$> sessions (snd (Chat.post_chat env_google_up
            (app_with (keys true false false false))
            (ask (lit "What is the budget?") None) world0))
          !! lit "00000000-0000-4000-8000-000000000000"
          = history <$> Some s') as Hh.
  { rewrite Hs, Hsid. simpl. by rewrite lookup_insert_eq. }
  revert Hh. vm_compute. intros [= <-]. reflexivity.
Defined.

(** ** The session routes *)

(** X17.  The life of a session made by [POST /session]: the handler
    answers with the id it drew from the generator and stores an empty
    session under it, replacing whatever was stored under that id; [GET
    /history] of that id then shows no message and a count of 0, and
    changes nothing; [DELETE /session] removes that session and no other,
    after which both the history and a second delete answer 404
    [SESSION_NOT_FOUND]. *)
Theorem session_life_cycle (env : Env) (w : World) :
  let sid := uuid env (trace w) in
  let made := ChatSessions.post_session env w in
  let w1 := snd made in
  let shown := ChatSessions.get_history sid w1 in
  let gone := ChatSessions.delete_session sid w1 in
  let w2 := snd gone in
  fst made = Ok (Replied {| new_session_id := sid;
                            new_session_message := lit "New session created successfully" |})
  /\ (exists h,
        shown = (Ok (Replied h), w1)
        /\ hist_session_id h = sid
        /\ hist_messages h = []
        /\ hist_message_count h = 0)
  /\ (forall other, other <> sid -> sessions w1 !! other = sessions w !! other)
  /\ fst gone = Ok (Replied (lit "Session deleted successfully"))
  /\ sessions w2 = delete sid (sessions w)
  /\ ChatSessions.get_history sid w2
     = (Ok (Refused (lit "Session not found") (lit "SESSION_NOT_FOUND") 404), w2)
  /\ ChatSessions.delete_session sid w2
     = (Ok (Refused (lit "Session not found") (lit "SESSION_NOT_FOUND") 404), w2).
Proof.
  cbv zeta.
  unfold ChatSessions.post_session, ChatSessions.get_history, ChatSessions.delete_session,
    Chat.store_session, try_catch, mbind, M_bind, uuidv4, now, get_sessions, put_sessions,
    log_info, emit, mret, M_ret.
  cbn [fst snd trace sessions].
  rewrite lookup_insert_eq.
  rewrite (bool_decide_eq_true_2 (is_Some (Some _))); [| eauto].
  cbn [fst snd trace sessions].
  rewrite lookup_delete_eq.
  rewrite (bool_decide_eq_false_2 (is_Some None)); [| by intros [? ?]].
  split; [reflexivity |].
  split; [eexists; split; [reflexivity |]; done |].
  split; [intros other Ho; by apply lookup_insert_ne |].
  split; [reflexivity |].
  split; [apply delete_insert_eq |].
  split; reflexivity.
Qed.

(** X18.  What [GET /history] shows after a chat request: never a 404 for
    the session of the answer, and as messages the last ten of the
    messages the session had before, followed by the message of the
    request and the answer that was sent. *)
Theorem history_after_chat (env : Env) (app : Chat.Services) (req : ChatRequest)
    (w : World) :
  Chat.valid_request req = true ->
  let run := Chat.post_chat env app req w in
  exists resp h um am,
    let sid := resp_session_id resp in
    let before := default [] (history <$> sessions w !! sid) in
    fst run = Ok (Success resp)
    /\ ChatSessions.get_history sid (snd run) = (Ok (Replied h), snd run)
    /\ spoken um = (user, default [] (req_message req))
    /\ spoken am = (assistant, answer resp)
    /\ hist_messages h = last_n 10 (before ++ [um; am])
    /\ 2 <= len (hist_messages h) <= 10.
Proof.
  intros Hv run. subst run.
  destruct (post_chat_history env app req w Hv)
    as (resp & w' & old & um & am & s' & H). cbv zeta in H.
  destruct H as (Hp & _ & Hold & Hum & Ham & Hs & Hh & Hlen).
  rewrite Hp. cbn [fst snd].
  eexists resp, _, um, am. cbv zeta.
  split; [reflexivity |].
  unfold ChatSessions.get_history, try_catch, mbind, M_bind, get_sessions.
  cbn [fst snd]. rewrite Hs, lookup_insert_eq.
  split; [reflexivity |]. cbn [hist_messages].
  split; [exact Hum |]. split; [exact Ham |].
  assert (default [] (history <$> sessions w !! resp_session_id resp) = history old) as ->.
  { destruct Hold as [-> | [-> ->]]; reflexivity. }
  split; [exact Hh |]. split; [| exact Hlen].
  rewrite Hh. unfold last_n, len. rewrite length_drop, length_app. simpl. lia.
Qed.

Lemma history_after_chat_witness :
  let run := Chat.post_chat env_google_up (app_with (keys true false false false))
               (ask (lit "What is the budget?") (Some (lit "s-1"))) world0 in
  exists h,
    ChatSessions.get_history (lit "s-1") (snd run) = (Ok (Replied h), snd run)
    /\ map spoken (hist_messages h)
       = [(user, lit "What is the budget?"); (assistant, lit "OK")].
Proof.
  cbv zeta.
  destruct (history_after_chat env_google_up (app_with (keys true false false false))
              (ask (lit "What is the budget?") (Some (lit "s-1"))) world0 eq_refl)
    as (resp & h & um & am & H). cbv zeta in H.
  destruct H as (Hr & Hg & _).
  assert (resp_session_id resp = lit "s-1") as Hsid.
  { revert Hr. vm_compute. intros [= <-]. reflexivity. }
  rewrite Hsid in Hg. exists h. split; [exact Hg |].
  revert Hg. vm_compute. intros [= <-]. reflexivity.
Defined.

Section Cleanup.
Variable env : Env.

Lemma cleanup_rounds (t : Z) (l : list (jsstring * ConversationSession)) w :
  exists w' lines,
    for_of l (ChatSessions.cleanup_round t 3600000) tt w = (Ok tt, w')
    /\ sessions w' = foldl (sweep t) (sessions w) l
    /\ trace w' = trace w ++ map (Log LInfo) lines.
Proof.
  revert w. induction l as [| entry l IH]; intros w; simpl.
  - exists w, []. simpl. by rewrite app_nil_r.
  - unfold mbind at 1, M_bind at 1.
    unfold ChatSessions.cleanup_round at 1, sweep at 2.
    destruct (3600000 <? t - last_activity entry.2).
    + unfold mbind, M_bind, get_sessions, put_sessions, log_info, emit. simpl.
      match goal with |- context [for_of l _ tt ?w1] =>
        destruct (IH w1) as (w' & lines & E & Hs & Ht) end.
      exists w', (lit "Expired session cleaned up" :: lines).
      split; [exact E |]. split; [exact Hs |].
      rewrite Ht. simpl. by rewrite <- app_assoc.
    + unfold mret at 1, M_ret at 1. cbv beta iota.
      destruct (IH w) as (w' & lines & E & Hs & Ht). exists w', lines. done.
Qed.

Lemma sweep_lookup (t : Z) (l : list (jsstring * ConversationSession)) m k :
  foldl (sweep t) m l !! k
  = if decide (Exists (fun entry => entry.1 = k /\ expired t entry.2) l) then None
    else m !! k.
Proof.
  revert m. induction l as [| entry l IH]; intros m; cbn [foldl].
  - case_decide as H; [by apply Exists_nil in H | done].
  - rewrite IH. unfold sweep, expired.
    destruct (decide (Exists _ l)) as [Hl | Hl].
    + rewrite decide_True; [done | by apply Exists_cons_tl].
    + destruct (3600000 <? t - last_activity entry.2) eqn:E.
      * apply Z.ltb_lt in E. destruct (decide (entry.1 = k)) as [Hk | Hk].
        -- rewrite decide_True; [| by apply Exists_cons_hd].
           subst k. apply lookup_delete_eq.
        -- rewrite decide_False.
           ++ by apply lookup_delete_ne.
           ++ intros H. apply Exists_cons in H as [[? _] | ?]; done.
      * apply Z.ltb_ge in E. rewrite decide_False; [done |].
        intros H. apply Exists_cons in H as [[_ ?] | ?]; [lia | done].
Qed.

Lemma sweep_all (t : Z) (m : gmap jsstring ConversationSession) :
  foldl (sweep t) m (map_to_list m) = filter (fun entry => ~ expired t entry.2) m.
Proof.
  apply map_eq. intros k. rewrite sweep_lookup.
  case_decide as H.
  - symmetry. apply map_lookup_filter_None. right. intros s Hs Hn.
    apply Exists_exists in H as ([k' s'] & Hin & Hk & He). simpl in *. subst k'.
    apply elem_of_map_to_list in Hin. rewrite Hs in Hin. inversion Hin; subst. done.
  - destruct (m !! k) as [s |] eqn:Hs.
    + symmetry. apply map_lookup_filter_Some. split; [done |]. simpl.
      intros He. apply H. apply Exists_exists. exists (k, s).
      split; [by apply elem_of_map_to_list |]. done.
    + symmetry. apply map_lookup_filter_None. by left.
Qed.

End Cleanup.

(** X19.  [cleanupExpiredSessions] reads the clock once and removes
    exactly the sessions whose last activity lies more than 3600000 ms
    before that reading: a session idle for exactly one hour stays, every
    session that stays is unchanged, and the cleanup always completes. *)
Theorem cleanup_removes_expired (env : Env) (w : World) :
  let t := clock env (trace w) in
  let run := ChatSessions.cleanupExpiredSessions env w in
  fst run = Ok tt
  /\ sessions (snd run) = filter (fun entry => ~ expired t entry.2) (sessions w)
  /\ (forall sid session,
        sessions w !! sid = Some session ->
        sessions (snd run) !! sid
        = if 3600000 <? t - last_activity session then None else Some session)
  /\ exists lines,
       trace (snd run) = trace w ++ ClockRead t :: map (Log LInfo) lines.
Proof.
  cbv zeta.
  destruct (cleanup_rounds (clock env (trace w)) (map_to_list (sessions (ticked env w)))
              (ticked env w)) as (w' & lines & E & Hs & Ht).
  assert (ChatSessions.cleanupExpiredSessions env w = (Ok tt, w')) as ->.
  { unfold ChatSessions.cleanupExpiredSessions.
    unfold mbind at 1, M_bind at 1.
    change (now env w) with (Ok (clock env (trace w)), ticked env w). cbv beta iota.
    unfold mbind at 1, M_bind at 1, get_sessions at 1. cbv beta iota. exact E. }
  cbn [fst snd].
  assert (sessions w'
          = filter (fun entry => ~ expired (clock env (trace w)) entry.2) (sessions w)) as H.
  { rewrite Hs. change (sessions (ticked env w)) with (sessions w). apply sweep_all. }
  split; [reflexivity |]. split; [exact H |].
  split.
  - intros sid session Hl. rewrite H.
    destruct (3600000 <? clock env (trace w) - last_activity session) eqn:El.
    + apply Z.ltb_lt in El. apply map_lookup_filter_None. right.
      intros s Hs' Hn. rewrite Hl in Hs'. inversion Hs'; subst. by apply Hn.
    + apply Z.ltb_ge in El. apply map_lookup_filter_Some. split; [done |].
      unfold expired. simpl. lia.
  - exists lines. rewrite Ht. unfold ticked, after. simpl. by rewrite <- app_assoc.
Qed.

(** ** The health of the AI services *)

Section HealthMore.
Variable env : Env.

Lemma check_provider_ok svc status provider w :
  exists status' w',
    GenerationService.check_provider env svc status provider w = (Ok status', w')
    /\ exists b, status' = <[provider := b]> status.
Proof.
  unfold GenerationService.check_provider, try_catch, mbind, M_bind.
  match goal with |- context [GenerationService.generateResponse env svc ?m ?o w] =>
    destruct (GenerationService.generateResponse env svc m o w) as [[r | e] w1]
  end; simpl; eauto.
Qed.

Lemma healthCheck_loop_ok svc (l : list jsstring) status w :
  exists status' w',
    for_of l (GenerationService.check_provider env svc) status w = (Ok status', w')
    /\ dom status' = dom status ∪ list_to_set l.
Proof.
  revert status w. induction l as [| provider l IH]; intros status w; simpl.
  - exists status, w. split; [done |]. by rewrite union_empty_r_L.
  - unfold mbind at 1, M_bind at 1.
    destruct (check_provider_ok svc status provider w) as (s1 & w1 & -> & b & ->).
    destruct (IH (<[provider := b]> status) w1) as (s2 & w2 & -> & Hd).
    exists s2, w2. split; [done |].
    rewrite Hd, dom_insert_L, (union_assoc_L (dom status)).
    by rewrite (union_comm_L (dom status)).
Qed.

Lemma embeddingHealthCheck_ok app w :
  exists b w', Health.embeddingHealthCheck env app w = (Ok b, w').
Proof.
  unfold Health.embeddingHealthCheck, try_catch, mbind, M_bind.
  destruct (negb _); [simpl; eauto |].
  destruct (EmbeddingService.createEmbedding env _ _ w) as [[r | e] w1]; simpl; eauto.
Qed.

End HealthMore.

(** X20.  The health of the AI services is reported as: the embedding
    service is available, some provider is configured, and the health
    check of the generation service has a provider marked healthy.  The
    test embedding is made first, but what it resolves to is not looked at:
    with the embedding API down the services are still reported healthy.
    The check itself never rejects, and the health check of the generation
    service has one entry for each available provider. *)
Theorem checkAIServices_outcome (env : Env) (app : Chat.Services) (w : World) :
  let emb := Chat.embeddingService app in
  let gen := Chat.generationService app in
  let w1 := snd (Health.embeddingHealthCheck env app w) in
  let probes := GenerationService.healthCheck env gen w1 in
  exists status,
    fst probes = Ok status
    /\ dom status = list_to_set (GenerationService.availableProviders gen)
    /\ fst (Health.checkAIServices env app w)
       = Ok (EmbeddingService.isAvailable emb
             && negb (len (GenerationService.availableProviders gen) =? 0)
             && Health.anyProviderHealthy status)
    /\ (let app := app_with (keys true false false false) in
        fst (Health.embeddingHealthCheck env_google_up app world0) = Ok false
        /\ fst (Health.checkAIServices env_google_up app world0) = Ok true).
Proof.
  cbv zeta.
  destruct (embeddingHealthCheck_ok env app w) as (b & w1 & Ee).
  rewrite Ee. cbn [snd].
  destruct (healthCheck_loop_ok env (Chat.generationService app)
              (GenerationService.availableProviders (Chat.generationService app)) ∅ w1)
    as (status & w2 & Eh & Hd).
  exists status. unfold GenerationService.healthCheck at 1. rewrite Eh.
  split; [reflexivity |].
  split; [by rewrite Hd, dom_empty_L, union_empty_l_L |].
  split; [| split; vm_compute; reflexivity].
  unfold Health.checkAIServices. cbv zeta.
  unfold GenerationService.getAvailableProviders.
  pose proof (len_nonneg (GenerationService.availableProviders (Chat.generationService app)))
    as Hn.
  destruct (EmbeddingService.isAvailable (Chat.embeddingService app)); cbn [andb].
  - destruct (0 <? len (GenerationService.availableProviders (Chat.generationService app)))
      eqn:E0.
    + assert ((len (GenerationService.availableProviders (Chat.generationService app)) =? 0)
              = false) as -> by (apply Z.eqb_neq; apply Z.ltb_lt in E0; lia).
      unfold try_catch at 1. unfold mbind at 1, M_bind at 1.
      unfold try_catch at 1. unfold mbind at 1, M_bind at 1. rewrite Ee.
      unfold mbind at 1, M_bind at 1.
      unfold GenerationService.healthCheck. rewrite Eh.
      unfold mbind, M_bind, log_info, emit. simpl. reflexivity.
    + assert ((len (GenerationService.availableProviders (Chat.generationService app)) =? 0)
              = true) as -> by (apply Z.eqb_eq; apply Z.ltb_ge in E0; lia).
      reflexivity.
  - reflexivity.
Qed.

(** ** From the chunker to the embedding service *)

Section ChunksToEmbeddings.
Import Chunker.

(** X21.  Every chunk that the splitter makes of a text that is not blank
    passes the validation of [createEmbedding], whenever the chunk size is
    positive and below 10000 (the processor's default is 1000): no chunk is
    blank and none is longer than 10000 units, whether the text fits in
    one chunk or is split. *)
Theorem split_chunks_embeddable (text : jsstring) (chunkSize overlap : Z) :
  0 < chunkSize < 10000 ->
  len (trim text) <> 0 ->
  exists chunks,
    splitTextIntoChunks (length text) text chunkSize overlap = Some chunks
    /\ Forall (fun c => valid_text c = true) chunks.
Proof.
  intros Hc Hb. unfold splitTextIntoChunks.
  destruct (len text <=? chunkSize) eqn:El.
  - apply Z.leb_le in El. exists [text]. split; [done |]. constructor; [| constructor].
    unfold valid_text. apply andb_true_iff. split; apply negb_true_iff.
    + by apply Z.eqb_neq.
    + apply Z.ltb_ge. lia.
  - apply Z.leb_gt in El.
    destruct (split_loop_inv
                (fun _ chunks => Forall (fun c => valid_text c = true) chunks)
                text chunkSize overlap ltac:(lia)) with
      (fuel := length text) (start := 0) (chunks := @nil jsstring)
      as (res & stop & R & _ & _ & F).
    + intros start chunks Hs F. apply push_chunk_Forall; [done |].
      intros Hpos.
      pose proof (chunk_at_len text chunkSize start ltac:(lia) Hs).
      pose proof (window_end_upper text chunkSize start ltac:(lia) Hs).
      unfold valid_text. apply andb_true_iff. split; apply negb_true_iff.
      * apply Z.eqb_neq. unfold chunk_at in *. rewrite trim_idem. lia.
      * apply Z.ltb_ge. lia.
    + lia.
    + unfold len. lia.
    + constructor.
    + by exists res.
Qed.

Lemma split_chunks_embeddable_witness :
  let text := lit "aaaa bbbb cccc dddd" in
  exists chunks,
    splitTextIntoChunks (length text) text 10 3 = Some chunks
    /\ Forall (fun c => valid_text c = true) chunks.
Proof.
  apply (split_chunks_embeddable (lit "aaaa bbbb cccc dddd") 10 3);
    [lia | vm_compute; discriminate].
Defined.

End ChunksToEmbeddings.

(** ** Deleting documents on the upload route *)

Section BulkDelete.
Import Upload.

Lemma bulk_rounds (ids : list jsstring) (results : BulkResults) (jobs : Jobs) :
  exists s f,
    foldl bulk_round (results, jobs) ids
    = ({| successful := successful results ++ s; failed := failed results ++ f |},
       foldr delete jobs ids)
    /\ NoDup s
    /\ (forall id, id ∈ s <-> id ∈ ids /\ is_Some (jobs !! id))
    /\ (length s + length f = length ids)%nat
    /\ Forall (fun entry => entry.1 ∈ ids /\ entry.2 = lit "Document not found") f
    /\ map fst f ++ s ≡ₚ ids.
Proof.
  revert results jobs. induction ids as [| id ids IH]; intros results jobs.
  - exists [], []. simpl. rewrite !app_nil_r. destruct results.
    split; [done |]. split; [constructor |].
    split; [| split; [done | split; [constructor | done]]].
    intros id'. split.
    + intros Hin. by apply elem_of_nil in Hin.
    + intros [Hin _]. by apply elem_of_nil in Hin.
  - cbn [foldl]. unfold bulk_round at 2.
    destruct (jobs !! id) as [job |] eqn:Ej.
    + destruct (IH {| successful := successful results ++ [id]; failed := failed results |}
                  (delete id jobs)) as (s & f & E & Hnd & Hs & Hl & Hf & Hp).
      exists (id :: s), f. rewrite E. cbn [successful failed foldr].
      rewrite <- app_assoc. split.
      { f_equal. clear. induction ids as [| i ids IH]; simpl; [done |].
        rewrite IH. apply delete_delete. }
      split.
      { constructor; [| done]. intros Hin. apply Hs in Hin as [_ [x Hx]].
        by rewrite lookup_delete_eq in Hx. }
      split.
      { intros id'. rewrite !elem_of_cons, Hs. split.
        - intros [-> | [Hin [x Hx]]]; [eauto |].
          destruct (decide (id' = id)) as [-> | Hne]; [by rewrite lookup_delete_eq in Hx |].
          rewrite lookup_delete_ne in Hx by done. eauto.
        - intros [[-> | Hin] [x Hx]]; [by left |].
          destruct (decide (id' = id)) as [-> | Hne]; [by left |].
          right. split; [done |]. rewrite lookup_delete_ne by done. eauto. }
      split; [simpl; lia |].
      split.
      { eapply Forall_impl; [exact Hf |]. intros entry [H1 H2]. split; [| done].
        apply elem_of_cons. by right. }
      rewrite <- Permutation_middle. by constructor.
    + destruct (IH {| successful := successful results;
                      failed := failed results ++ [(id, lit "Document not found")] |}
                  jobs) as (s & f & E & Hnd & Hs & Hl & Hf & Hp).
      exists s, ((id, lit "Document not found") :: f). rewrite E. cbn [successful failed foldr].
      rewrite <- app_assoc. split.
      { f_equal. clear -Ej. symmetry. apply delete_id.
        revert Ej. generalize jobs. induction ids as [| i ids IH]; intros m Hm; simpl; [done |].
        destruct (decide (i = id)) as [-> | Hne]; [apply lookup_delete_eq |].
        rewrite lookup_delete_ne by done. by apply IH. }
      split; [done |].
      split.
      { intros id'. rewrite Hs, elem_of_cons. split.
        - intros [Hin Hx]. eauto.
        - intros [[-> | Hin] [x Hx]]; [congruence | eauto]. }
      split; [simpl; lia |].
      split.
      { constructor.
        * simpl. split; [apply elem_of_cons; by left | done].
        * eapply Forall_impl; [exact Hf |]. intros entry [H1 H2]. split; [| done].
          apply elem_of_cons. by right. }
      simpl. by constructor.
Qed.

(** The two lists of the result, entry by entry.  [pre] is the part of the
    request that was handled before, [jobs0] the store before the request. *)
Lemma bulk_rounds_exact (jobs0 : Jobs) (ids pre : list jsstring)
    (results : BulkResults) (jobs : Jobs) :
  (forall k, jobs !! k = if bool_decide (k ∈ pre) then None else jobs0 !! k) ->
  (foldl bulk_round (results, jobs) ids).1
  = {| successful :=
         successful results
         ++ omap (fun o => o)
              (imap (fun i id =>
                       if finds_job jobs0 (pre ++ ids) (length pre + i) id
                       then Some id else None) ids);
       failed :=
         failed results
         ++ omap (fun o => o)
              (imap (fun i id =>
                       if finds_job jobs0 (pre ++ ids) (length pre + i) id
                       then None else Some (id, lit "Document not found")) ids) |}.
Proof.
  revert pre results jobs. induction ids as [| id ids IH]; intros pre results jobs Hinv.
  - simpl. rewrite !app_nil_r. by destruct results.
  - cbn [foldl imap].
    assert (finds_job jobs0 (pre ++ id :: ids) (length pre + 0) id
            = bool_decide (is_Some (jobs !! id))) as Hfind.
    { unfold finds_job. rewrite Nat.add_0_r, take_app_length, Hinv.
      apply bool_decide_ext. case_bool_decide as Hpre.
      - split; [intros [_ ?]; done | intros [? ?]; done].
      - split; [intros [? _]; done | intros ?; done]. }
    assert (forall (X : Type) (f : bool -> jsstring -> option X),
              imap ((fun i x => f (finds_job jobs0 (pre ++ id :: ids) (length pre + i) x) x)
                    ∘ S) ids
              = imap (fun i x =>
                        f (finds_job jobs0 ((pre ++ [id]) ++ ids)
                             (length (pre ++ [id]) + i) x) x) ids) as Hshift.
    { intros X f. apply imap_ext. intros i x _. simpl.
      rewrite <- app_assoc, length_app. simpl.
      by replace (length pre + S i)%nat with (length pre + 1 + i)%nat by lia. }
    pose proof (Hshift _ (fun (b : bool) x => if b then Some x else None)) as H1.
    pose proof (Hshift _ (fun (b : bool) x =>
                            if b then None else Some (x, lit "Document not found"))) as H2.
    cbv beta in H1, H2. rewrite H1, H2, Hfind. clear H1 H2 Hshift.
    unfold bulk_round at 2.
    destruct (jobs !! id) as [job |] eqn:Ej.
    + rewrite bool_decide_eq_true_2 by eauto.
      rewrite (IH (pre ++ [id]) _ (delete id jobs)).
      * cbn [successful failed omap list_omap]. by rewrite <- ?app_assoc.
      * intros k. destruct (decide (k = id)) as [-> | Hne].
        -- rewrite lookup_delete_eq, bool_decide_eq_true_2; [done |].
           apply elem_of_app. right. by apply list_elem_of_singleton.
        -- rewrite lookup_delete_ne by done. rewrite Hinv.
           apply (f_equal (fun b : bool => if b then None else jobs0 !! k)).
           apply bool_decide_ext. rewrite elem_of_app, list_elem_of_singleton. tauto.
    + rewrite bool_decide_eq_false_2 by (by intros [? ?]).
      rewrite (IH (pre ++ [id]) _ jobs).
      * cbn [successful failed omap list_omap]. by rewrite <- ?app_assoc.
      * intros k. destruct (decide (k = id)) as [-> | Hne].
        -- rewrite Ej, bool_decide_eq_true_2; [done |].
           apply elem_of_app. right. by apply list_elem_of_singleton.
        -- rewrite Hinv.
           apply (f_equal (fun b : bool => if b then None else jobs0 !! k)).
           apply bool_decide_ext. rewrite elem_of_app, list_elem_of_singleton. tauto.
Qed.

Lemma foldr_delete_lookup (ids : list jsstring) (jobs : Jobs) id :
  foldr delete jobs ids !! id = if bool_decide (id ∈ ids) then None else jobs !! id.
Proof.
  induction ids as [| i ids IH]; cbn [foldr].
  - rewrite bool_decide_eq_false_2; [done |]. intros H. by apply elem_of_nil in H.
  - destruct (decide (i = id)) as [-> | Hne].
    + rewrite lookup_delete_eq, bool_decide_eq_true_2; [done |]. apply elem_of_cons. by left.
    + rewrite lookup_delete_ne by done. rewrite IH.
      destruct (bool_decide (id ∈ ids)) eqn:E.
      * apply bool_decide_eq_true_1 in E. rewrite bool_decide_eq_true_2; [done |].
        apply elem_of_cons. by right.
      * apply bool_decide_eq_false_1 in E. rewrite bool_decide_eq_false_2; [done |].
        intros H. apply elem_of_cons in H as [? | ?]; [congruence | done].
Qed.

End BulkDelete.

(** X22.  A bulk delete of between 1 and 100 ids always answers with
    success.  Afterwards no job is stored under any of the ids and every
    other job is as before.  The ids reported as successful are exactly
    the ids that had a job, each once; every other entry of the request,
    among them the second occurrence of an id that is listed twice, is
    reported as failed with the reason [Document not found]; each entry of
    the request is reported once, on one of the two lists.  Entry by
    entry: the entry at a position is reported as successful when a job
    was stored under its id and the id does not occur earlier in the
    request, and as failed otherwise, and both lists are in the order of
    the request. *)
Theorem bulk_delete_outcome (ids : list jsstring) (jobs : Upload.Jobs) (w : World) :
  1 <= len ids <= 100 ->
  exists message results jobs',
    fst (Upload.bulk_delete (Some ids) jobs w) = Ok (Replied (message, results), jobs')
    /\ (forall id, jobs' !! id = if bool_decide (id ∈ ids) then None else jobs !! id)
    /\ NoDup (Upload.successful results)
    /\ (forall id, id ∈ Upload.successful results <-> id ∈ ids /\ is_Some (jobs !! id))
    /\ (length (Upload.successful results) + length (Upload.failed results)
        = length ids)%nat
    /\ Forall (fun entry => entry.1 ∈ ids /\ entry.2 = lit "Document not found")
         (Upload.failed results)
    /\ map fst (Upload.failed results) ++ Upload.successful results ≡ₚ ids
    /\ Upload.successful results = found_entries jobs ids
    /\ Upload.failed results = missed_entries jobs ids
    /\ message = lit "Successfully deleted "
                 ++ DocumentProcessor.number_toString
                      (N.of_nat (length (Upload.successful results)))
                 ++ lit " documents".
Proof.
  intros Hl. unfold Upload.bulk_delete.
  destruct ids as [| id ids]; [unfold len in Hl; simpl in Hl; lia |].
  replace (100 <? len (id :: ids)) with false by (symmetry; apply Z.ltb_ge; lia).
  destruct (bulk_rounds (id :: ids) {| Upload.successful := []; Upload.failed := [] |} jobs)
    as (s & f & E & Hnd & Hs & Hlen & Hf & Hp).
  assert ((foldl Upload.bulk_round
             ({| Upload.successful := []; Upload.failed := [] |}, jobs) (id :: ids)).1
          = {| Upload.successful := found_entries jobs (id :: ids);
               Upload.failed := missed_entries jobs (id :: ids) |}) as Hx.
  { rewrite (bulk_rounds_exact jobs (id :: ids) [] _ jobs); [reflexivity |].
    intros k. rewrite bool_decide_eq_false_2; [done |].
    intros H. by apply elem_of_nil in H. }
  rewrite E in Hx. cbn [fst app Upload.successful Upload.failed] in Hx.
  injection Hx as Hxs Hxf.
  unfold try_catch, mbind, M_bind. rewrite E. cbn [Upload.successful Upload.failed app].
  unfold log_info, emit. cbn [fst snd].
  do 3 eexists. split; [reflexivity |]. cbn [Upload.successful Upload.failed].
  split; [intros id'; apply foldr_delete_lookup |].
  split; [exact Hnd |]. split; [exact Hs |]. split; [exact Hlen |]. split; [exact Hf |].
  split; [exact Hp |]. split; [exact Hxs |]. split; [exact Hxf | reflexivity].
Qed.

Lemma bulk_delete_outcome_witness :
  let job := {| Upload.job_id := lit "j1"; Upload.job_filename := lit "budget.txt";
                Upload.job_status := Upload.Completed; Upload.job_progress := 100;
                Upload.job_created_at := 0; Upload.job_completed_at := Some 1;
                Upload.job_error := None; Upload.job_chunks_created := Some 3;
                Upload.job_document_id := Some (lit "doc_x") |} in
  let jobs : Upload.Jobs := {[ lit "j1" := job ]} in
  exists message results jobs',
    fst (Upload.bulk_delete (Some [lit "j1"; lit "j2"; lit "j1"]) jobs world0)
    = Ok (Replied (message, results), jobs')
    /\ message = lit "Successfully deleted 1 documents"
    /\ Upload.successful results = [lit "j1"]
    /\ map fst (Upload.failed results) = [lit "j2"; lit "j1"]
    /\ jobs' !! lit "j1" = None.
Proof.
  cbv zeta.
  destruct (bulk_delete_outcome [lit "j1"; lit "j2"; lit "j1"]
              {[ lit "j1" := {| Upload.job_id := lit "j1";
                                Upload.job_filename := lit "budget.txt";
                                Upload.job_status := Upload.Completed;
                                Upload.job_progress := 100;
                                Upload.job_created_at := 0;
                                Upload.job_completed_at := Some 1;
                                Upload.job_error := None;
                                Upload.job_chunks_created := Some 3;
                                Upload.job_document_id := Some (lit "doc_x") |} ]}
              world0 ltac:(vm_compute; split; discriminate))
    as (message & results & jobs' & E & Hj & _).
  exists message, results, jobs'. split; [exact E |].
  revert E. vm_compute. intros [= <- <- <-]. repeat split; reflexivity.
Defined.

(** X23.  Deleting a document on the upload route, one at a time or in
    bulk, only forgets the job: no delete request, and no other request,
    is sent to the index, so the chunks of the document stay in the vector
    store. *)
Theorem upload_delete_leaves_index (id : jsstring) (ids : option (list jsstring))
    (jobs : Upload.Jobs) (w : World) :
  let one := Upload.delete_document id jobs w in
  let bulk := Upload.bulk_delete ids jobs w in
  (omap document_delete (trace (snd one)) = omap document_delete (trace w)
   /\ omap point_delete (trace (snd one)) = omap point_delete (trace w)
   /\ upserts (trace (snd one)) = upserts (trace w))
  /\ (omap document_delete (trace (snd bulk)) = omap document_delete (trace w)
      /\ omap point_delete (trace (snd bulk)) = omap point_delete (trace w)
      /\ upserts (trace (snd bulk)) = upserts (trace w))
  /\ (is_Some (jobs !! id) ->
      exists jobs', fst one = Ok (Replied (lit "Document deleted successfully"), jobs')
                    /\ jobs' = delete id jobs).
Proof.
  cbv zeta.
  assert (forall X (f : event -> option X) `{!RequestsOnly f},
            silent f (Upload.delete_document id jobs)
            /\ silent f (Upload.bulk_delete ids jobs)) as H.
  { intros X f Hf. split.
    - unfold Upload.delete_document. repeat silent_step.
    - unfold Upload.bulk_delete. repeat silent_step. }
  split; [| split].
  - repeat split; apply H; tc_solve.
  - repeat split; apply H; tc_solve.
  - intros [job Hj]. unfold Upload.delete_document, try_catch, mbind, M_bind.
    rewrite Hj. simpl. eauto.
Qed.

Lemma upload_delete_leaves_index_witness :
  let job := {| Upload.job_id := lit "j1"; Upload.job_filename := lit "budget.txt";
                Upload.job_status := Upload.Completed; Upload.job_progress := 100;
                Upload.job_created_at := 0; Upload.job_completed_at := Some 1;
                Upload.job_error := None; Upload.job_chunks_created := Some 3;
                Upload.job_document_id := Some (lit "doc_x") |} in
  exists jobs',
    fst (Upload.delete_document (lit "j1") {[ lit "j1" := job ]} world0)
    = Ok (Replied (lit "Document deleted successfully"), jobs')
    /\ jobs' = delete (lit "j1") {[ lit "j1" := job ]}.
Proof.
  cbv zeta.
  eapply (upload_delete_leaves_index (lit "j1") None _ world0).
  rewrite lookup_singleton_eq. eauto.
Defined.

(** ** What a provider is sent for a chat turn *)

Section AdapterMessages.
Import Adapters.

Lemma filter_system_none (l : list ChatMessage) :
  Forall (fun m => role m <> system) l ->
  filter (fun msg => is_system msg = true) l = []
  /\ filter (fun msg => is_system msg = false) l = l.
Proof.
  induction 1 as [| m l Hm _ [IH1 IH2]]; [done |].
  assert (is_system m = false) as Hs by (unfold is_system; by destruct (role m)).
  split.
  - rewrite filter_cons_False; [done | by rewrite Hs].
  - rewrite filter_cons_True; [by rewrite IH2 | done].
Qed.

Lemma slice_from_Forall {A} (P : A -> Prop) (l : list A) n :
  Forall P l -> Forall P (slice_from l n).
Proof. intros H. unfold slice_from. by apply slice_Forall. Qed.

End AdapterMessages.

(** X24.  What the adapters make of the messages of a chat turn, for a
    history of user and assistant messages.  Anthropic is given the
    system prompt as its [system] parameter and, as messages, the recent
    history followed by the question.  Cohere is given every message,
    with the system prompt, in the first place, under the role
    [ASSISTANT].  Google is given one prompt that begins with [System: ]
    and the system prompt. *)
Theorem adapters_chat_turn (query : jsstring) (context : Chat.Context) :
  Forall (fun m => role m <> system) (Chat.conversation_history context) ->
  let messages := Chat.build_messages query context in
  let recent := slice_from (Chat.conversation_history context) (-6) in
  Adapters.anthropic_system messages = Chat.systemPrompt context
  /\ Adapters.anthropic_messages messages
     = map (fun m => (role m, content m)) recent ++ [(user, query)]
  /\ Adapters.cohere_messages messages
     = (Adapters.ASSISTANT, Chat.systemPrompt context)
       :: Adapters.cohere_messages recent ++ [(Adapters.USER, query)]
  /\ Adapters.formatMessagesForGoogle messages
     = lit "System: " ++ Chat.systemPrompt context ++ lit "

" ++ Adapters.formatMessagesForGoogle (recent ++ [Chat.plain_message user query]).
Proof.
  intros Hh messages recent. subst messages recent.
  pose proof (slice_from_Forall _ _ (-6) Hh) as Hr.
  destruct (filter_system_none _ Hr) as [F1 F2].
  unfold Chat.build_messages. cbv zeta.
  set (recent := slice_from (Chat.conversation_history context) (-6)) in *.
  split; [| split; [| split]].
  - unfold Adapters.anthropic_system.
    rewrite filter_app, filter_cons_True by done. simpl.
    by destruct (Chat.systemPrompt context).
  - unfold Adapters.anthropic_messages.
    rewrite !filter_app, filter_cons_False by done. rewrite filter_nil, F2. simpl.
    rewrite filter_cons_True by done. rewrite filter_nil, map_app. reflexivity.
  - unfold Adapters.cohere_messages. simpl. rewrite map_app. reflexivity.
  - unfold Adapters.formatMessagesForGoogle. simpl.
    destruct (map _ (recent ++ [Chat.plain_message user query])) eqn:E.
    + apply (f_equal length) in E. rewrite length_map, length_app in E. simpl in E. lia.
    + rewrite <- !app_assoc. reflexivity.
Qed.

Lemma adapters_chat_turn_witness :
  let context := Chat.prepareContext [Chat.user_message (lit "q1") 0] [] in
  let messages := Chat.build_messages (lit "q1") context in
  map fst (Adapters.cohere_messages messages)
  = [Adapters.ASSISTANT; Adapters.USER; Adapters.USER]
  /\ map fst (Adapters.anthropic_messages messages) = [user; user].
Proof.
  cbv zeta.
  destruct (adapters_chat_turn (lit "q1")
              (Chat.prepareContext [Chat.user_message (lit "q1") 0] []))
    as (_ & Ha & Hc & _).
  { repeat constructor. simpl. discriminate. }
  cbv zeta in Ha, Hc. rewrite Ha, Hc. split; vm_compute; reflexivity.
Defined.

(** ** What a chat request sends *)

Ltac silent_all := repeat first [silent_step | progress (cbv zeta)].

Section ChatSends.
Variable env : Env.
Variable app : Chat.Services.

Ltac chat_silent :=
  unfold Chat.post_chat, Chat.begin_turn, Chat.run_pipeline, Chat.performVectorSearch,
    Chat.generateResponse, Chat.resolve_session_id, Chat.get_or_create, Chat.store_session,
    VectorService.search, EmbeddingService.createEmbedding,
    GenerationService.generateResponse, GenerationService.generateWith;
  silent_all.

Lemma post_chat_upserts req : silent upsert_request (Chat.post_chat env app req).
Proof. chat_silent. Qed.

Lemma post_chat_document_deletes req : silent document_delete (Chat.post_chat env app req).
Proof. chat_silent. Qed.

Lemma post_chat_point_deletes req : silent point_delete (Chat.post_chat env app req).
Proof. chat_silent. Qed.

End ChatSends.

(** X25.  The chat route only reads the index: whatever the request and
    however the collaborators answer, no upsert and no delete is sent. *)
Theorem chat_never_writes_index (env : Env) (app : Chat.Services) (req : ChatRequest)
    (w : World) :
  let run := Chat.post_chat env app req w in
  upserts (trace (snd run)) = upserts (trace w)
  /\ omap document_delete (trace (snd run)) = omap document_delete (trace w)
  /\ omap point_delete (trace (snd run)) = omap point_delete (trace w).
Proof.
  cbv zeta. split; [| split].
  - apply post_chat_upserts.
  - apply post_chat_document_deletes.
  - apply post_chat_point_deletes.
Qed.

Section SearchSends.
Variable env : Env.
Variable emb : EmbeddingService.t.
Variable svc : VectorService.t.

(** What a search sends, however it settles. *)
Lemma search_sends query options w :
  exists r w' es ss,
    VectorService.search env emb svc query options w = (r, w')
    /\ embed_requests (trace w') = embed_requests (trace w) ++ es
    /\ searches (trace w') = searches (trace w) ++ ss
    /\ (es = [] \/ es = [query])
    /\ (ss = [] \/ es = [query] /\ exists vector,
          ss = [{| sp_vector := vector;
                   sp_limit := orZ (so_limit options) 5;
                   sp_score_threshold := orQ (so_threshold options) (7 # 10);
                   sp_with_payload := true;
                   sp_filter := so_filter options |}])
    /\ (ss = [] -> exists e, r = Err e)
    /\ omap search_talk (trace w')
       = omap search_talk (trace w) ++ map inl es ++ map inr ss.
Proof.
  unfold VectorService.search.
  destruct (negb (VectorService.isInitialized svc) || negb (VectorService.client svc)).
  { eexists _, _, [], []. split; [reflexivity |]. simpl. rewrite !app_nil_r.
    repeat split; eauto. }
  destruct (len (trim query) =? 0).
  { eexists _, _, [], []. split; [reflexivity |]. simpl. rewrite !app_nil_r.
    repeat split; eauto. }
  unfold mbind at 1, M_bind at 1.
  change (now env w) with (Ok (clock env (trace w)), ticked env w). cbv beta iota zeta.
  unfold try_catch at 1. unfold mbind at 1, M_bind at 1.
  destruct (EmbeddingService.isAvailable emb && valid_text query) eqn:Hav.
  - apply andb_true_iff in Hav as [Ha Hv].
    rewrite (createEmbedding_valid env emb query (ticked env w) Ha Hv).
    destruct (embed_api env (trace (ticked env (ticked env w))) query) as [values | e];
      [destruct (len values =? 0) |].
    + eexists _, _, [query], []. split; [reflexivity |].
      unfold embed_requests, searches, logged, ticked, after. simpl.
      rewrite !omap_app. simpl. rewrite !app_nil_r. repeat split; eauto.
    + unfold mbind at 1, M_bind at 1, request at 1.
      match goal with |- context [index_search env ?tr ?p] =>
        destruct (index_search env tr p) as [hits | e] end.
      * eexists _, _, [query], [_]. split; [reflexivity |].
        unfold embed_requests, searches, logged, ticked, after. simpl.
        rewrite !omap_app. simpl. rewrite !app_nil_r.
        split; [reflexivity |]. split; [reflexivity |]. split; [by right |].
        split; [right; split; [done |]; eexists; reflexivity |].
        split; [done |]. by rewrite <- app_assoc.
      * eexists _, _, [query], [_]. split; [reflexivity |].
        unfold embed_requests, searches, logged, ticked, after. simpl.
        rewrite !omap_app. simpl. rewrite !app_nil_r.
        split; [reflexivity |]. split; [reflexivity |]. split; [by right |].
        split; [right; split; [done |]; eexists; reflexivity |].
        split; [done |]. by rewrite <- app_assoc.
    + eexists _, _, [query], []. split; [reflexivity |].
      unfold embed_requests, searches, logged, ticked, after. simpl.
      rewrite !omap_app. simpl. rewrite !app_nil_r. repeat split; eauto.
  - destruct (createEmbedding_invalid env emb query (ticked env w)) as [e ->].
    { apply andb_false_iff in Hav. tauto. }
    eexists _, _, [], []. split; [reflexivity |].
    unfold embed_requests, searches, logged, ticked, after. simpl.
    rewrite !omap_app. simpl. rewrite !app_nil_r. repeat split; eauto.
Qed.

End SearchSends.

(** X26.  The search of the chat route never rejects and sends at most
    one embedding request, for the query itself, and at most one search
    request, always for 5 results above the score 0.7, with the payload
    and without a filter; the search request is only sent after the
    embedding request.  When no search request is sent, in particular
    when the vector service is not available, the route goes on without
    sources. *)
Theorem chat_search_sends (env : Env) (app : Chat.Services) (query : jsstring)
    (w : World) :
  let run := Chat.performVectorSearch env app query w in
  exists found es ss,
    fst run = Ok found
    /\ embed_requests (trace (snd run)) = embed_requests (trace w) ++ es
    /\ searches (trace (snd run)) = searches (trace w) ++ ss
    /\ (es = [] \/ es = [query])
    /\ (ss = [] \/ es = [query] /\ exists p, ss = [p] /\ chat_search_params p)
    /\ (ss = [] -> found = [])
    /\ (VectorService.isAvailable (Chat.vectorService app) = false ->
        es = [] /\ ss = [])
    /\ omap search_talk (trace (snd run))
       = omap search_talk (trace w) ++ map inl es ++ map inr ss.
Proof.
  cbv zeta.
  assert (exists found w' es ss,
            Chat.performVectorSearch env app query w = (Ok found, w')
            /\ embed_requests (trace w') = embed_requests (trace w) ++ es
            /\ searches (trace w') = searches (trace w) ++ ss
            /\ (es = [] \/ es = [query])
            /\ (ss = [] \/ es = [query] /\ exists p, ss = [p] /\ chat_search_params p)
            /\ (ss = [] -> found = [])
            /\ (VectorService.isAvailable (Chat.vectorService app) = false ->
                es = [] /\ ss = [])
            /\ omap search_talk (trace w')
               = omap search_talk (trace w) ++ map inl es ++ map inr ss)
    as (found & w' & es & ss & -> & H).
  { unfold Chat.performVectorSearch.
    destruct (VectorService.isAvailable (Chat.vectorService app)) eqn:Ha; cbn [negb].
    - unfold try_catch at 1. unfold mbind at 1, M_bind at 1.
      destruct (search_sends env (Chat.embeddingService app) (Chat.vectorService app) query
                  {| so_limit := Some 5; so_threshold := Some (7 # 10)%Q; so_filter := None |}
                  w)
        as (r & w1 & es & ss & -> & He & Hs & Hes & Hss & Hnone & Htalk).
      assert (ss = [] \/ es = [query] /\ exists p, ss = [p] /\ chat_search_params p) as Hp.
      { destruct Hss as [-> | (-> & vector & ->)]; [by left |].
        right. split; [done |]. eexists. split; [reflexivity |]. by repeat split. }
      destruct r as [results | e].
      + eexists _, _, es, ss. split; [reflexivity |].
        unfold embed_requests, searches in *. simpl. rewrite !omap_app. simpl.
        rewrite !app_nil_r.
        split; [done |]. split; [done |]. split; [done |]. split; [done |].
        split; [| done]. intros Hn. destruct (Hnone Hn) as [e He']. done.
      + eexists _, _, es, ss. split; [reflexivity |].
        unfold embed_requests, searches in *. simpl. rewrite !omap_app. simpl.
        rewrite !app_nil_r.
        split; [done |]. split; [done |]. split; [done |]. split; [done |]. done.
    - eexists _, _, [], []. split; [reflexivity |].
      unfold embed_requests, searches. simpl. rewrite !omap_app. simpl. rewrite !app_nil_r.
      repeat split; eauto. }
  exists found, es, ss. cbn [fst snd]. split; [done | exact H].
Qed.

Section ChatCalls.
Variable env : Env.
Variable app : Chat.Services.

Lemma begin_turn_silent {X} (f : event -> option X) `{!RequestsOnly f} req message :
  silent f (Chat.begin_turn env req message).
Proof.
  unfold Chat.begin_turn, Chat.resolve_session_id, Chat.get_or_create, Chat.store_session.
  silent_all.
Qed.

Lemma performVectorSearch_calls query :
  silent provider_call (Chat.performVectorSearch env app query).
Proof.
  unfold Chat.performVectorSearch, VectorService.search, EmbeddingService.createEmbedding.
  silent_all.
Qed.

(** After the search and the generation, a turn sends nothing more. *)
Lemma run_pipeline_trace {X} (f : event -> option X) `{!RequestsOnly f}
    message sid session mt temp start w found w1 ai w2 :
  Chat.performVectorSearch env app message w = (Ok found, w1) ->
  Chat.generateResponse env app message
    (Chat.prepareContext (history session) found) mt temp w1 = (Ok ai, w2) ->
  omap f (trace (snd (Chat.run_pipeline env app message sid session mt temp start w)))
  = omap f (trace w2).
Proof.
  intros E1 E2. unfold Chat.run_pipeline.
  unfold mbind at 1, M_bind at 1. rewrite E1.
  unfold mbind at 1, M_bind at 1. rewrite E2.
  match goal with |- omap f (trace (snd (?m w2))) = _ =>
    assert (silent f m) as Hs; [| apply Hs] end.
  unfold Chat.store_session. silent_all.
Qed.

Lemma chat_generateResponse_calls query context mt temp w :
  let svc := Chat.generationService app in
  provider_calls (trace (snd (Chat.generateResponse env app query context mt temp w)))
  = provider_calls (trace w)
    ++ map (fun p => (p, (GenerationService.select svc (lit "auto")).2,
                      defaultOptions (Chat.generation_options mt temp)))
         (probed svc (lit "auto")).
Proof.
  cbv zeta.
  unfold Chat.generateResponse, try_catch, GenerationService.getAvailableProviders.
  destruct (len _ =? 0) eqn:E0.
  - simpl. unfold provider_calls. rewrite omap_app. simpl.
    unfold probed. rewrite E0. by rewrite !app_nil_r.
  - unfold mbind, M_bind.
    match goal with |- context [GenerationService.generateResponse env ?s ?m ?o w] =>
      pose proof (generateResponse_calls env s m o w) as H;
      destruct (GenerationService.generateResponse env s m o w) as [[r | e] w1]
    end; cbv zeta in H; cbn [snd] in H;
      change (orS (model (Chat.generation_options mt temp)) (lit "auto")) with (lit "auto") in H;
      simpl; unfold provider_calls in *; rewrite omap_app; simpl; by rewrite app_nil_r, H.
Qed.

End ChatCalls.

(** X27.  The provider call of a chat turn.  A request that fails the
    validation asks no provider.  A valid request asks exactly one, when a
    key is configured: the first provider with a key, in the order google,
    openai, anthropic, cohere, for its default model and with the model
    option [auto], [top_p] 0.9, and the token limit and the temperature of
    the request, or 1000 and 0.7 where the request gives none or gives 0.
    With no key configured it asks none. *)
Theorem chat_turn_provider_call (env : Env) (k : GenerationService.Keys)
    (emb : EmbeddingService.t) (vec : VectorService.t) (req : ChatRequest) (w : World) :
  let app := {| Chat.embeddingService := emb;
                Chat.vectorService := vec;
                Chat.generationService := GenerationService.initialize k |} in
  let run := Chat.post_chat env app req w in
  let options :=
    {| max_tokens := Some (orZ (req_max_tokens req) 1000);
       temperature := Some (orQ (req_temperature req) (7 # 10));
       top_p := Some (9 # 10)%Q;
       top_k := None;
       stop_sequences := None;
       model := Some (lit "auto") |} in
  provider_calls (trace (snd run))
  = provider_calls (trace w)
    ++ (if Chat.valid_request req then
          match first_configured k with
          | Some p =>
            [(p, GenerationService.getDefaultModelForProvider
                   (GenerationService.provider_name p), options)]
          | None => []
          end
        else []).
Proof.
  cbv zeta.
  set (app := {| Chat.embeddingService := emb;
                 Chat.vectorService := vec;
                 Chat.generationService := GenerationService.initialize k |}).
  destruct (Chat.valid_request req) eqn:Hv; cycle 1.
  { destruct (post_chat_invalid env app req w Hv) as (m & c & ->).
    simpl. by rewrite app_nil_r. }
  destruct (post_chat_chain env app req w Hv)
    as (sid & old & stamp & activity & w0 & found & wg & ai & wg' & stamp2 & activity2
        & pt & w' & H). cbv zeta in H.
  destruct H as (Eb & _ & _ & Es & Eg & _ & _).
  rewrite (post_chat_run env app req w _ _ _ Hv Eb).
  unfold provider_calls.
  rewrite (run_pipeline_trace env app provider_call _ _ _ _ _ _ _ _ _ _ _ Es Eg).
  pose proof (chat_generateResponse_calls env app (default [] (req_message req))
                (Chat.prepareContext
                   (history (Chat.count_message
                               (Chat.push_message old
                                  (Chat.user_message (default [] (req_message req)) stamp)
                                  activity))) found)
                (default 1000 (req_max_tokens req))
                (default (7 # 10)%Q (req_temperature req)) wg) as Hc.
  cbv zeta in Hc. rewrite Eg in Hc. cbn [snd] in Hc. unfold provider_calls in Hc.
  rewrite Hc.
  pose proof (performVectorSearch_calls env app (default [] (req_message req))
                (ticked env w0)) as Hp.
  rewrite Es in Hp. cbn [snd] in Hp. rewrite Hp, (omap_ticked provider_call).
  pose proof (begin_turn_silent env provider_call req (default [] (req_message req)) w) as Hb.
  rewrite Eb in Hb. cbn [snd] in Hb. rewrite Hb.
  f_equal.
  destruct (probed_auto k) as (Hpr & Hs & Hf). cbv zeta in Hpr, Hs, Hf.
  change (Chat.generationService app) with (GenerationService.initialize k).
  rewrite Hpr, Hs.
  destruct (first_configured k) as [p |]; [| done].
  simpl. rewrite (Hf p eq_refl). do 2 f_equal.
  unfold defaultOptions, Chat.generation_options. cbn [max_tokens temperature top_p model].
  f_equal.
  - f_equal. destruct (req_max_tokens req) as [n |]; simpl; [| done].
    destruct (n =? 0) eqn:E; simpl; [done | by rewrite E].
  - f_equal. destruct (req_temperature req) as [t |]; simpl; [| done].
    destruct (Qeq_bool t 0) eqn:E; simpl; [done | by rewrite E].
Qed.

(** ** The messages of a turn and the providers of a service *)

(** X28.  The messages built for the generation are the system prompt,
    the last six messages of the history (cutting the history to six
    happens twice, once when the context is prepared and once when the
    messages are built, and the second cut changes nothing) and the
    question as a user message: between 2 and 8 messages, whatever the
    length of the history. *)
Theorem build_messages_bounds (query : jsstring) (past : list ChatMessage)
    (found : list Source) :
  let context := Chat.prepareContext past found in
  let messages := Chat.build_messages query context in
  messages
  = [Chat.plain_message system (Chat.systemPrompt context)]
    ++ last_n 6 past ++ [Chat.plain_message user query]
  /\ Chat.conversation_history context = last_n 6 past
  /\ 2 <= len messages <= 8.
Proof.
  cbv zeta. unfold Chat.build_messages. cbv zeta.
  assert (Chat.conversation_history (Chat.prepareContext past found) = last_n 6 past) as Hc.
  { unfold Chat.prepareContext. cbn [Chat.conversation_history].
    change (-6) with (- Z.of_nat 6). by rewrite slice_from_last by lia. }
  rewrite Hc. change (-6) with (- Z.of_nat 6). rewrite slice_from_last by lia.
  fold (last_n 6 (last_n 6 past)).
  pose proof (last_n_app 6 past []) as Hl. rewrite !app_nil_r in Hl. rewrite Hl.
  split; [reflexivity |]. split; [reflexivity |].
  pose proof (last_n_length 6 past). unfold len. rewrite !length_app. simpl. lia.
Qed.

(** X29.  A generation service built by [initialize] is consistent: the
    available providers are exactly the providers with a key, listed in
    the order google, openai, anthropic, cohere and without repetition, a
    provider has a client exactly when it is listed, every listed name is
    one that [generateResponse] dispatches on, and the first one listed is
    the first provider with a key. *)
Theorem initialize_consistent (k : GenerationService.Keys) :
  let svc := GenerationService.initialize k in
  NoDup (GenerationService.availableProviders svc)
  /\ (forall p, GenerationService.client_of svc p = true
               <-> GenerationService.provider_name p
                   ∈ GenerationService.availableProviders svc)
  /\ (forall name, name ∈ GenerationService.availableProviders svc ->
        exists p, GenerationService.provider_of name = Some p
                  /\ GenerationService.provider_name p = name)
  /\ head (GenerationService.availableProviders svc)
     = GenerationService.provider_name <$> first_configured k
  /\ (GenerationService.client_of svc Google = GenerationService.google_key k
      /\ GenerationService.client_of svc OpenAI = GenerationService.openai_key k
      /\ GenerationService.client_of svc Anthropic = GenerationService.anthropic_key k
      /\ GenerationService.client_of svc Cohere = GenerationService.cohere_key k)
  /\ GenerationService.availableProviders svc
     = map GenerationService.provider_name
         (filter (fun p => GenerationService.client_of svc p = true)
            [Google; OpenAI; Anthropic; Cohere]).
Proof.
  cbv zeta.
  assert (forall l : list jsstring, bool_decide (NoDup l) = true -> NoDup l) as Hnd
    by (intros l; apply bool_decide_eq_true_1).
  assert (forall (x : jsstring) (l : list jsstring), bool_decide (x ∈ l) = true -> x ∈ l) as Hin
    by (intros x l; apply bool_decide_eq_true_1).
  assert (forall (x : jsstring) (l : list jsstring), bool_decide (x ∈ l) = false -> ~ x ∈ l) as Hout
    by (intros x l; apply bool_decide_eq_false_1).
  destruct k as [g o a c]. split; [| split; [| split; [| split; [| split]]]].
  - apply Hnd. destruct g, o, a, c; vm_compute; reflexivity.
  - intros p. split.
    + intros Hp. apply Hin. destruct p, g, o, a, c; try discriminate Hp; vm_compute; reflexivity.
    + intros Hp. destruct (GenerationService.client_of _ p) eqn:E; [done |]. exfalso.
      revert Hp. apply Hout.
      destruct p, g, o, a, c; try discriminate E; vm_compute; reflexivity.
  - intros name Hn.
    assert (name ∈ [lit "google"; lit "openai"; lit "anthropic"; lit "cohere"]) as Hall.
    { unfold GenerationService.initialize in Hn. cbn [GenerationService.availableProviders
        GenerationService.google_key GenerationService.openai_key
        GenerationService.anthropic_key GenerationService.cohere_key] in Hn.
      rewrite !elem_of_app in Hn. rewrite !elem_of_cons.
      destruct Hn as [Hn | [Hn | [Hn | Hn]]]; [destruct g | destruct o | destruct a | destruct c];
        try (by apply elem_of_nil in Hn);
        apply list_elem_of_singleton in Hn; tauto. }
    rewrite !elem_of_cons in Hall.
    destruct Hall as [-> | [-> | [-> | [-> | Hnil]]]];
      [exists Google | exists OpenAI | exists Anthropic | exists Cohere
       | by apply elem_of_nil in Hnil];
      split; vm_compute; reflexivity.
  - destruct g, o, a, c; vm_compute; reflexivity.
  - done.
  - destruct g, o, a, c; vm_compute; reflexivity.
Qed.

(** ** The cap on a batch of texts, and the upsert path *)

Section BatchForward.
Variable env : Env.
Variable emb : EmbeddingService.t.
Hypothesis emb_available : EmbeddingService.isAvailable emb = true.
Hypothesis api_up : forall tr text, exists v, embed_api env tr text = Ok v /\ len v <> 0.

Lemma createEmbedding_up text w :
  valid_text text = true ->
  exists r w', EmbeddingService.createEmbedding env emb text w = (Ok r, w').
Proof.
  intros Hv. rewrite (createEmbedding_valid env emb text w emb_available Hv).
  destruct (api_up (trace (ticked env w)) text) as (v & -> & Hn).
  apply Z.eqb_neq in Hn. rewrite Hn. eauto.
Qed.

Lemma promise_all_up (texts : list jsstring) w :
  Forall (fun t => valid_text t = true) texts ->
  exists rs w',
    promise_all (EmbeddingService.createEmbedding env emb) texts w = (Ok rs, w').
Proof.
  intros Hv. unfold promise_all. revert w.
  induction Hv as [| t texts Ht _ IH]; intros w; simpl; [eauto |].
  destruct (createEmbedding_up t w Ht) as (r & w1 & ->).
  destruct (IH w1) as (rs & w2 & E).
  destruct (run_all _ texts w1) as [ys w3]. simpl in *.
  destruct (collect ys) as [bs | e]; [| done]. eauto.
Qed.

Lemma embedding_rounds_up (bs : list (list jsstring)) acc w :
  Forall (fun t => valid_text t = true) (concat bs) ->
  exists acc' w',
    for_of bs
      (fun (acc : list EmbeddingResult * Z) batch =>
         batchResults ← promise_all (EmbeddingService.createEmbedding env emb) batch;
         mret (acc.1 ++ batchResults, acc.2 + EmbeddingService.sum_tokens batchResults))
      acc w = (Ok acc', w').
Proof.
  revert acc w. induction bs as [| b bs IH]; intros acc w Hv; simpl; [eauto |].
  simpl in Hv. apply Forall_app in Hv as [Hb Hr].
  unfold mbind at 1, M_bind at 1. unfold mbind at 1, M_bind at 1.
  destruct (promise_all_up b w Hb) as (rs & w1 & ->). simpl.
  apply IH, Hr.
Qed.

Lemma createEmbeddingBatch_up (texts : list jsstring) w :
  1 <= len texts <= 100 ->
  Forall (fun t => valid_text t = true) texts ->
  exists b w', EmbeddingService.createEmbeddingBatch env emb texts w = (Ok b, w').
Proof.
  intros Hl Hv. unfold EmbeddingService.createEmbeddingBatch.
  replace (len texts =? 0) with false by (symmetry; apply Z.eqb_neq; lia).
  replace (100 <? len texts) with false by (symmetry; apply Z.ltb_ge; lia).
  unfold mbind at 1, M_bind at 1.
  change (now env w) with (Ok (clock env (trace w)), ticked env w). cbv beta iota.
  unfold try_catch at 1. unfold mbind at 1, M_bind at 1.
  destruct (embedding_rounds_up (batches 5 texts) ([], 0) (ticked env w))
    as (acc & w1 & ->).
  { destruct (batches_spec 5 texts) as [_ ->]; [lia | done]. }
  unfold mbind, M_bind, now, log_info, emit. simpl. eauto.
Qed.

Hypothesis index_up : forall tr points, exists u, index_upsert env tr points = Ok u.

Lemma add_batch_up addedCount (batch : list DocumentChunk) w :
  1 <= len batch <= 100 ->
  Forall (fun c => valid_text (chunk_content c) = true) batch ->
  exists w', VectorService.add_batch env emb addedCount batch w
             = (Ok (addedCount + len batch), w').
Proof.
  intros Hl Hv. unfold VectorService.add_batch. cbv zeta.
  unfold mbind at 1, M_bind at 1.
  destruct (createEmbeddingBatch_up (map chunk_content batch) w) as (b & w1 & ->).
  { unfold len in *. by rewrite length_map. }
  { by apply Forall_fmap. }
  unfold mbind, M_bind, request.
  destruct (index_up (trace w1) (imap (VectorService.to_point (embeddings b)) batch))
    as [u ->].
  simpl. eauto.
Qed.

Lemma add_rounds_up (bs : list (list DocumentChunk)) acc w :
  Forall (fun b => 1 <= len b <= 100) bs ->
  Forall (fun c => valid_text (chunk_content c) = true) (concat bs) ->
  exists w', for_of bs (VectorService.add_batch env emb) acc w
             = (Ok (acc + len (concat bs)), w').
Proof.
  revert acc w. induction bs as [| b bs IH]; intros acc w Hs Hv; simpl.
  - exists w. unfold mret, M_ret. f_equal. f_equal. unfold len. simpl. lia.
  - inversion Hs as [| ? ? Hb Hs']; subst. simpl in Hv.
    apply Forall_app in Hv as [Hvb Hvr].
    unfold mbind at 1, M_bind at 1.
    destruct (add_batch_up acc b w Hb Hvb) as [w1 ->].
    destruct (IH (acc + len b) w1 Hs' Hvr) as [w2 ->].
    exists w2. f_equal. f_equal. rewrite len_app. lia.
Qed.

Lemma addDocuments_up svc (chunks : list DocumentChunk) w :
  VectorService.isAvailable svc = true ->
  chunks <> [] ->
  Forall (fun c => valid_text (chunk_content c) = true) chunks ->
  exists w', VectorService.addDocuments env emb svc chunks w = (Ok (len chunks), w').
Proof.
  intros Ha Hne Hv. unfold VectorService.isAvailable in Ha.
  apply andb_true_iff in Ha as [Hi Hc].
  unfold VectorService.addDocuments. rewrite Hi, Hc. cbn [negb orb].
  replace (len chunks =? 0) with false.
  2: { symmetry. apply Z.eqb_neq. destruct chunks; [done |]. unfold len. simpl. lia. }
  unfold mbind at 1, M_bind at 1.
  change (now env w) with (Ok (clock env (trace w)), ticked env w). cbv beta iota.
  unfold try_catch at 1. unfold mbind at 1, M_bind at 1.
  destruct (batches_spec 100 chunks) as [Hs Hcat]; [lia |].
  destruct (add_rounds_up (batches 100 chunks) 0 (ticked env w) Hs) as [w1 ->].
  { by rewrite Hcat. }
  rewrite Hcat. unfold mbind, M_bind, now, log_info, emit. simpl. eauto.
Qed.

End BatchForward.

Section BatchRounds.
Variable env : Env.

(** [addDocuments] on an available service is the loop over the batches
    of 100, between two readings of the clock. *)
Lemma addDocuments_rounds emb svc (chunks : list DocumentChunk) w :
  VectorService.isAvailable svc = true ->
  chunks <> [] ->
  VectorService.addDocuments env emb svc chunks w
  = match for_of (batches 100 chunks) (VectorService.add_batch env emb) 0 (ticked env w) with
    | (Ok n, w1) =>
      (Ok n, logged (ticked env w1) LInfo (lit "Documents added to vector database"))
    | (Err e, w1) =>
      (Err (mkError (lit "Failed to add documents: " ++ error_message e)),
       logged (ticked env w1) LError
         (lit "Failed to add documents to vector database" ++ lit ": " ++ error_message e))
    end.
Proof.
  intros Ha Hne. unfold VectorService.isAvailable in Ha.
  apply andb_true_iff in Ha as [Hi Hc].
  unfold VectorService.addDocuments. rewrite Hi, Hc. cbn [negb orb].
  replace (len chunks =? 0) with false.
  2: { symmetry. apply Z.eqb_neq. destruct chunks; [done |]. unfold len. simpl. lia. }
  unfold mbind at 1, M_bind at 1.
  change (now env w) with (Ok (clock env (trace w)), ticked env w). cbv beta iota.
  unfold try_catch at 1. unfold mbind at 1, M_bind at 1.
  destruct (for_of (batches 100 chunks) _ 0 (ticked env w)) as [[n | e] w1]; reflexivity.
Qed.

(** A round of the loop is one embedding call, on the contents of the
    batch, and then one upsert. *)
Lemma add_batch_round emb addedCount (batch : list DocumentChunk) w :
  VectorService.add_batch env emb addedCount batch w
  = match EmbeddingService.createEmbeddingBatch env emb (map chunk_content batch) w with
    | (Ok embeddingResult, w1) =>
      let points := imap (VectorService.to_point (embeddings embeddingResult)) batch in
      match index_upsert env (trace w1) points with
      | Ok _ => (Ok (addedCount + len batch), after w1 (IndexUpsert points))
      | Err e => (Err e, after w1 (IndexUpsert points))
      end
    | (Err e, w1) => (Err e, w1)
    end.
Proof.
  unfold VectorService.add_batch. cbv zeta. unfold mbind at 1, M_bind at 1.
  destruct (EmbeddingService.createEmbeddingBatch env emb (map chunk_content batch) w)
    as [[er | e] w1]; [| reflexivity].
  unfold mbind, M_bind, request.
  destruct (index_upsert env (trace w1) _); reflexivity.
Qed.

End BatchRounds.

Section Grows.

Lemma grows_ret {A} (a : A) : grows (mret a).
Proof. intros w. exists []. simpl. by rewrite app_nil_r. Qed.

Lemma grows_throw {A} msg : grows (@throw A msg).
Proof. intros w. exists []. simpl. by rewrite app_nil_r. Qed.

Lemma grows_emit e : grows (emit e).
Proof. intros w. by exists [e]. Qed.

Lemma grows_request {A} e (answer : list event -> result A) : grows (request e answer).
Proof. intros w. by exists [e]. Qed.

Lemma grows_now env : grows (now env).
Proof. intros w. by eexists [_]. Qed.

Lemma grows_bind {A B} (m : M A) (k : A -> M B) :
  grows m -> (forall a, grows (k a)) -> grows (m ≫= k).
Proof.
  intros Hm Hk w. unfold mbind, M_bind. destruct (Hm w) as [evs Hw].
  destruct (m w) as [[a | e] w1]; simpl in *; [| eauto].
  destruct (Hk a w1) as [evs' Hw']. exists (evs ++ evs').
  by rewrite Hw', Hw, app_assoc.
Qed.

Lemma grows_try_catch {A} (m : M A) (h : Error -> M A) :
  grows m -> (forall e, grows (h e)) -> grows (try_catch m h).
Proof.
  intros Hm Hh w. unfold try_catch. destruct (Hm w) as [evs Hw].
  destruct (m w) as [[a | e] w1]; simpl in *; [eauto |].
  destruct (Hh e w1) as [evs' Hw']. exists (evs ++ evs').
  by rewrite Hw', Hw, app_assoc.
Qed.

Lemma grows_for_of {A S} (l : list A) (body : S -> A -> M S) acc :
  (forall acc x, grows (body acc x)) -> grows (for_of l body acc).
Proof.
  intros Hb. revert acc. induction l as [| x l IH]; intros acc; simpl.
  - apply grows_ret.
  - apply grows_bind; [apply Hb | apply IH].
Qed.

Lemma grows_promise_all {A B} (f : A -> M B) (l : list A) :
  (forall x, grows (f x)) -> grows (promise_all f l).
Proof.
  intros Hf w. unfold promise_all.
  assert (exists evs, trace (snd (run_all f l w)) = trace w ++ evs) as [evs H].
  { revert w. induction l as [| x l IH]; intros w; simpl.
    - exists []. by rewrite app_nil_r.
    - destruct (Hf x w) as [evs Hw]. destruct (f x w) as [y w1]. simpl in Hw.
      destruct (IH w1) as [evs' Hw']. destruct (run_all f l w1) as [ys w2]. simpl in *.
      exists (evs ++ evs'). by rewrite Hw', Hw, app_assoc. }
  exists evs. by destruct (run_all f l w).
Qed.

End Grows.

Ltac grows_step :=
  lazymatch goal with
  | |- grows (mret _) => apply grows_ret
  | |- grows (throw _) => apply grows_throw
  | |- grows (now _) => apply grows_now
  | |- grows (request _ _) => apply grows_request
  | |- grows (emit _) => apply grows_emit
  | |- grows (log_info _) => apply grows_emit
  | |- grows (log_warn _) => apply grows_emit
  | |- grows (logError _ _) => apply grows_emit
  | |- grows (_ ≫= _) => apply grows_bind; [| intros ?]
  | |- grows (try_catch _ _) => apply grows_try_catch; [| intros ?]
  | |- grows (for_of _ _ _) => apply grows_for_of; intros ? ?
  | |- grows (promise_all _ _) => apply grows_promise_all; intros ?
  | |- grows (if ?b then _ else _) => destruct b
  | |- grows (match ?x with _ => _ end) => destruct x
  end.

Section BatchGuards.
Variable env : Env.

Lemma grows_createEmbedding svc text :
  grows (EmbeddingService.createEmbedding env svc text).
Proof. unfold EmbeddingService.createEmbedding. repeat grows_step. Qed.

(** A list of 1 to 100 texts passes both guards of [createEmbeddingBatch]:
    the call goes on to read the clock. *)
Lemma createEmbeddingBatch_passes svc (texts : list jsstring) w :
  1 <= len texts <= 100 ->
  exists evs,
    trace (snd (EmbeddingService.createEmbeddingBatch env svc texts w))
    = trace w ++ ClockRead (clock env (trace w)) :: evs.
Proof.
  intros Hl. unfold EmbeddingService.createEmbeddingBatch.
  replace (len texts =? 0) with false by (symmetry; apply Z.eqb_neq; lia).
  replace (100 <? len texts) with false by (symmetry; apply Z.ltb_ge; lia).
  unfold mbind at 1, M_bind at 1.
  change (now env w) with (Ok (clock env (trace w)), ticked env w). cbv beta iota.
  match goal with |- context [snd (?m (ticked env w))] =>
    assert (grows m) as Hg end.
  { repeat grows_step. apply grows_createEmbedding. }
  destruct (Hg (ticked env w)) as [evs ->]. exists evs.
  unfold ticked, after. simpl. by rewrite <- app_assoc.
Qed.

End BatchGuards.

(** C10.  [createEmbeddingBatch] rejects an empty list and a list of more
    than 100 texts before anything else happens: the world, and with it the
    list of requests sent to the embedding provider, is unchanged.  The
    upsert path never reaches the cap.  [addDocuments] is the loop over
    the batches of 100 of its chunks, which hold between 1 and 100 chunks
    each and are, in order, all the chunks; a round of the loop makes one
    embedding call, on the contents of its batch, and that call passes
    both guards: it goes on to read the clock.  So the cap never stands in
    the way of an upsert: with both services available, an embedding API
    and an index that answer, and contents that an embedding accepts,
    [addDocuments] fulfils with the number of its chunks, however many
    they are; 250 chunks, which one embedding call would refuse, are
    stored in rounds of 100, 100 and 50. *)
Theorem embedding_batch_cap (env : Env) :
  (forall svc texts w,
     len texts = 0 \/ 100 < len texts ->
     exists e, EmbeddingService.createEmbeddingBatch env svc texts w = (Err e, w))
  /\ (forall chunks : list DocumentChunk,
        Forall (fun batch => 1 <= len (map chunk_content batch) <= 100)
               (batches 100 chunks)
        /\ concat (batches 100 chunks) = chunks)
  /\ (forall emb svc (chunks : list DocumentChunk) w,
        VectorService.isAvailable svc = true ->
        chunks <> [] ->
        VectorService.addDocuments env emb svc chunks w
        = match for_of (batches 100 chunks) (VectorService.add_batch env emb) 0
                  (ticked env w) with
          | (Ok n, w1) =>
            (Ok n, logged (ticked env w1) LInfo (lit "Documents added to vector database"))
          | (Err e, w1) =>
            (Err (mkError (lit "Failed to add documents: " ++ error_message e)),
             logged (ticked env w1) LError
               (lit "Failed to add documents to vector database" ++ lit ": "
                ++ error_message e))
          end)
  /\ (forall emb addedCount (batch : list DocumentChunk) w,
        VectorService.add_batch env emb addedCount batch w
        = match EmbeddingService.createEmbeddingBatch env emb
                  (map chunk_content batch) w with
          | (Ok embeddingResult, w1) =>
            let points := imap (VectorService.to_point (embeddings embeddingResult)) batch in
            match index_upsert env (trace w1) points with
            | Ok _ => (Ok (addedCount + len batch), after w1 (IndexUpsert points))
            | Err e => (Err e, after w1 (IndexUpsert points))
            end
          | (Err e, w1) => (Err e, w1)
          end)
  /\ (forall (chunks batch : list DocumentChunk) emb w,
        batch ∈ batches 100 chunks ->
        exists evs,
          trace (snd (EmbeddingService.createEmbeddingBatch env emb
                        (map chunk_content batch) w))
          = trace w ++ ClockRead (clock env (trace w)) :: evs)
  /\ (forall emb svc (chunks : list DocumentChunk) w,
        VectorService.isAvailable svc = true ->
        EmbeddingService.isAvailable emb = true ->
        chunks <> [] ->
        Forall (fun c => valid_text (chunk_content c) = true) chunks ->
        (forall tr text, exists v, embed_api env tr text = Ok v /\ len v <> 0) ->
        (forall tr points, exists u, index_upsert env tr points = Ok u) ->
        exists w', VectorService.addDocuments env emb svc chunks w = (Ok (len chunks), w'))
  /\ (let chunks := replicate 250 sample_chunk in
      let run := VectorService.addDocuments env_up ready_embedding ready_vector chunks
                   world0 in
      fst run = Ok 250
      /\ map length (upserts (trace (snd run))) = [100; 100; 50]%nat
      /\ EmbeddingService.createEmbeddingBatch env_up ready_embedding
           (map chunk_content chunks) world0
         = (Err (mkError (lit "Too many texts for batch embedding (max: 100)")), world0)).
Proof.
  split.
  { intros svc texts w H. unfold EmbeddingService.createEmbeddingBatch.
    destruct (len texts =? 0) eqn:E0; [unfold throw; eauto |].
    apply Z.eqb_neq in E0. destruct H as [H | H]; [done |].
    replace (100 <? len texts) with true by (symmetry; by apply Z.ltb_lt).
    unfold throw. eauto. }
  assert (forall chunks : list DocumentChunk,
            Forall (fun batch => 1 <= len (map chunk_content batch) <= 100)
                   (batches 100 chunks)
            /\ concat (batches 100 chunks) = chunks) as Hsizes.
  { intros chunks. destruct (batches_spec 100 chunks) as [F C]; [lia |].
    split; [| done]. eapply Forall_impl; [exact F |].
    intros b Hb. simpl in Hb. unfold len in *. rewrite length_map. done. }
  split; [exact Hsizes |].
  split; [intros emb svc chunks w; apply addDocuments_rounds |].
  split; [intros emb addedCount batch w; apply add_batch_round |].
  split.
  { intros chunks batch emb w Hin. apply createEmbeddingBatch_passes.
    destruct (Hsizes chunks) as [F _]. rewrite Forall_forall in F. by apply F. }
  split.
  { intros emb svc chunks w Ha He Hne Hv Hapi Hidx.
    by apply addDocuments_up. }
  repeat split; vm_compute; reflexivity.
Qed.
